(** * PoeClaw gateway: session, credential codec, rate limiter and relay

    A shallow embedding of the TypeScript sources
      - [src/auth/session.ts]   (token signing, AES-GCM key storage, cookies)
      - [src/auth/poe.ts]       (validation of a key with the Poe API)
      - [src/routes/auth.ts]    (login rate limiter, login and /me handlers)
      - [src/index.ts]          (session middleware, per-user environment
                                 of the proxy, WebSocket close relay)
    together with the properties the specification states about them.

    JavaScript strings are sequences of UTF-16 code units and byte arrays are
    sequences of octets; both are lists of [N] here.  The platform functions
    the sources call ([btoa], [atob], [TextEncoder], [TextDecoder],
    [String.prototype.padEnd], ...) are written out after their standards;
    the cryptographic primitives and the JSON codec are an interface. *)

From Stdlib Require Import NArith ZArith List Lia Bool Ascii String.
From stdpp Require Import base decidable numbers option list gmap.

Local Open Scope N_scope.

(* ===================================================================== *)
(** ** JavaScript strings *)
(* ===================================================================== *)

Module JS.

(** A string is the list of its UTF-16 code units, a byte array the list of
    its octets. *)
Abbreviation jsstring := (list N).
Abbreviation bytes := (list N).

(** Source-text literals: the code units of an ASCII literal. *)
Definition lit (s : string) : jsstring :=
  map N_of_ascii (list_ascii_of_string s).

(** Exceptions the platform raises in the modelled code. *)
Inductive exn : Set :=
| InvalidCharacterError   (* btoa / atob *)
| DataError               (* crypto.subtle.importKey *)
| OperationError          (* crypto.subtle.decrypt *)
| SyntaxError             (* JSON.parse *)
| TypeError.              (* a member read of null, a call of what is no function *)

Inductive result (A : Type) : Type :=
| Ok (a : A)
| Throw (e : exn).
Arguments Ok {A} a.
Arguments Throw {A} e.

Definition rbind {A B} (r : result A) (k : A -> result B) : result B :=
  match r with
  | Ok a => k a
  | Throw e => Throw e
  end.

(** [try { ... } catch { return null }] *)
Definition catch_null {A} (r : result (option A)) : option A :=
  match r with
  | Ok o => o
  | Throw _ => None
  end.

Definition of_option {A} (e : exn) (o : option A) : result A :=
  match o with
  | Some a => Ok a
  | None => Throw e
  end.

(** [!s] for a value of type [string | undefined]. *)
Definition falsy (o : option jsstring) : bool :=
  match o with
  | None => true
  | Some [] => true
  | Some (_ :: _) => false
  end.

(** [a || b] on strings-or-undefined. *)
Definition or_else (a b : option jsstring) : option jsstring :=
  if falsy a then b else a.

Fixpoint starts_with (p s : jsstring) : bool :=
  match p, s with
  | [], _ => true
  | _ :: _, [] => false
  | a :: p', b :: s' => (a =? b) && starts_with p' s'
  end.

(** [s.includes(needle)] *)
Fixpoint includes (needle s : jsstring) : bool :=
  starts_with needle s ||
  match s with
  | [] => false
  | _ :: s' => includes needle s'
  end.

(** [s.padEnd(n, '0')] with a one-unit filler. *)
Definition padEnd (n : nat) (fill : N) (s : jsstring) : jsstring :=
  s ++ repeat fill (n - length s)%nat.

(** [s.slice(0, n)] *)
Definition slice_to (n : nat) (s : jsstring) : jsstring := firstn n s.

(** [s.slice(n)] for [n >= 0] *)
Definition slice_from (n : nat) (s : jsstring) : jsstring := skipn n s.

(** [s.slice(-n)] *)
Definition slice_last (n : nat) (s : jsstring) : jsstring :=
  skipn (length s - n)%nat s.

(** ECMAScript WhiteSpace and LineTerminator code units, as stripped by
    [String.prototype.trim]. *)
Definition js_space (c : N) : bool :=
  (c =? 9) || (c =? 10) || (c =? 11) || (c =? 12) || (c =? 13) || (c =? 32)
  || (c =? 0xA0) || (c =? 0x1680) || ((0x2000 <=? c) && (c <=? 0x200A))
  || (c =? 0x2028) || (c =? 0x2029) || (c =? 0x202F) || (c =? 0x205F)
  || (c =? 0x3000) || (c =? 0xFEFF).

Fixpoint trim_start (s : jsstring) : jsstring :=
  match s with
  | [] => []
  | c :: r => if js_space c then trim_start r else s
  end.

Definition trim (s : jsstring) : jsstring :=
  rev (trim_start (rev (trim_start s))).

(** [s.split(sep)] for a one-unit separator: the pieces between the
    separators, always at least one piece. *)
Fixpoint split_on (sep : N) (s : jsstring) : list jsstring :=
  match s with
  | [] => [[]]
  | c :: r =>
      if c =? sep then [] :: split_on sep r
      else match split_on sep r with
           | [] => [[c]]
           | p :: ps => (c :: p) :: ps
           end
  end.

(** In-place replacement of the code unit at index [i]. *)
Definition replace_at (i : nat) (c : N) (s : jsstring) : jsstring :=
  <[i := c]> s.

End JS.
Export JS.

(* ===================================================================== *)
(** ** UTF-8: TextEncoder and TextDecoder *)
(* ===================================================================== *)

Module UTF8.

Definition is_high_surrogate (c : N) : bool := (0xD800 <=? c) && (c <=? 0xDBFF).
Definition is_low_surrogate (c : N) : bool := (0xDC00 <=? c) && (c <=? 0xDFFF).

(** The scalar values of a string: a surrogate pair is one scalar, a lone
    surrogate becomes U+FFFD. *)
Fixpoint scalars (s : jsstring) : list N :=
  match s with
  | [] => []
  | c :: r =>
      if is_high_surrogate c then
        match r with
        | d :: r' =>
            if is_low_surrogate d
            then (0x10000 + (c - 0xD800) * 0x400 + (d - 0xDC00)) :: scalars r'
            else 0xFFFD :: scalars r
        | [] => [0xFFFD]
        end
      else if is_low_surrogate c then 0xFFFD :: scalars r
      else c :: scalars r
  end.

Definition encode_scalar (cp : N) : bytes :=
  if cp <? 0x80 then [cp]
  else if cp <? 0x800 then [192 + (cp / 64) mod 32; 128 + cp mod 64]
  else if cp <? 0x10000 then
    [224 + (cp / 4096) mod 16; 128 + (cp / 64) mod 64; 128 + cp mod 64]
  else
    [240 + (cp / 262144) mod 8; 128 + (cp / 4096) mod 64;
     128 + (cp / 64) mod 64; 128 + cp mod 64].

(** [new TextEncoder().encode(s)] *)
Definition TextEncoder_encode (s : jsstring) : bytes :=
  flat_map encode_scalar (scalars s).

(** The code units of one scalar value. *)
Definition units_of_scalar (cp : N) : jsstring :=
  if cp <? 0x10000 then [cp]
  else [0xD800 + (cp - 0x10000) / 0x400; 0xDC00 + (cp - 0x10000) mod 0x400].

(** State of the WHATWG UTF-8 decoder between two bytes. *)
Record dstate := DState {
  d_cp : N;        (* code point being assembled *)
  d_needed : nat;  (* continuation bytes still expected *)
  d_lower : N;     (* bounds on the next continuation byte *)
  d_upper : N
}.

Definition d_init : dstate := DState 0 0 0x80 0xBF.

(** A byte read with no sequence pending: the scalars emitted and the new
    state. *)
Definition lead_byte (b : N) : list N * dstate :=
  if b <=? 0x7F then ([b], d_init)
  else if (0xC2 <=? b) && (b <=? 0xDF) then ([], DState (b mod 32) 1 0x80 0xBF)
  else if (0xE0 <=? b) && (b <=? 0xEF) then
    ([], DState (b mod 16) 2
                (if b =? 0xE0 then 0xA0 else 0x80)
                (if b =? 0xED then 0x9F else 0xBF))
  else if (0xF0 <=? b) && (b <=? 0xF4) then
    ([], DState (b mod 8) 3
                (if b =? 0xF0 then 0x90 else 0x80)
                (if b =? 0xF4 then 0x8F else 0xBF))
  else ([0xFFFD], d_init).

Fixpoint decode_from (st : dstate) (bs : bytes) : list N :=
  match bs with
  | [] => match d_needed st with O => [] | S _ => [0xFFFD] end
  | b :: r =>
      match d_needed st with
      | O => let '(out, st') := lead_byte b in out ++ decode_from st' r
      | S n =>
          if (d_lower st <=? b) && (b <=? d_upper st) then
            let cp := d_cp st * 64 + b mod 64 in
            match n with
            | O => cp :: decode_from d_init r
            | S _ => decode_from (DState cp n 0x80 0xBF) r
            end
          else
            (* ill-formed: emit U+FFFD and read the byte again afresh *)
            let '(out, st') := lead_byte b in
            0xFFFD :: out ++ decode_from st' r
      end
  end.

Definition strip_bom (bs : bytes) : bytes :=
  match bs with
  | a :: b :: c :: r =>
      if (a =? 0xEF) && (b =? 0xBB) && (c =? 0xBF) then r else bs
  | _ => bs
  end.

(** [new TextDecoder().decode(bs)]: UTF-8, not fatal, byte order mark
    dropped. *)
Definition TextDecoder_decode (bs : bytes) : jsstring :=
  flat_map units_of_scalar (decode_from d_init (strip_bom bs)).

End UTF8.
Export UTF8.

(* ===================================================================== *)
(** ** Base64: btoa and atob *)
(* ===================================================================== *)

Module Base64.

(** The base64 alphabet, by sextet value. *)
Definition enc (v : N) : N :=
  if v <? 26 then 65 + v
  else if v <? 52 then 97 + (v - 26)
  else if v <? 62 then 48 + (v - 52)
  else if v =? 62 then 43
  else 47.

Definition dec (c : N) : option N :=
  if (65 <=? c) && (c <=? 90) then Some (c - 65)
  else if (97 <=? c) && (c <=? 122) then Some (c - 97 + 26)
  else if (48 <=? c) && (c <=? 57) then Some (c - 48 + 52)
  else if c =? 43 then Some 62
  else if c =? 47 then Some 63
  else None.

Definition pad : N := 61.  (* '=' *)

Definition is_b64_alphabet (c : N) : bool :=
  match dec c with Some _ => true | None => false end.

(** A character [btoa] can emit. *)
Definition is_b64_char (c : N) : bool := is_b64_alphabet c || (c =? pad).

Fixpoint encode_bytes (bs : bytes) : jsstring :=
  match bs with
  | [] => []
  | [a] => [enc (a / 4); enc ((a mod 4) * 16); pad; pad]
  | [a; b] =>
      [enc (a / 4); enc ((a mod 4) * 16 + b / 16); enc ((b mod 16) * 4); pad]
  | a :: b :: c :: r =>
      enc (a / 4) :: enc ((a mod 4) * 16 + b / 16)
        :: enc ((b mod 16) * 4 + c / 64) :: enc (c mod 64) :: encode_bytes r
  end.

(** [btoa(s)]: throws on a code unit above U+00FF. *)
Definition btoa (s : jsstring) : result jsstring :=
  if forallb (fun c => c <=? 255) s then Ok (encode_bytes s)
  else Throw InvalidCharacterError.

Definition ascii_whitespace (c : N) : bool :=
  (c =? 9) || (c =? 10) || (c =? 12) || (c =? 13) || (c =? 32).

(** Remove one or two trailing '=' (of a string given reversed). *)
Definition strip_pad_rev (r : jsstring) : jsstring :=
  match r with
  | a :: r1 =>
      if a =? pad then
        match r1 with
        | b :: r2 => if b =? pad then r2 else r1
        | [] => r1
        end
      else r
  | [] => r
  end.

Fixpoint decode_sextets (l : list N) : bytes :=
  match l with
  | a :: b :: c :: d :: r =>
      (a * 4 + b / 16) :: ((b mod 16) * 16 + c / 4) :: ((c mod 4) * 64 + d)
        :: decode_sextets r
  | [a; b; c] => [a * 4 + b / 16; (b mod 16) * 16 + c / 4]
  | [a; b] => [a * 4 + b / 16]
  | _ => []
  end.

(** The forgiving-base64 decode of the WHATWG Infra standard. *)
Definition forgiving_decode (s : jsstring) : option bytes :=
  let d := List.filter (fun c => negb (ascii_whitespace c)) s in
  let d := if (length d mod 4 =? 0)%nat then rev (strip_pad_rev (rev d)) else d in
  if (length d mod 4 =? 1)%nat then None
  else decode_sextets <$> mapM dec d.

(** [atob(s)] *)
Definition atob (s : jsstring) : result jsstring :=
  of_option InvalidCharacterError (forgiving_decode s).

End Base64.
Export Base64.

(* ===================================================================== *)
(** ** The platform interface: Web Crypto and JSON *)
(* ===================================================================== *)

Record PoeModel := mkPoeModel {
  model_id : jsstring;    (* e.g. "Claude-Sonnet-4.5" *)
  model_name : jsstring   (* display name *)
}.

(** [PoeSessionUser] of src/types.ts. *)
Record PoeSessionUser := mkPoeSessionUser {
  userHash : jsstring;        (* SHA-256 hash used as sandbox id *)
  keyLast4 : jsstring;        (* last 4 characters of the API key *)
  models : list PoeModel;     (* models from /v1/models *)
  createdAt : Z               (* session creation time, epoch ms *)
}.

(** What the sources take from the runtime: [crypto.subtle] with SHA-256,
    HMAC-SHA256 and AES-GCM, and [JSON] at the type the sources assert for
    it ([JSON.parse(payloadStr) as PoeSessionUser]): [JSON_parse] reads the
    text of a session payload, an object whose [createdAt] is a number.
    A signed payload of another shape is outside the model: where
    [createdAt] is no number the age test of [verifySessionToken] compares
    with NaN and lets the payload through at any age.  The statements on
    expiry below are about tokens [createSessionToken] issued, whose
    payload has that shape. *)
Class Platform := {
  sha256 : bytes -> bytes;
  hmac_sha256 : bytes -> bytes -> bytes;                  (* key, data *)
  aes_gcm_encrypt : bytes -> bytes -> bytes -> bytes;     (* key, iv, plaintext *)
  aes_gcm_decrypt : bytes -> bytes -> bytes -> option bytes;
  JSON_stringify : PoeSessionUser -> jsstring;
  JSON_parse : jsstring -> option PoeSessionUser
}.

Definition octets (bs : bytes) : Prop := Forall (fun b => b < 256) bs.

(** The input AES-GCM gets from the sources: a 256-bit key, a 96-bit
    nonce, and octets. *)
Definition aes_gcm_input (k iv p : bytes) : Prop :=
  length k = 32%nat /\ length iv = 12%nat
  /\ octets k /\ octets iv /\ octets p.

(** Facts of the primitives that hold by their definition: an HMAC-SHA256
    tag is 32 octets, AES-GCM decrypts what it encrypted, and the text of a
    JSON object is not empty. *)
Class PlatformLaws (P : Platform) : Prop := {
  hmac_sha256_octets : forall k m, octets (hmac_sha256 k m);
  hmac_sha256_length : forall k m, length (hmac_sha256 k m) = 32%nat;
  aes_gcm_encrypt_octets :
    forall k iv p, aes_gcm_input k iv p -> octets (aes_gcm_encrypt k iv p);
  aes_gcm_decrypt_encrypt :
    forall k iv p, aes_gcm_input k iv p ->
                   aes_gcm_decrypt k iv (aes_gcm_encrypt k iv p) = Some p;
  JSON_stringify_nonempty : forall u, JSON_stringify u <> []
}.

(** [crypto.subtle.importKey('raw', data, {name:'HMAC',...})] rejects an
    empty key. *)
Definition importKey_hmac (raw : bytes) : result bytes :=
  match raw with
  | [] => Throw DataError
  | _ :: _ => Ok raw
  end.

(** [crypto.subtle.importKey('raw', data, 'AES-GCM', ...)] accepts 128, 192
    and 256 bit keys only. *)
Definition importKey_aes (raw : bytes) : result bytes :=
  let n := length raw in
  if (n =? 16)%nat || (n =? 24)%nat || (n =? 32)%nat then Ok raw
  else Throw DataError.

(** [Uint8Array.from(s, c => c.charCodeAt(0))] *)
Definition Uint8Array_from (s : jsstring) : bytes :=
  map (fun c => c mod 256) s.

(* ===================================================================== *)
(** ** src/auth/session.ts *)
(* ===================================================================== *)

Module Session.
Section WithPlatform.
Context {P : Platform}.

Definition SESSION_MAX_AGE_MS : Z := 24 * 60 * 60 * 1000.

Definition hex_digit (v : N) : N := if v <? 10 then 48 + v else 87 + v.

(** [b.toString(16).padStart(2, '0')] of every digest byte, joined. *)
Definition hashApiKey (apiKey : jsstring) : jsstring :=
  flat_map (fun b => [hex_digit (b / 16); hex_digit (b mod 16)])
           (sha256 (TextEncoder_encode apiKey)).

Definition deriveHmacKey (secret : jsstring) : result bytes :=
  importKey_hmac (TextEncoder_encode secret).

Definition dot : N := 46.

Definition createSessionToken (payload : PoeSessionUser) (secret : jsstring)
  : result jsstring :=
  let payloadStr := JSON_stringify payload in
  rbind (btoa payloadStr) (fun payloadB64 =>
  rbind (deriveHmacKey secret) (fun key =>
  let sig := hmac_sha256 key (TextEncoder_encode payloadB64) in
  rbind (btoa sig) (fun sigB64 =>
  Ok (payloadB64 ++ dot :: sigB64)))).

(** [crypto.subtle.verify('HMAC', key, sig, data)] *)
Definition hmac_verify (key sig data : bytes) : bool :=
  bool_decide (sig = hmac_sha256 key data).

(** [verifySessionToken]; [now] is the value of [Date.now()]. *)
Definition verifySessionToken (token secret : jsstring) (now : Z)
  : option PoeSessionUser :=
  catch_null
    match split_on dot token with
    | payloadB64 :: sigB64 :: _ =>
        if bool_decide (payloadB64 = []) || bool_decide (sigB64 = [])
        then Ok None
        else
          rbind (deriveHmacKey secret) (fun key =>
          rbind (atob sigB64) (fun sigStr =>
          let sig := Uint8Array_from sigStr in
          if hmac_verify key sig (TextEncoder_encode payloadB64) then
            rbind (atob payloadB64) (fun payloadStr =>
            rbind (of_option SyntaxError (JSON_parse payloadStr)) (fun payload =>
            if (now - createdAt payload >? SESSION_MAX_AGE_MS)%Z
            then Ok None
            else Ok (Some payload)))
          else Ok None))
    | _ => Ok None
    end.

(** Key material for AES-GCM: [secret.padEnd(32, '0').slice(0, 32)],
    UTF-8 encoded. *)
Definition aesKeyData (secret : jsstring) : bytes :=
  TextEncoder_encode (slice_to 32 (padEnd 32 48 secret)).

(** [encryptApiKey]; [iv] is the value of
    [crypto.getRandomValues(new Uint8Array(12))]. *)
Definition encryptApiKey (apiKey secret : jsstring) (iv : bytes)
  : result jsstring :=
  rbind (importKey_aes (aesKeyData secret)) (fun cryptoKey =>
  let ciphertext := aes_gcm_encrypt cryptoKey iv (TextEncoder_encode apiKey) in
  let combined := iv ++ ciphertext in
  btoa combined).

Definition decryptApiKey (encrypted secret : jsstring) : result jsstring :=
  rbind (importKey_aes (aesKeyData secret)) (fun cryptoKey =>
  rbind (atob encrypted) (fun s =>
  let combined := Uint8Array_from s in
  let iv := firstn 12 combined in
  let ciphertext := skipn 12 combined in
  rbind (of_option OperationError (aes_gcm_decrypt cryptoKey iv ciphertext))
        (fun plaintext =>
  Ok (TextDecoder_decode plaintext)))).

Definition cookie_name_eq : jsstring := lit "poeclaw_session=".

Definition buildSessionCookie (token : jsstring) : jsstring :=
  cookie_name_eq ++ token
    ++ lit "; HttpOnly; Secure; SameSite=Lax; Max-Age=86400; Path=/".

Definition clearSessionCookie : jsstring :=
  lit "poeclaw_session=; HttpOnly; Secure; SameSite=Lax; Max-Age=0; Path=/".

Definition semicolon : N := 59.

(** The longest prefix free of ';' : what [[^;]+] consumes. *)
Fixpoint not_semicolon_run (s : jsstring) : jsstring :=
  match s with
  | [] => []
  | c :: r => if c =? semicolon then [] else c :: not_semicolon_run r
  end.

(** [s] with the prefix [p] removed, when [s] starts with [p]. *)
Fixpoint strip_prefix (p s : jsstring) : option jsstring :=
  match p, s with
  | [], _ => Some s
  | _ :: _, [] => None
  | a :: p', b :: s' => if a =? b then strip_prefix p' s' else None
  end.

(** [s.match(/poeclaw_session=([^;]+)/)]: capture group 1 of the leftmost
    match, tried at every start index in turn. *)
Fixpoint match_session_cookie (s : jsstring) : option jsstring :=
  match s with
  | [] => None
  | _ :: r =>
      match strip_prefix cookie_name_eq s with
      | Some rest =>
          match not_semicolon_run rest with
          | [] => match_session_cookie r
          | v => Some v
          end
      | None => match_session_cookie r
      end
  end.

Definition extractSessionToken (cookieHeader : option jsstring)
  : option jsstring :=
  match cookieHeader with
  | None => None
  | Some [] => None
  | Some h => match_session_cookie h
  end.

End WithPlatform.
End Session.
Export Session.

(* ===================================================================== *)
(** ** A reference platform *)
(* ===================================================================== *)

(** A transparent instance of the interface, with no secrecy whatever: it
    shows the laws consistent and lets the handlers run on concrete
    requests. *)
Module Reference.

Definition to_octets (bs : bytes) : bytes := map (fun b => b mod 256) bs.

(** 32 octets, big endian, of a number below 2^256. *)
Fixpoint be_octets (n : nat) (v : N) : bytes :=
  match n with
  | O => []
  | S n' => be_octets n' (v / 256) ++ [v mod 256]
  end.

Definition mix (bs : bytes) : N :=
  fold_left (fun acc b => (acc * 1000003 + b + 1) mod (2 ^ 256)) bs 7.

Definition ref_sha256 (m : bytes) : bytes := be_octets 32 (mix m).

Definition ref_hmac (k m : bytes) : bytes :=
  be_octets 32 (mix (k ++ 256 :: m)).

(** The sealed text carries the plaintext followed by the key. *)
Definition ref_encrypt (k iv p : bytes) : bytes := to_octets (p ++ k).

Definition ref_decrypt (k iv c : bytes) : option bytes :=
  let n := (length c - length k)%nat in
  if bool_decide (skipn n c = k) && (length k <=? length c)%nat
  then Some (firstn n c) else None.

(** Decimal digits, most significant first. *)
Fixpoint digits_fuel (fuel : nat) (v : N) (acc : jsstring) : jsstring :=
  match fuel with
  | O => acc
  | S f =>
      let acc' := (48 + v mod 10) :: acc in
      if v <? 10 then acc' else digits_fuel f (v / 10) acc'
  end.

Definition show_N (v : N) : jsstring := digits_fuel (S (N.to_nat (N.log2 v))) v [].

Definition show_Z (z : Z) : jsstring :=
  match z with
  | Z0 => [48]
  | Zpos p => show_N (Npos p)
  | Zneg p => 45 :: show_N (Npos p)
  end.

Definition quote (s : jsstring) : jsstring := 34 :: s ++ [34].

(** A member name with its colon. *)
Definition key (name : string) : jsstring := quote (lit name) ++ [58].

Definition show_model (m : PoeModel) : jsstring :=
  123 :: key "id" ++ quote (model_id m) ++ 44 :: key "name"
    ++ quote (model_name m) ++ [125].

Fixpoint join_comma (l : list jsstring) : jsstring :=
  match l with
  | [] => []
  | [x] => x
  | x :: r => x ++ 44 :: join_comma r
  end.

(** The member order of [JSON.stringify]; strings are written without
    escapes. *)
Definition ref_stringify (u : PoeSessionUser) : jsstring :=
  123 :: key "userHash" ++ quote (userHash u)
    ++ 44 :: key "keyLast4" ++ quote (keyLast4 u)
    ++ 44 :: key "models" ++ 91 :: join_comma (map show_model (models u))
    ++ 93 :: 44 :: key "createdAt" ++ show_Z (createdAt u) ++ [125].

Fixpoint read_until_quote (s : jsstring) : option (jsstring * jsstring) :=
  match s with
  | [] => None
  | c :: r =>
      if c =? 34 then Some ([], r)
      else if c =? 92 then None
      else '(v, r') ← read_until_quote r; Some (c :: v, r')
  end.

Definition read_string (s : jsstring) : option (jsstring * jsstring) :=
  match s with
  | 34 :: r => read_until_quote r
  | _ => None
  end.

Fixpoint read_digits (s : jsstring) (acc : N) (seen : bool)
  : option (N * jsstring) :=
  match s with
  | [] => if seen then Some (acc, []) else None
  | c :: r =>
      if (48 <=? c) && (c <=? 57) then read_digits r (acc * 10 + (c - 48)) true
      else if seen then Some (acc, s) else None
  end.

Definition read_Z (s : jsstring) : option (Z * jsstring) :=
  match s with
  | 45 :: r => '(n, r') ← read_digits r 0 false; Some ((- Z.of_N n)%Z, r')
  | _ => '(n, r') ← read_digits s 0 false; Some (Z.of_N n, r')
  end.

Definition read_model (s : jsstring) : option (PoeModel * jsstring) :=
  r ← strip_prefix (123 :: key "id") s;
  '(i, r) ← read_string r;
  r ← strip_prefix (44 :: key "name") r;
  '(n, r) ← read_string r;
  r ← strip_prefix [125] r;
  Some (mkPoeModel i n, r).

(** One or more models up to the closing bracket. *)
Fixpoint read_models (fuel : nat) (s : jsstring)
  : option (list PoeModel * jsstring) :=
  match fuel with
  | O => None
  | S f =>
      '(m, r) ← read_model s;
      match r with
      | 44 :: r' => '(ms, r'') ← read_models f r'; Some (m :: ms, r'')
      | 93 :: r' => Some ([m], r')
      | _ => None
      end
  end.

Definition read_model_array (s : jsstring) : option (list PoeModel * jsstring) :=
  match s with
  | 91 :: 93 :: r => Some ([], r)
  | 91 :: r => read_models (length r) r
  | _ => None
  end.

(** Reads back what [ref_stringify] writes. *)
Definition ref_parse (s : jsstring) : option PoeSessionUser :=
  r ← strip_prefix (123 :: key "userHash") s;
  '(h, r) ← read_string r;
  r ← strip_prefix (44 :: key "keyLast4") r;
  '(k, r) ← read_string r;
  r ← strip_prefix (44 :: key "models") r;
  '(ms, r) ← read_model_array r;
  r ← strip_prefix (44 :: key "createdAt") r;
  '(t, r) ← read_Z r;
  match r with
  | [125] => Some (mkPoeSessionUser h k ms t)
  | _ => None
  end.

#[export] Instance ref_platform : Platform := {|
  sha256 := ref_sha256;
  hmac_sha256 := ref_hmac;
  aes_gcm_encrypt := ref_encrypt;
  aes_gcm_decrypt := ref_decrypt;
  JSON_stringify := ref_stringify;
  JSON_parse := ref_parse
|}.

End Reference.

(* ===================================================================== *)
(** ** Requests, environment and responses *)
(* ===================================================================== *)

(** The bindings the handlers read. *)
Record Env := mkEnv {
  SESSION_SECRET : option jsstring;
  ENCRYPTION_SECRET : option jsstring;
  DEV_MODE : option jsstring;
  (** [env.ASSETS.fetch] of /index.html for a request URL: the page, or
      [None] when the call throws. *)
  ASSETS_index : jsstring -> option jsstring
}.

(** A member of a JSON object, as far as the login handler tells values
    apart. *)
Inductive JsonMember :=
| JNull
| JString (s : jsstring)
| JOther.                  (* a number, a boolean, an array or an object *)

(** The body of a request, as [c.req.json()] reads it. *)
Inductive Body :=
| NotJson                  (* no JSON text: the promise rejects *)
| JsonNull                 (* the JSON text [null] *)
| JsonValue (apiKey : option JsonMember).
                           (* any other value, with its [apiKey] member if
                              it has one *)

Record Request := mkRequest {
  req_url : jsstring;
  header_Cookie : option jsstring;
  header_Accept : option jsstring;
  header_CF_Connecting_IP : option jsstring;
  header_X_Forwarded_For : option jsstring;
  body : Body
}.

(** The [apiKey] member of the JSON body where it is a string. *)
Definition body_apiKey (req : Request) : option jsstring :=
  match body req with
  | JsonValue (Some (JString s)) => Some s
  | _ => None
  end.

Inductive JsonBody :=
| ErrorJson (error : jsstring) (hint : option jsstring)
| LoginJson (userHash keyLast4 : jsstring) (models : option (list PoeModel))
| OkJson
| MeUnauthenticated                       (* { authenticated: false } *)
| MeAuthenticated (userHash keyLast4 : jsstring) (models : list PoeModel).

Inductive Response :=
| Json (status : Z) (body : JsonBody) (set_cookie : option jsstring)
| Text (status : Z) (body : jsstring)
| Asset (page : jsstring).                (* what ASSETS.fetch returned *)

(** [validatePoeApiKey]'s answer (src/auth/poe.ts); it comes from the Poe
    API. *)
Record PoeValidationResult := mkValidation {
  valid : bool;
  v_models : option (list PoeModel);
  v_error : option jsstring
}.

(* ===================================================================== *)
(** ** src/routes/auth.ts *)
(* ===================================================================== *)

Module AuthRoutes.
Section WithPlatform.
Context {P : Platform}.

Record Attempt := mkAttempt { count : Z; resetAt : Z }.

Definition MAX_ATTEMPTS : Z := 10.
Definition WINDOW_MS : Z := 60000.

(** [checkRateLimit]: the answer and the updated [loginAttempts] map. *)
Definition checkRateLimit (ip : jsstring) (now : Z)
    (loginAttempts : gmap jsstring Attempt) : bool * gmap jsstring Attempt :=
  let fresh := <[ip := mkAttempt 1 (now + WINDOW_MS)]> loginAttempts in
  match loginAttempts !! ip with
  | None => (true, fresh)
  | Some entry =>
      if (now >? resetAt entry)%Z then (true, fresh)
      else if (count entry >=? MAX_ATTEMPTS)%Z then (false, loginAttempts)
      else (true, <[ip := mkAttempt (count entry + 1) (resetAt entry)]> loginAttempts)
  end.

(** What a login leaves behind: the limiter's map and the commands run in
    the sandboxes, newest first. *)
Record ServerState := mkState {
  loginAttempts : gmap jsstring Attempt;
  sandbox_exec : list (jsstring * jsstring)   (* sandbox id, command *)
}.

Definition client_ip (req : Request) : jsstring :=
  default (lit "unknown")
    (or_else (header_CF_Connecting_IP req)
             (or_else (header_X_Forwarded_For req) (Some (lit "unknown")))).

(** The command the login handler runs to store the encrypted key. *)
Definition store_key_command (encryptedKey : jsstring) : jsstring :=
  lit "mkdir -p /tmp/poeclaw && echo '" ++ encryptedKey
    ++ lit "' > /tmp/poeclaw/encrypted-key".

(** An exception leaving a handler is answered by the framework. *)
Definition internal_error : Response := Text 500 (lit "Internal Server Error").

(** [(await c.req.json().catch(() => ({ apiKey: undefined }))).apiKey?.trim()]:
    the trimmed key, [undefined], or a TypeError. *)
Definition read_apiKey (b : Body) : result (option jsstring) :=
  match b with
  | NotJson => Ok None                         (* the catch *)
  | JsonNull => Throw TypeError                (* null has no members *)
  | JsonValue None | JsonValue (Some JNull) => Ok None
                                               (* [?.] stops at both *)
  | JsonValue (Some (JString s)) => Ok (Some (trim s))
  | JsonValue (Some JOther) => Throw TypeError (* [trim] is no function *)
  end.

(** POST /api/auth/login.  [validate] stands for [validatePoeApiKey],
    [now] for [Date.now()], [iv] for the random nonce. *)
Definition login (validate : jsstring -> PoeValidationResult)
    (env : Env) (req : Request) (now : Z) (iv : bytes) (st : ServerState)
  : Response * ServerState :=
  let ip := client_ip req in
  let '(allowed, attempts) := checkRateLimit ip now (loginAttempts st) in
  let st := mkState attempts (sandbox_exec st) in
  if negb allowed then
    (Json 429 (ErrorJson (lit "Too many login attempts. Try again in a minute.") None) None, st)
  else
    match read_apiKey (body req) with
    | Throw _ => (internal_error, st)
    | Ok None | Ok (Some []) =>
        (Json 400 (ErrorJson (lit "API key is required") None) None, st)
    | Ok (Some apiKey) =>
        let validation := validate apiKey in
        if negb (valid validation) then
          (Json 401 (ErrorJson
                       (default (lit "Invalid API key")
                          (or_else (v_error validation) None)) None) None, st)
        else
          match SESSION_SECRET env, ENCRYPTION_SECRET env with
          | Some ((_ :: _) as sessionSecret), Some ((_ :: _) as encryptionSecret) =>
              let userHash := hashApiKey apiKey in
              let keyLast4 := slice_last 4 apiKey in
              let sessionPayload :=
                mkPoeSessionUser userHash keyLast4
                                 (default [] (v_models validation)) now in
              match createSessionToken sessionPayload sessionSecret with
              | Throw _ => (internal_error, st)
              | Ok token =>
                  match encryptApiKey apiKey encryptionSecret iv with
                  | Throw _ => (internal_error, st)
                  | Ok encryptedKey =>
                      (Json 200 (LoginJson userHash keyLast4 (v_models validation))
                            (Some (buildSessionCookie token)),
                       mkState attempts
                         ((userHash, store_key_command encryptedKey)
                            :: sandbox_exec st))
                  end
              end
          | _, _ =>
              (Json 500 (ErrorJson (lit "Server configuration error") None) None, st)
          end
    end.

(** POST /api/auth/logout *)
Definition logout : Response := Json 200 OkJson (Some clearSessionCookie).

(** GET /api/auth/me *)
Definition me (env : Env) (req : Request) (now : Z) : Response :=
  match SESSION_SECRET env with
  | None | Some [] => Json 401 MeUnauthenticated None
  | Some sessionSecret =>
      match extractSessionToken (header_Cookie req) with
      | None | Some [] => Json 401 MeUnauthenticated None
      | Some token =>
          match verifySessionToken token sessionSecret now with
          | None => Json 401 MeUnauthenticated None
          | Some poeUser =>
              Json 200 (MeAuthenticated (userHash poeUser) (keyLast4 poeUser)
                                        (models poeUser)) None
          end
      end
  end.

End WithPlatform.
End AuthRoutes.
Export AuthRoutes.

(* ===================================================================== *)
(** ** src/index.ts *)
(* ===================================================================== *)

Module Gateway.
Section WithPlatform.
Context {P : Platform}.

Definition transformErrorMessage (message host : jsstring) : jsstring :=
  if includes (lit "gateway token missing") message
     || includes (lit "gateway token mismatch") message
  then lit "Invalid or missing token. Visit https://" ++ host
         ++ lit "?token={REPLACE_WITH_YOUR_TOKEN}"
  else if includes (lit "pairing required") message
  then lit "Pairing required. Visit https://" ++ host ++ lit "/_admin/"
  else message.

(** RFC 6455 7.4: codes 1005 and 1006 are reserved and must not be sent in
    a Close frame. *)
Definition safeCloseCode (code : Z) : Z :=
  if (code =? 1005)%Z || (code =? 1006)%Z then 1011%Z else code.

(** How the session middleware ends: with a response, or by handing the
    request on with the sandbox and user it resolved. *)
Inductive Outcome :=
| Respond (r : Response)
| Next (sandbox : jsstring) (poeUser : option PoeSessionUser).

Definition accepts_html (req : Request) : bool :=
  match header_Accept req with
  | Some a => includes (lit "text/html") a
  | None => false
  end.

(** The SPA shell, or the 500 the [catch] branch answers. *)
Definition serve_spa (env : Env) (req : Request) : Response :=
  match ASSETS_index env (req_url req) with
  | Some page => Asset page
  | None => Text 500 (lit "SPA not available. Run: make build")
  end.

Definition session_middleware (env : Env) (req : Request) (now : Z) : Outcome :=
  if bool_decide (DEV_MODE env = Some (lit "true")) then
    Next (lit "dev-user") None
  else
    match SESSION_SECRET env with
    | None | Some [] =>
        Respond (Json 500 (ErrorJson (lit "Server not configured (missing SESSION_SECRET)") None) None)
    | Some sessionSecret =>
        match extractSessionToken (header_Cookie req) with
        | None | Some [] =>
            if accepts_html req then Respond (serve_spa env req)
            else Respond (Json 401 (ErrorJson (lit "Authentication required")
                                              (Some (lit "POST /api/auth/login"))) None)
        | Some token =>
            match verifySessionToken token sessionSecret now with
            | None =>
                if accepts_html req then Respond (serve_spa env req)
                else Respond (Json 401 (ErrorJson (lit "Session expired or invalid") None) None)
            | Some poeUser => Next (userHash poeUser) (Some poeUser)
            end
        end
    end.

(** The two sockets of the relay. *)
Inductive Socket := serverWs | containerWs.

Inductive WsEvent :=
| CloseEvent (code : Z) (reason : jsstring)
| ErrorEvent.

(** A [close(code, reason)] call on a socket: the Close frame it sends. *)
Record CloseCall := mkClose {
  close_on : Socket;
  close_code : Z;
  close_reason : jsstring
}.

(** The 'close' and 'error' listeners of the relay; [host] is [url.host]. *)
Definition relay (host : jsstring) (from : Socket) (ev : WsEvent) : CloseCall :=
  match from, ev with
  | serverWs, CloseEvent code reason =>
      mkClose containerWs (safeCloseCode code) reason
  | containerWs, CloseEvent code reason =>
      let reason := transformErrorMessage reason host in
      let reason :=
        if (123 <? length reason)%nat then slice_to 120 reason ++ lit "..."
        else reason in
      mkClose serverWs (safeCloseCode code) reason
  | serverWs, ErrorEvent => mkClose containerWs 1011 (lit "Client error")
  | containerWs, ErrorEvent => mkClose serverWs 1011 (lit "Container error")
  end.

End WithPlatform.
End Gateway.
Export Gateway.

(* ===================================================================== *)
(** ** The shell's reading of the stored-key command *)
(* ===================================================================== *)

(** Token recognition of the POSIX shell for the characters the command of
    the login handler is made of: blanks separate words, a single quote
    opens a literal that runs to the next single quote, [&&] and [>] are
    operators.  Any other special character outside quotes is not read. *)
Module Shell.

Inductive token :=
| Word (w : jsstring)
| AndIf            (* && *)
| Great.           (* >  *)

Definition flush (cur : option jsstring) : list token :=
  match cur with
  | Some w => [Word w]
  | None => []
  end.

Definition push (cur : option jsstring) (c : N) : option jsstring :=
  Some (default [] cur ++ [c]).

Definition single_quote : N := 39.

Definition blank (c : N) : bool := (c =? 32) || (c =? 9).

(** Characters with a meaning of their own that this reading leaves out. *)
Definition special (c : N) : bool :=
  (c =? 10) || (c =? 34) || (c =? 35) || (c =? 36) || (c =? 40) || (c =? 41)
  || (c =? 42) || (c =? 59) || (c =? 60) || (c =? 63) || (c =? 91)
  || (c =? 92) || (c =? 96) || (c =? 124) || (c =? 126).

Fixpoint lex (s : jsstring) (cur : option jsstring) (quoted : bool)
  : option (list token) :=
  match s with
  | [] => if quoted then None else Some (flush cur)
  | c :: r =>
      if quoted then
        if c =? single_quote then lex r cur false
        else lex r (push cur c) true
      else if c =? single_quote then lex r (Some (default [] cur)) true
      else if blank c then app (flush cur) <$> lex r None false
      else if c =? 62 then app (flush cur ++ [Great]) <$> lex r None false
      else if c =? 38 then
        match r with
        | c' :: r' =>
            if c' =? 38 then app (flush cur ++ [AndIf]) <$> lex r' None false
            else None
        | [] => None
        end
      else if special c then None
      else lex r (push cur c) false
  end.

Definition words (command : jsstring) : option (list token) :=
  lex command None false.

End Shell.

(** The words the shell reads from the stored-key command when the quoted
    text is taken literally. *)
Definition stored_key_tokens (blob : jsstring) : list Shell.token :=
  [Shell.Word (lit "mkdir"); Shell.Word (lit "-p");
   Shell.Word (lit "/tmp/poeclaw"); Shell.AndIf; Shell.Word (lit "echo");
   Shell.Word blob; Shell.Great; Shell.Word (lit "/tmp/poeclaw/encrypted-key")].

(* ===================================================================== *)
(** ** src/auth/poe.ts *)
(* ===================================================================== *)

Module Poe.

(** What a [catch (err)] receives: an [Error] with its message, or some
    other value. *)
Inductive Thrown :=
| AnError (message : jsstring)
| NotAnError.

(** [await response.json()] at the type the source asserts for it,
    [{ data?: Array<{ id: string }> }]: the call throws, or gives the ids
    of the [data] member, if there is one. *)
Inductive JsonOutcome :=
| JsonThrows (e : Thrown)
| JsonData (data : option (list jsstring)).

Record FetchResponse := mkFetchResponse {
  resp_ok : bool;
  resp_status : N;
  resp_statusText : jsstring;
  resp_json : JsonOutcome
}.

Inductive FetchOutcome :=
| FetchThrows (e : Thrown)
| FetchReturns (response : FetchResponse).

(** A call of [fetch]: the URL and the Authorization header sent. *)
Record FetchCall := mkFetchCall {
  call_url : jsstring;
  call_Authorization : jsstring
}.

Definition POE_MODELS_URL : jsstring := lit "https://api.poe.com/v1/models".

(** The text of a non-negative integer in a template literal. *)
Definition Number_toString (n : N) : jsstring := Reference.show_N n.

Definition key_is_empty : jsstring := lit "API key is empty".

(** The message holds an em dash and two double quotes. *)
Definition invalid_key_format : jsstring :=
  lit "Invalid key format " ++ 0x2014 :: lit " Poe keys start with "
    ++ 34 :: lit "pb-" ++ [34].

Definition failed_to_reach (e : Thrown) : jsstring :=
  lit "Failed to reach Poe API: "
    ++ match e with
       | AnError message => message
       | NotAnError => lit "Unknown error"
       end.

Definition invalid (error : jsstring) : PoeValidationResult :=
  mkValidation false None (Some error).

(** [validatePoeApiKey]: its answer and the calls of [fetch] it made. *)
Definition validatePoeApiKey (fetch : FetchCall -> FetchOutcome)
    (apiKey : jsstring) : PoeValidationResult * list FetchCall :=
  if falsy (Some apiKey) || bool_decide (trim apiKey = []) then
    (invalid key_is_empty, [])
  else if negb (starts_with (lit "pb-") apiKey)
          || (length apiKey <? 10)%nat
          || existsb js_space apiKey then
    (invalid invalid_key_format, [])
  else
    let call := mkFetchCall POE_MODELS_URL (lit "Bearer " ++ apiKey) in
    (match fetch call with
     | FetchThrows e => invalid (failed_to_reach e)
     | FetchReturns response =>
         if negb (resp_ok response) then
           if (resp_status response =? 401) || (resp_status response =? 403)
           then invalid (lit "Invalid or unauthorized API key")
           else invalid (lit "Poe API returned "
                           ++ Number_toString (resp_status response)
                           ++ 32 :: resp_statusText response)
         else
           match resp_json response with
           | JsonThrows e => invalid (failed_to_reach e)
           | JsonData data =>
               mkValidation true
                 (Some (map (fun id => mkPoeModel id id) (default [] data)))
                 None
           end
     end, [call]).

End Poe.
Export Poe.

(* ===================================================================== *)
(** ** src/index.ts: the per-user environment of the proxy *)
(* ===================================================================== *)

Module Proxy.
Section WithPlatform.
Context {P : Platform}.

(** [await sandbox.exec(command)]: the call throws, or returns a result
    with its [stdout]. *)
Inductive ExecOutcome :=
| ExecThrows
| ExecReturns (stdout : option jsstring).

(** The command ends in two double quotes. *)
Definition read_key_command : jsstring :=
  lit "cat /tmp/poeclaw/encrypted-key 2>/dev/null || echo " ++ [34; 34].

(** The [envOverrides] the catch-all route builds for the container, and
    the commands it runs in the sandbox to build them. *)
Definition envOverrides (env : Env) (poeUser : option PoeSessionUser)
    (exec : jsstring -> ExecOutcome) : gmap jsstring jsstring * list jsstring :=
  match poeUser with
  | Some u =>
      if falsy (Some (userHash u)) then (∅, [])
      else
        let overrides :=
          <[lit "OPENCLAW_DEV_MODE" := lit "true"]>
            (<[lit "R2_USER_PREFIX" := userHash u]> ∅) in
        match ENCRYPTION_SECRET env with
        | Some ((_ :: _) as secret) =>
            (match exec read_key_command with
             | ExecThrows => overrides
             | ExecReturns stdout =>
                 match trim <$> stdout with
                 | None | Some [] => overrides
                 | Some encryptedKey =>
                     match decryptApiKey encryptedKey secret with
                     | Ok apiKey => <[lit "POE_API_KEY" := apiKey]> overrides
                     | Throw _ => overrides
                     end
                 end
             end, [read_key_command])
        | _ => (overrides, [])
        end
  | None => (∅, [])
  end.

End WithPlatform.
End Proxy.
Export Proxy.

(* ===================================================================== *)
(** * Definitions the statements use *)
(* ===================================================================== *)

(** ** Base64 digits *)

(** The sextets [btoa] writes and the padding after them. *)
Fixpoint sextets (bs : bytes) : list N :=
  match bs with
  | [] => []
  | [a] => [a / 4; (a mod 4) * 16]
  | [a; b] => [a / 4; (a mod 4) * 16 + b / 16; (b mod 16) * 4]
  | a :: b :: c :: r =>
      a / 4 :: (a mod 4) * 16 + b / 16 :: (b mod 16) * 4 + c / 64 :: c mod 64
        :: sextets r
  end.

Definition padding (bs : bytes) : jsstring :=
  match (length bs mod 3)%nat with
  | 1%nat => [pad; pad]
  | 2%nat => [pad]
  | _ => []
  end.

Definition not_ws (c : N) : Prop := ascii_whitespace c = false.

(** The three digits that carry the last two octets [a], [b] of a
    signature. *)
Definition digit1 (a b : N) : N := a / 4.
Definition digit2 (a b : N) : N := (a mod 4) * 16 + b / 16.
Definition digit3 (a b : N) : N := (b mod 16) * 4.

(** Which texts, put in place of the last quantum, decode to the same two
    octets. *)
Inductive same_octets (a b : N) : jsstring -> Prop :=
| same_unpadded :
    same_octets a b [enc (digit1 a b); enc (digit2 a b); enc (digit3 a b)]
| same_padded v :
    v < 64 -> v / 4 = digit3 a b / 4 ->
    same_octets a b [enc (digit1 a b); enc (digit2 a b); enc v; pad]
| same_spaced w :
    ascii_whitespace w = true ->
    same_octets a b [enc (digit1 a b); enc (digit2 a b); enc (digit3 a b); w].

(** ** Strings *)

Definition ascii_only (s : jsstring) : Prop := Forall (fun c => c < 128) s.

(** A string of 16-bit code units in which every surrogate is paired. *)
Fixpoint well_formed (s : jsstring) : bool :=
  match s with
  | [] => true
  | c :: r =>
      if is_high_surrogate c then
        match r with
        | d :: r' => is_low_surrogate d && well_formed r'
        | [] => false
        end
      else negb (is_low_surrogate c) && (c <? 0x10000) && well_formed r
  end.

(** A Unicode scalar value. *)
Definition scalar_value (cp : N) : Prop :=
  cp < 0x110000 /\ ~ (0xD800 <= cp <= 0xDFFF).

(** ** The API-key codec *)

(** [decryptApiKey(encryptApiKey(p, k1), k2)] *)
Definition encrypt_then_decrypt `{P : Platform}
    (p k1 k2 : jsstring) (iv : bytes) : result jsstring :=
  rbind (encryptApiKey p k1 iv) (fun blob => decryptApiKey blob k2).

(** ** Session tokens *)

(** The two segments of the token [createSessionToken] issues. *)
Definition payloadB64_of `{P : Platform} (u : PoeSessionUser) : jsstring :=
  encode_bytes (JSON_stringify u).

Definition signature_of `{P : Platform} (u : PoeSessionUser) (secret : jsstring)
  : bytes :=
  hmac_sha256 (TextEncoder_encode secret) (TextEncoder_encode (payloadB64_of u)).

(** The payload and signature segments [verifySessionToken] reads. *)
Definition token_segments (token : jsstring) : option (jsstring * jsstring) :=
  match split_on dot token with
  | p :: s :: _ => Some (p, s)
  | _ => None
  end.

(** What [verifySessionToken] does with the two segments. *)
Definition verify_segments `{P : Platform}
    (payloadB64 sigB64 secret : jsstring) (now : Z) : option PoeSessionUser :=
  catch_null
    (if bool_decide (payloadB64 = []) || bool_decide (sigB64 = [])
     then Ok None
     else
       rbind (deriveHmacKey secret) (fun key =>
       rbind (atob sigB64) (fun sigStr =>
       let sig := Uint8Array_from sigStr in
       if hmac_verify key sig (TextEncoder_encode payloadB64) then
         rbind (atob payloadB64) (fun payloadStr =>
         rbind (of_option SyntaxError (JSON_parse payloadStr)) (fun payload =>
         if (now - createdAt payload >? SESSION_MAX_AGE_MS)%Z
         then Ok None
         else Ok (Some payload)))
       else Ok None))).

(** The signature segment of the token is a valid HMAC of its payload
    segment. *)
Definition signature_checks `{P : Platform} (token secret : jsstring) : bool :=
  match token_segments token with
  | Some (p, s) =>
      negb (bool_decide (p = []) || bool_decide (s = []))
      && match deriveHmacKey secret, atob s with
         | Ok key, Ok sigStr =>
             hmac_verify key (Uint8Array_from sigStr) (TextEncoder_encode p)
         | _, _ => false
         end
  | None => false
  end.

(** No forgery: a token whose payload segment is not the issued one does
    not carry a valid signature. *)
Definition no_forgery `{P : Platform} (issued tampered secret : jsstring) : Prop :=
  fst <$> token_segments tampered <> fst <$> token_segments issued ->
  signature_checks tampered secret = false.

(** Replacements, at position [j] of the final four characters, of the
    character [c] by [c'], that forgiving base64 decoding does not see:
    the final '=' replaced by '.' or by ASCII whitespace, and the last
    digit replaced by one with the same four leading bits. *)
Definition harmless_flip (j : nat) (c c' : N) : bool :=
  match j with
  | 3%nat => (c' =? dot) || ascii_whitespace c'
  | 2%nat =>
      match dec c, dec c' with
      | Some v, Some v' => v' / 4 =? v / 4
      | _, _ => false
      end
  | _ => false
  end.

(** ** The session gate *)

(** The request carries a session cookie whose token verifies, as user
    [u], under the server's secret. *)
Definition session_verified `{P : Platform}
    (env : Env) (req : Request) (now : Z) (u : PoeSessionUser) : Prop :=
  exists secret token,
    SESSION_SECRET env = Some secret
    /\ extractSessionToken (header_Cookie req) = Some token
    /\ verifySessionToken token secret now = Some u.

(** [env] with another value of DEV_MODE. *)
Definition with_DEV_MODE (d : option jsstring) (env : Env) : Env :=
  mkEnv (SESSION_SECRET env) (ENCRYPTION_SECRET env) d (ASSETS_index env).

Definition me_unauthenticated : Response := Json 401 MeUnauthenticated None.

Definition me_authenticated (u : PoeSessionUser) : Response :=
  Json 200 (MeAuthenticated (userHash u) (keyLast4 u) (models u)) None.

(** The two 401 bodies of the session middleware. *)
Definition authentication_required : Response :=
  Json 401 (ErrorJson (lit "Authentication required")
                      (Some (lit "POST /api/auth/login"))) None.

Definition session_invalid : Response :=
  Json 401 (ErrorJson (lit "Session expired or invalid") None) None.

(** ** The WebSocket relay *)

(** RFC 6455, section 7.4.1: the status codes that "MUST NOT be set as a
    status code in a Close control frame by an endpoint". *)
Definition rfc6455_unsendable (code : Z) : Prop :=
  code = 1005%Z \/ code = 1006%Z \/ code = 1015%Z.

Definition other_socket (s : Socket) : Socket :=
  match s with
  | serverWs => containerWs
  | containerWs => serverWs
  end.

(** ** Cookies *)

(** The specification's reading of the Cookie header, to compare
    [extractSessionToken] with: the header is cut at the semicolons, each
    piece is a [name=value] pair after its leading blanks, and the value of
    the first pair with exactly the given name is returned. *)
Module CookieSpec.

Fixpoint drop_blanks (s : jsstring) : jsstring :=
  match s with
  | [] => []
  | c :: r => if (c =? 32) || (c =? 9) then drop_blanks r else s
  end.

Fixpoint name_and_value (s : jsstring) : option (jsstring * jsstring) :=
  match s with
  | [] => None
  | c :: r =>
      if c =? 61 then Some ([], r)
      else '(n, v) ← name_and_value r; Some (c :: n, v)
  end.

Definition pairs (header : jsstring) : list (jsstring * jsstring) :=
  omap (fun piece => name_and_value (drop_blanks piece)) (split_on 59 header).

Definition cookie_named (name header : jsstring) : option jsstring :=
  snd <$> List.find (fun nv => bool_decide (fst nv = name)) (pairs header).

Definition session_cookie (header : jsstring) : option jsstring :=
  cookie_named (lit "poeclaw_session") header.

End CookieSpec.

(** ** The rate limiter *)

(** The answers of [checkRateLimit] to calls from one address at the given
    times, and the map they leave. *)
Fixpoint check_all (ip : jsstring) (times : list Z)
    (m : gmap jsstring Attempt) : list bool * gmap jsstring Attempt :=
  match times with
  | [] => ([], m)
  | t :: r =>
      let '(b, m1) := checkRateLimit ip t m in
      let '(bs, m2) := check_all ip r m1 in
      (b :: bs, m2)
  end.


(** One call of the login handler: what the Poe API answers at the time,
    the request, the clock and the nonce. *)
Record LoginCall := mkLoginCall {
  call_validate : jsstring -> PoeValidationResult;
  call_request : Request;
  call_now : Z;
  call_iv : bytes
}.

Definition login_call `{P : Platform} (env : Env) (c : LoginCall)
    (st : ServerState) : Response * ServerState :=
  login (call_validate c) env (call_request c) (call_now c) (call_iv c) st.

(** The answers of [login] to a sequence of calls, each made in the state
    the one before it left, and the state the last one leaves. *)
Fixpoint logins `{P : Platform} (env : Env) (calls : list LoginCall)
    (st : ServerState) : list Response * ServerState :=
  match calls with
  | [] => ([], st)
  | c :: r =>
      let '(answer, st1) := login_call env c st in
      let '(answers, st2) := logins env r st1 in
      (answer :: answers, st2)
  end.


(** ** Definitions of the further properties *)

(** A lower-case hexadecimal digit. *)
Definition lower_hex (c : N) : bool :=
  ((48 <=? c) && (c <=? 57)) || ((97 <=? c) && (c <=? 102)).

(** The shape [validatePoeApiKey] asks of a key before it calls the Poe
    API. *)
Definition key_format_ok (apiKey : jsstring) : bool :=
  starts_with (lit "pb-") apiKey && (10 <=? length apiKey)%nat
  && negb (existsb js_space apiKey).

(** [s.slice(0, -n)] *)
Definition slice_drop_last (n : nat) (s : jsstring) : jsstring :=
  take (length s - n) s.

(** The status of an answer the handlers build themselves. *)
Definition status_of (r : Response) : option Z :=
  match r with
  | Json status _ _ => Some status
  | Text status _ => Some status
  | Asset _ => None
  end.

Definition set_cookie_of (r : Response) : option jsstring :=
  match r with
  | Json _ _ c => c
  | _ => None
  end.

(** [req] with another Cookie header. *)
Definition with_Cookie (cookie : option jsstring) (req : Request) : Request :=
  mkRequest (req_url req) cookie (header_Accept req)
            (header_CF_Connecting_IP req) (header_X_Forwarded_For req)
            (body req).

(** The login handler with [validatePoeApiKey] as its validator. *)
Definition login_with_poe `{P : Platform} (fetch : FetchCall -> FetchOutcome)
    (env : Env) (req : Request) (now : Z) (iv : bytes) (st : ServerState)
  : Response * ServerState :=
  login (fun apiKey => fst (validatePoeApiKey fetch apiKey)) env req now iv st.

(** Every entry of the limiter's map counts between 1 and the limit. *)
Definition counts_bounded (m : gmap jsstring Attempt) : Prop :=
  forall ip e, m !! ip = Some e -> (1 <= count e <= MAX_ATTEMPTS)%Z.

(** The answers of [checkRateLimit] to a sequence of calls, each from an
    address at a time, and the map they leave. *)
Fixpoint check_calls (calls : list (jsstring * Z))
    (m : gmap jsstring Attempt) : list bool * gmap jsstring Attempt :=
  match calls with
  | [] => ([], m)
  | (ip, t) :: r =>
      let '(b, m1) := checkRateLimit ip t m in
      let '(bs, m2) := check_calls r m1 in
      (b :: bs, m2)
  end.

(** Of a sequence of calls and their answers, those of one address. *)
Fixpoint answers_to (ip : jsstring) (calls : list (jsstring * Z))
    (answers : list bool) : list bool :=
  match calls, answers with
  | (a, _) :: cs, b :: bs =>
      if bool_decide (a = ip) then b :: answers_to ip cs bs
      else answers_to ip cs bs
  | _, _ => []
  end.

Definition times_of (ip : jsstring) (calls : list (jsstring * Z)) : list Z :=
  omap (fun c => if bool_decide (fst c = ip) then Some (snd c) else None) calls.

(** ** Concrete inputs *)

Module Examples.
Import Reference.

Definition iv0 : bytes := [1; 2; 3; 4; 5; 6; 7; 8; 9; 10; 11; 12].

Definition user0 : PoeSessionUser :=
  mkPoeSessionUser (lit "abc123def456") (lit "5678")
                   [mkPoeModel (lit "GPT-5.2") (lit "GPT-5.2")] 1700000000000.

Definition secret0 : jsstring := lit "test-session-secret-32-chars-ok!".

Definition token0 :=
  Eval vm_compute in
    match createSessionToken (P := ref_platform) user0 secret0 with
    | Ok t => t
    | Throw _ => @nil N
    end.

Definition env0 : Env :=
  mkEnv (Some secret0) (Some (lit "test-encrypt-secret-32-chars-ok!")) None
        (fun _ => Some (lit "<!DOCTYPE html>")).

Definition api_request (cookie : option jsstring) : Request :=
  mkRequest (lit "https://poeclaw.example/api/status") cookie
            (Some (lit "application/json")) None None NotJson.

(** A login from 10.99.99.99 at time [t] with the key [apiKey], which the
    Poe API accepts or not as [accepted] says. *)
Definition login_attempt (accepted : bool) (apiKey : jsstring) (t : Z)
  : LoginCall :=
  mkLoginCall (fun _ => mkValidation accepted None None)
    (mkRequest (lit "https://poeclaw.example/api/auth/login") None
               (Some (lit "application/json")) (Some (lit "10.99.99.99")) None
               (JsonValue (Some (JString apiKey))))
    t iv0.

End Examples.

(** ** Further concrete inputs *)

Module MoreExamples.
Import Reference Examples.

(** A Poe API that answers every call with two models. *)
Definition fetch0 (call : FetchCall) : FetchOutcome :=
  FetchReturns
    (mkFetchResponse true 200 (lit "OK")
       (JsonData (Some [lit "Claude-Sonnet-4.5"; lit "GPT-5.2"]))).

Definition validate0 (apiKey : jsstring) : PoeValidationResult :=
  fst (validatePoeApiKey fetch0 apiKey).

Definition login_request0 : Request :=
  mkRequest (lit "https://poeclaw.example/api/auth/login") None
            (Some (lit "application/json")) (Some (lit "10.0.0.3")) None
            (JsonValue (Some (JString (lit " pb-valid-key-12345 ")))).

Definition state0 : ServerState := mkState ∅ [].

Definition now0 : Z := 1700000000000.

Definition login0 : Response :=
  Eval vm_compute in
    fst (login (P := ref_platform) validate0 env0 login_request0 now0 iv0 state0).

Definition uh0 : jsstring :=
  Eval vm_compute in
    match login0 with Json _ (LoginJson uh _ _) _ => uh | _ => [] end.

Definition k40 : jsstring :=
  Eval vm_compute in
    match login0 with Json _ (LoginJson _ k4 _) _ => k4 | _ => [] end.

Definition ms0 : option (list PoeModel) :=
  Eval vm_compute in
    match login0 with Json _ (LoginJson _ _ ms) _ => ms | _ => None end.

Definition cookie0 : jsstring :=
  Eval vm_compute in
    match login0 with Json _ _ (Some c) => c | _ => [] end.

Definition blob0 : jsstring :=
  Eval vm_compute in
    match encryptApiKey (P := ref_platform) (lit "pb-test-key-12345")
            (lit "test-encrypt-secret-32-chars-ok!") iv0 with
    | Ok b => b
    | Throw _ => []
    end.

End MoreExamples.

(** ** Proof automation *)

Ltac ncase :=
  repeat (match goal with
    | |- context [N.ltb ?a ?b] => destruct (N.ltb_spec a b)
    | |- context [N.leb ?a ?b] => destruct (N.leb_spec a b)
    | |- context [N.eqb ?a ?b] => destruct (N.eqb_spec a b)
    end; try lia);
  simpl; try lia; try reflexivity; try discriminate.

(** [lia] with quotients and remainders by constants. *)
Ltac dlia := zify; Z.to_euclidean_division_equations; lia.

(* ===================================================================== *)
(** * Facts *)
(* ===================================================================== *)

(** ** The reference platform meets the laws *)

Module ReferenceFacts.
Import Reference.

Lemma be_octets_length n v : length (be_octets n v) = n.
Proof.
  revert v. induction n as [|n IH]; intros v; simpl; [reflexivity|].
  rewrite length_app, IH. simpl. lia.
Qed.

Lemma be_octets_octets n v : octets (be_octets n v).
Proof.
  revert v. induction n as [|n IH]; intros v; simpl.
  - constructor.
  - apply Forall_app. split; [apply IH|].
    constructor; [|constructor]. apply N.mod_lt. discriminate.
Qed.

Lemma to_octets_octets bs : octets (to_octets bs).
Proof.
  induction bs as [|b bs IH]; simpl; constructor; [|exact IH].
  apply N.mod_lt. discriminate.
Qed.

Lemma to_octets_id bs : octets bs -> to_octets bs = bs.
Proof.
  induction 1 as [|b bs Hb _ IH]; simpl; [reflexivity|].
  rewrite IH, N.mod_small by exact Hb. reflexivity.
Qed.

Lemma ref_decrypt_app k iv p : ref_decrypt k iv (p ++ k) = Some p.
Proof.
  unfold ref_decrypt. rewrite length_app.
  replace (length p + length k - length k)%nat with (length p) by lia.
  rewrite drop_app_length, take_app_length.
  rewrite bool_decide_eq_true_2 by reflexivity.
  replace (length k <=? length p + length k)%nat with true; [reflexivity|].
  symmetry. apply Nat.leb_le. lia.
Qed.

Lemma ref_laws : PlatformLaws ref_platform.
Proof.
  split.
  - intros k m. apply be_octets_octets.
  - intros k m. apply be_octets_length.
  - intros k iv p _. apply to_octets_octets.
  - intros k iv p (_ & _ & Hk & _ & Hp).
    cbn [aes_gcm_decrypt aes_gcm_encrypt ref_platform].
    unfold ref_encrypt.
    rewrite to_octets_id by (apply Forall_app; split; assumption).
    apply ref_decrypt_app.
  - intros u. discriminate.
Qed.

End ReferenceFacts.

(* ===================================================================== *)
(** ** Base64 facts *)
(* ===================================================================== *)

Module Base64Facts.

Lemma enc_range v :
  (65 <= enc v <= 90) \/ (97 <= enc v <= 122) \/ (48 <= enc v <= 57)
  \/ enc v = 43 \/ enc v = 47.
Proof. unfold enc. ncase. Qed.

Lemma enc_inj v w : v < 64 -> w < 64 -> enc v = enc w -> v = w.
Proof. unfold enc. ncase. Qed.

Lemma dec_enc v : v < 64 -> dec (enc v) = Some v.
Proof.
  intros Hv. unfold dec.
  assert (H := eq_refl (enc v)). unfold enc at 2 in H. revert H.
  generalize (enc v). intros c. ncase; intros ->; ncase; f_equal; lia.
Qed.

Lemma enc_not_pad v : enc v <> pad.
Proof. unfold pad. destruct (enc_range v) as [|[|[|[|]]]]; lia. Qed.

Lemma enc_not_whitespace v : ascii_whitespace (enc v) = false.
Proof.
  unfold ascii_whitespace.
  destruct (enc_range v) as [|[|[|[|]]]]; ncase.
Qed.

Lemma enc_alphabet v : is_b64_alphabet (enc v) = true.
Proof.
  unfold is_b64_alphabet, dec.
  destruct (enc_range v) as [|[|[|[|]]]]; ncase.
Qed.

Lemma dec_lt c v : dec c = Some v -> v < 64.
Proof. unfold dec. ncase; intros [= <-]; lia. Qed.

Lemma enc_dec c v : dec c = Some v -> enc v = c.
Proof. unfold dec. ncase; intros [= <-]; unfold enc; ncase. Qed.

Lemma dec_not_whitespace c v : dec c = Some v -> ascii_whitespace c = false.
Proof. intros H. rewrite <- (enc_dec _ _ H). apply enc_not_whitespace. Qed.

Lemma dec_pad : dec pad = None.
Proof. reflexivity. Qed.

(** Induction three elements at a time. *)
Lemma list_ind3 {A} (Q : list A -> Prop) :
  Q [] -> (forall a, Q [a]) -> (forall a b, Q [a; b]) ->
  (forall a b c r, Q r -> Q (a :: b :: c :: r)) ->
  forall l, Q l.
Proof.
  intros H0 H1 H2 H3.
  fix IH 1.
  intros [|a [|b [|c r]]]; [exact H0 | apply H1 | apply H2 | apply H3, IH].
Qed.

Lemma padding_step a b c r : padding (a :: b :: c :: r) = padding r.
Proof.
  unfold padding. cbn [length].
  replace (S (S (S (length r)))) with (length r + 1 * 3)%nat by lia.
  rewrite Nat.Div0.mod_add. reflexivity.
Qed.

Lemma encode_bytes_sextets bs :
  encode_bytes bs = map enc (sextets bs) ++ padding bs.
Proof.
  induction bs as [|a|a b|a b c r IH] using list_ind3; try reflexivity.
  rewrite padding_step. cbn [encode_bytes sextets map]. rewrite IH. reflexivity.
Qed.

Lemma sextets_lt bs : octets bs -> Forall (fun v => v < 64) (sextets bs).
Proof.
  induction bs as [|a|a b|a b c r IH] using list_ind3; intros H.
  - constructor.
  - inversion_clear H. cbn. repeat constructor.
    + apply N.Div0.div_lt_upper_bound. lia.
    + pose proof (N.mod_lt a 4). lia.
  - inversion_clear H as [|? ? Ha H']. inversion_clear H' as [|? ? Hb _].
    cbn. repeat constructor.
    + apply N.Div0.div_lt_upper_bound. lia.
    + pose proof (N.mod_lt a 4).
      assert (b / 16 < 16) by (apply N.Div0.div_lt_upper_bound; lia). lia.
    + pose proof (N.mod_lt b 16). lia.
  - inversion_clear H as [|? ? Ha H']. inversion_clear H' as [|? ? Hb H''].
    inversion_clear H'' as [|? ? Hc Hr].
    cbn [sextets]. repeat constructor.
    + apply N.Div0.div_lt_upper_bound. lia.
    + pose proof (N.mod_lt a 4).
      assert (b / 16 < 16) by (apply N.Div0.div_lt_upper_bound; lia). lia.
    + pose proof (N.mod_lt b 16).
      assert (c / 64 < 4) by (apply N.Div0.div_lt_upper_bound; lia). lia.
    + apply N.mod_lt. discriminate.
    + apply IH, Hr.
Qed.

Lemma decode_sextets_sextets bs : octets bs -> decode_sextets (sextets bs) = bs.
Proof.
  induction bs as [|a|a b|a b c r IH] using list_ind3; intros H.
  - reflexivity.
  - inversion_clear H as [|? ? Ha _]. cbn.
    f_equal. rewrite (N.div_mod' a 4) at 3.
    replace (a mod 4 * 16 / 16) with (a mod 4) by (rewrite N.div_mul; lia). lia.
  - inversion_clear H as [|? ? Ha H']. inversion_clear H' as [|? ? Hb _]. cbn.
    assert (E1 : (a mod 4 * 16 + b / 16) / 16 = a mod 4).
    { rewrite N.add_comm, N.div_add by lia.
      rewrite (N.div_small (b / 16)); [lia|].
      apply N.Div0.div_lt_upper_bound. lia. }
    assert (E2 : (a mod 4 * 16 + b / 16) mod 16 = b / 16).
    { rewrite N.add_comm, N.Div0.mod_add. apply N.mod_small.
      apply N.Div0.div_lt_upper_bound. lia. }
    assert (E3 : b mod 16 * 4 / 4 = b mod 16) by (apply N.div_mul; lia).
    rewrite E1, E2, E3.
    f_equal; [|f_equal].
    + rewrite (N.div_mod' a 4) at 3. lia.
    + rewrite (N.div_mod' b 16) at 3. lia.
  - inversion_clear H as [|? ? Ha H']. inversion_clear H' as [|? ? Hb H''].
    inversion_clear H'' as [|? ? Hc Hr].
    cbn [sextets decode_sextets]. rewrite (IH Hr).
    assert (E1 : (a mod 4 * 16 + b / 16) / 16 = a mod 4).
    { rewrite N.add_comm, N.div_add by lia.
      rewrite (N.div_small (b / 16)); [lia|].
      apply N.Div0.div_lt_upper_bound. lia. }
    assert (E2 : (a mod 4 * 16 + b / 16) mod 16 = b / 16).
    { rewrite N.add_comm, N.Div0.mod_add. apply N.mod_small.
      apply N.Div0.div_lt_upper_bound. lia. }
    assert (E3 : (b mod 16 * 4 + c / 64) / 4 = b mod 16).
    { rewrite N.add_comm, N.div_add by lia.
      rewrite (N.div_small (c / 64)); [lia|].
      apply N.Div0.div_lt_upper_bound. lia. }
    assert (E4 : (b mod 16 * 4 + c / 64) mod 4 = c / 64).
    { rewrite N.add_comm, N.Div0.mod_add. apply N.mod_small.
      apply N.Div0.div_lt_upper_bound. lia. }
    rewrite E1, E2, E3, E4.
    f_equal; [|f_equal; [|f_equal]].
    + rewrite (N.div_mod' a 4) at 3. lia.
    + rewrite (N.div_mod' b 16) at 3. lia.
    + rewrite (N.div_mod' c 64) at 3. lia.
Qed.

Lemma filter_not_ws_id (l : jsstring) :
  Forall not_ws l ->
  List.filter (fun c => negb (ascii_whitespace c)) l = l.
Proof.
  induction 1 as [|c l Hc _ IH]; [reflexivity|].
  cbn [List.filter]. rewrite Hc. cbn [negb]. f_equal. exact IH.
Qed.

Lemma mapM_dec_not_ws (l : jsstring) sx : mapM dec l = Some sx -> Forall not_ws l.
Proof.
  intros H. apply mapM_Some in H.
  induction H as [|c v l sx Hc _ IH]; constructor; [|exact IH].
  exact (dec_not_whitespace _ _ Hc).
Qed.

Lemma mapM_dec_not_pad (l : jsstring) sx :
  mapM dec l = Some sx -> Forall (fun c => c <> pad) l.
Proof.
  intros H. apply mapM_Some in H.
  induction H as [|c v l sx Hc _ IH]; constructor; [|exact IH].
  intros ->. discriminate Hc.
Qed.

Lemma mapM_dec_app (l1 l2 : jsstring) sx :
  mapM dec l1 = Some sx ->
  mapM dec (l1 ++ l2) = (app sx) <$> mapM dec l2.
Proof.
  revert sx. induction l1 as [|c l1 IH]; intros sx H.
  - injection H as <-. cbn. destruct (mapM dec l2); reflexivity.
  - cbn in H. cbn [app]. cbn [mapM]. destruct (dec c) as [v|]; [|discriminate].
    cbn in H |- *. destruct (mapM dec l1) as [sx1|] eqn:E1; [|discriminate].
    injection H as <-. rewrite (IH sx1 eq_refl).
    destruct (mapM dec l2); reflexivity.
Qed.

Lemma mapM_dec_enc (sx : list N) :
  Forall (fun v => v < 64) sx -> mapM dec (map enc sx) = Some sx.
Proof.
  induction 1 as [|v sx Hv _ IH]; [reflexivity|].
  cbn. rewrite (dec_enc v Hv). cbn. rewrite IH. reflexivity.
Qed.

Lemma decode_sextets_app (sx l : list N) :
  (length sx mod 4 = 0)%nat ->
  decode_sextets (sx ++ l) = decode_sextets sx ++ decode_sextets l.
Proof.
  remember (length sx) as n eqn:Hn. revert sx Hn.
  induction n as [n IH] using lt_wf_ind. intros sx Hn Hm.
  destruct sx as [|a [|b [|c [|d r]]]]; cbn [length] in Hn; subst n;
    try (cbn in Hm; discriminate).
  - reflexivity.
  - cbn [app decode_sextets]. do 3 f_equal.
    apply (IH (length r)); [lia|reflexivity|].
    replace (S (S (S (S (length r))))) with (length r + 1 * 4)%nat in Hm by lia.
    rewrite Nat.Div0.mod_add in Hm. exact Hm.
Qed.

Lemma strip_pad_rev_app (E t : jsstring) :
  Forall (fun c => c <> pad) E ->
  strip_pad_rev (rev (E ++ t)) = strip_pad_rev (rev t) ++ rev E.
Proof.
  intros HE. rewrite rev_app_distr.
  assert (Hhd : forall r, rev E = r -> strip_pad_rev r = r
                          /\ match r with [] => True | x :: _ => x <> pad end).
  { intros r Hr. destruct r as [|x r]; [split; [reflexivity|exact I]|].
    assert (Hx : x <> pad).
    { rewrite Forall_forall in HE. apply HE.
      apply list_elem_of_In, in_rev. rewrite Hr. left. reflexivity. }
    split; [|exact Hx]. cbn. apply N.eqb_neq in Hx. rewrite Hx. reflexivity. }
  destruct (Hhd _ eq_refl) as [Hs Hx].
  destruct (rev t) as [|a [|b r]]; cbn [app].
  - exact Hs.
  - cbn [strip_pad_rev]. destruct (a =? pad); [|reflexivity].
    destruct (rev E) as [|x r]; [reflexivity|].
    apply N.eqb_neq in Hx. rewrite Hx. reflexivity.
  - cbn [strip_pad_rev app]. destruct (a =? pad); [|reflexivity].
    destruct (b =? pad); reflexivity.
Qed.

(** Decoding goes through a prefix of whole quanta. *)
Lemma forgiving_decode_app (E t : jsstring) sx :
  mapM dec E = Some sx -> (length E mod 4 = 0)%nat ->
  forgiving_decode (E ++ t) = (app (decode_sextets sx)) <$> forgiving_decode t.
Proof.
  intros HE HL. unfold forgiving_decode.
  rewrite List.filter_app, (filter_not_ws_id E) by (eapply mapM_dec_not_ws; eauto).
  set (t' := List.filter _ t).
  assert (Hlen : forall l, (length (E ++ l) mod 4 = length l mod 4)%nat).
  { intros l. rewrite length_app, Nat.Div0.add_mod, HL. cbn [Nat.add].
    apply Nat.Div0.mod_mod. }
  rewrite Hlen.
  rewrite strip_pad_rev_app by (eapply mapM_dec_not_pad; eauto).
  rewrite rev_app_distr, rev_involutive.
  set (t'' := if (length t' mod 4 =? 0)%nat then rev (strip_pad_rev (rev t')) else t').
  assert (Hd : (if (length t' mod 4 =? 0)%nat
                then E ++ rev (strip_pad_rev (rev t')) else E ++ t') = E ++ t'').
  { unfold t''. destruct (length t' mod 4 =? 0)%nat; reflexivity. }
  rewrite Hd, Hlen.
  destruct (length t'' mod 4 =? 1)%nat; [reflexivity|].
  rewrite (mapM_dec_app _ _ _ HE).
  destruct (mapM dec t'') as [l|]; [|reflexivity].
  cbn. f_equal. apply decode_sextets_app.
  apply length_mapM in HE. rewrite <- HE. exact HL.
Qed.

Lemma forgiving_decode_encode bs :
  octets bs -> forgiving_decode (encode_bytes bs) = Some bs.
Proof.
  induction bs as [|a|a b|a b c r IH] using list_ind3; intros H.
  - reflexivity.
  - pose proof (sextets_lt _ H) as Hs. pose proof (decode_sextets_sextets _ H) as Hd.
    cbn [sextets] in Hs, Hd. inversion_clear Hs as [|? ? H1 Hs'].
    inversion_clear Hs' as [|? ? H2 _].
    cbn [encode_bytes]. unfold forgiving_decode.
    rewrite filter_not_ws_id
      by (repeat constructor; apply enc_not_whitespace).
    cbn. rewrite (dec_enc _ H1), (dec_enc _ H2). cbn. f_equal. exact Hd.
  - pose proof (sextets_lt _ H) as Hs. pose proof (decode_sextets_sextets _ H) as Hd.
    cbn [sextets] in Hs, Hd. inversion_clear Hs as [|? ? H1 Hs'].
    inversion_clear Hs' as [|? ? H2 Hs'']. inversion_clear Hs'' as [|? ? H3 _].
    cbn [encode_bytes]. unfold forgiving_decode.
    rewrite filter_not_ws_id
      by (repeat constructor; apply enc_not_whitespace).
    cbn.
    pose proof (enc_not_pad (b mod 16 * 4)) as Hp. apply N.eqb_neq in Hp.
    rewrite Hp. cbn.
    rewrite (dec_enc _ H1), (dec_enc _ H2), (dec_enc _ H3). cbn. f_equal. exact Hd.
  - pose proof (sextets_lt _ H) as Hs. pose proof (decode_sextets_sextets _ H) as Hd.
    cbn [sextets] in Hs, Hd. inversion_clear Hs as [|? ? H1 Hs'].
    inversion_clear Hs' as [|? ? H2 Hs'']. inversion_clear Hs'' as [|? ? H3 Hs3].
    inversion_clear Hs3 as [|? ? H4 _].
    inversion_clear H as [|? ? _ H']. inversion_clear H' as [|? ? _ H''].
    inversion_clear H'' as [|? ? _ Hr].
    cbn [encode_bytes].
    change (?x1 :: ?x2 :: ?x3 :: ?x4 :: encode_bytes r)
      with ([x1; x2; x3; x4] ++ encode_bytes r).
    erewrite forgiving_decode_app; [| |reflexivity].
    2:{ cbn. rewrite (dec_enc _ H1), (dec_enc _ H2), (dec_enc _ H3), (dec_enc _ H4).
        reflexivity. }
    rewrite (IH Hr). cbn [fmap option_fmap option_map].
    cbn [decode_sextets app]. f_equal.
    cbn [decode_sextets] in Hd. rewrite (decode_sextets_sextets _ Hr) in Hd.
    exact Hd.
Qed.

Lemma encode_bytes_chars bs : forallb is_b64_char (encode_bytes bs) = true.
Proof.
  induction bs as [|a|a b|a b c r IH] using list_ind3; try reflexivity;
    cbn [encode_bytes forallb]; unfold is_b64_char; rewrite ?enc_alphabet;
    [reflexivity|reflexivity|exact IH].
Qed.

Lemma encode_bytes_nil bs : encode_bytes bs = [] -> bs = [].
Proof. destruct bs as [|a [|b [|c r]]]; [reflexivity|discriminate..]. Qed.

Lemma atob_btoa s t : btoa s = Ok t -> atob t = Ok s.
Proof.
  unfold btoa, atob. destruct (forallb _ s) eqn:E; [|discriminate].
  intros [= <-]. rewrite forgiving_decode_encode; [reflexivity|].
  apply Forall_forall. intros c Hc. rewrite forallb_forall in E.
  apply list_elem_of_In in Hc. specialize (E c Hc). apply N.leb_le in E. lia.
Qed.

End Base64Facts.


(* ===================================================================== *)
(** ** The encrypted key is shell-safe *)
(* ===================================================================== *)

Module StoredKey.
Import Base64Facts Shell.

Lemma b64_char_range c :
  is_b64_char c = true ->
  (65 <= c <= 90) \/ (97 <= c <= 122) \/ (48 <= c <= 57)
  \/ c = 43 \/ c = 47 \/ c = 61.
Proof. unfold is_b64_char, is_b64_alphabet, dec, pad. ncase. Qed.

Lemma b64_char_plain c :
  is_b64_char c = true ->
  c <> 39 /\ c <> 92 /\ c <> 10 /\ c <> 46 /\ js_space c = false.
Proof.
  intros H. apply b64_char_range in H.
  repeat split; try lia.
  unfold js_space. destruct H as [|[|[|[|[|]]]]]; ncase.
Qed.

Lemma btoa_chars s t : btoa s = Ok t -> forallb is_b64_char t = true.
Proof.
  unfold btoa. destruct (forallb _ s); [|discriminate].
  intros [= <-]. apply encode_bytes_chars.
Qed.

Lemma lex_quoted blob rest cur :
  Forall (fun c => c <> single_quote) blob ->
  lex (blob ++ rest) (Some cur) true = lex rest (Some (cur ++ blob)) true.
Proof.
  intros H. revert cur. induction H as [|c blob Hc _ IH]; intros cur.
  - rewrite app_nil_r. reflexivity.
  - cbn [app lex]. apply N.eqb_neq in Hc. rewrite Hc.
    unfold push. cbn [default]. rewrite IH, <- app_assoc. reflexivity.
Qed.

Lemma lex_command_prefix rest :
  lex (lit "mkdir -p /tmp/poeclaw && echo '" ++ rest) None false
  = app [Word (lit "mkdir"); Word (lit "-p"); Word (lit "/tmp/poeclaw");
         AndIf; Word (lit "echo")] <$> lex rest (Some []) true.
Proof.
  set (o := lex rest (Some []) true).
  transitivity
    (app [Word (lit "mkdir")] <$> (app [Word (lit "-p")] <$>
       (app [Word (lit "/tmp/poeclaw")] <$> (app [AndIf] <$> (app [] <$>
          (app [Word (lit "echo")] <$> o)))))).
  - subst o. vm_compute. reflexivity.
  - destruct o; reflexivity.
Qed.

Lemma lex_command_suffix cur :
  lex (lit "' > /tmp/poeclaw/encrypted-key") (Some cur) true
  = Some [Word cur; Great; Word (lit "/tmp/poeclaw/encrypted-key")].
Proof. vm_compute. reflexivity. Qed.

Lemma words_store_key_command blob :
  Forall (fun c => c <> single_quote) blob ->
  words (store_key_command blob) = Some (stored_key_tokens blob).
Proof.
  intros H. unfold words, store_key_command.
  rewrite lex_command_prefix, (lex_quoted blob _ [] H), lex_command_suffix.
  reflexivity.
Qed.

Section WithPlatform.
Context {P : Platform}.

Lemma encryptApiKey_chars apiKey secret iv blob :
  encryptApiKey apiKey secret iv = Ok blob -> forallb is_b64_char blob = true.
Proof.
  unfold encryptApiKey. destruct (importKey_aes _); [|discriminate].
  cbn [rbind]. apply btoa_chars.
Qed.

(** The only command [login] runs is the stored-key command of a blob that
    [encryptApiKey] returned. *)
Lemma login_stores_encrypted_key validate env req now iv st :
  let st' := snd (login validate env req now iv st) in
  sandbox_exec st' = sandbox_exec st \/
  exists id apiKey secret blob,
    encryptApiKey apiKey secret iv = Ok blob /\
    sandbox_exec st' = (id, store_key_command blob) :: sandbox_exec st.
Proof.
  unfold login. destruct (checkRateLimit _ _ _) as [allowed attempts].
  destruct allowed; cbn [negb]; [|left; reflexivity].
  destruct (read_apiKey (body req)) as [[[|c apiKey]|]|];
    try (left; reflexivity).
  destruct (valid _); cbn [negb]; [|left; reflexivity].
  destruct (SESSION_SECRET env) as [[|s1 ss]|]; try (left; reflexivity).
  destruct (ENCRYPTION_SECRET env) as [[|e1 es]|]; try (left; reflexivity).
  destruct (createSessionToken _ _); [|left; reflexivity].
  destruct (encryptApiKey _ _ _) as [blob|] eqn:E; [|left; reflexivity].
  right. cbn [snd sandbox_exec]. eauto 10.
Qed.

(** C10: every string [encryptApiKey] returns is made of base64 characters
    only (letters, digits, '+', '/', '='), so it holds no single quote, no
    backslash and no newline, and the shell reads the command
    [mkdir -p /tmp/poeclaw && echo '<blob>' > /tmp/poeclaw/encrypted-key]
    as [echo] applied to exactly the blob, redirected to the key file. *)
Theorem encrypted_key_is_shell_safe apiKey secret iv blob :
  encryptApiKey apiKey secret iv = Ok blob ->
  forallb is_b64_char blob = true /\
  Forall (fun c => c <> 39 /\ c <> 92 /\ c <> 10) blob /\
  Shell.words (store_key_command blob) = Some (stored_key_tokens blob).
Proof.
  intros H. apply encryptApiKey_chars in H.
  assert (Hplain : Forall (fun c => c <> 39 /\ c <> 92 /\ c <> 10) blob).
  { apply Forall_forall. intros c Hc. rewrite forallb_forall in H.
    apply list_elem_of_In in Hc. destruct (b64_char_plain c (H c Hc)) as (?&?&?&_).
    auto. }
  split; [exact H|]. split; [exact Hplain|].
  apply words_store_key_command.
  eapply Forall_impl; [exact Hplain|]. intros c (Hc & _). exact Hc.
Qed.

End WithPlatform.

Lemma encrypted_key_is_shell_safe_witness :
  exists blob,
    encryptApiKey (P := Reference.ref_platform)
                  (lit "pb-test-key-12345") (lit "test-encrypt-secret")
                  (repeat 7 12) = Ok blob /\
    forallb is_b64_char blob = true /\
    Forall (fun c => c <> 39 /\ c <> 92 /\ c <> 10) blob /\
    Shell.words (store_key_command blob) = Some (stored_key_tokens blob).
Proof.
  eexists. split; [vm_compute; reflexivity|].
  apply (encrypted_key_is_shell_safe (P := Reference.ref_platform)
           (lit "pb-test-key-12345") (lit "test-encrypt-secret") (repeat 7 12)).
  vm_compute. reflexivity.
Defined.

End StoredKey.

(* ===================================================================== *)
(** ** UTF-8 and string facts *)
(* ===================================================================== *)

Module StringFacts.
Import Base64Facts.

Lemma encode_scalar_octets cp : octets (encode_scalar cp).
Proof.
  unfold encode_scalar, octets.
  pose proof (N.mod_lt cp 64). pose proof (N.mod_lt (cp / 64) 32).
  pose proof (N.mod_lt (cp / 64) 64). pose proof (N.mod_lt (cp / 4096) 16).
  pose proof (N.mod_lt (cp / 4096) 64). pose proof (N.mod_lt (cp / 262144) 8).
  ncase; repeat constructor; lia.
Qed.

Lemma TextEncoder_encode_octets s : octets (TextEncoder_encode s).
Proof.
  unfold TextEncoder_encode. induction (scalars s) as [|cp l IH]; cbn.
  - constructor.
  - apply Forall_app. split; [apply encode_scalar_octets|exact IH].
Qed.

Lemma Uint8Array_from_id s : octets s -> Uint8Array_from s = s.
Proof.
  induction 1 as [|c s Hc _ IH]; cbn; [reflexivity|].
  rewrite N.mod_small by exact Hc. f_equal. exact IH.
Qed.

Lemma scalars_ascii c r : c < 128 -> scalars (c :: r) = c :: scalars r.
Proof.
  intros Hc. cbn [scalars]. unfold is_high_surrogate, is_low_surrogate. ncase.
Qed.

Lemma TextEncoder_encode_ascii s : ascii_only s -> TextEncoder_encode s = s.
Proof.
  unfold TextEncoder_encode.
  induction 1 as [|c s Hc _ IH]; [reflexivity|].
  rewrite scalars_ascii by exact Hc. cbn [flat_map]. rewrite IH.
  unfold encode_scalar. apply N.ltb_lt in Hc. rewrite Hc. reflexivity.
Qed.

Lemma decode_from_ascii s : ascii_only s -> decode_from d_init s = s.
Proof.
  induction 1 as [|c s Hc _ IH]; [reflexivity|].
  cbn [decode_from d_init d_needed]. unfold lead_byte.
  replace (c <=? 127) with true by (symmetry; apply N.leb_le; lia).
  cbn [app]. f_equal. exact IH.
Qed.

Lemma strip_bom_ascii s : ascii_only s -> strip_bom s = s.
Proof.
  intros H. destruct s as [|a [|b [|c r]]]; try reflexivity.
  inversion_clear H as [|? ? Ha _]. cbn [strip_bom].
  replace (a =? 239) with false by (symmetry; apply N.eqb_neq; lia).
  reflexivity.
Qed.

Lemma units_of_scalars_ascii s : ascii_only s -> flat_map units_of_scalar s = s.
Proof.
  induction 1 as [|c s Hc _ IH]; [reflexivity|].
  cbn [flat_map]. rewrite IH. unfold units_of_scalar.
  replace (c <? 65536) with true by (symmetry; apply N.ltb_lt; lia).
  reflexivity.
Qed.

(** ASCII text survives the UTF-8 round trip. *)
Lemma TextDecoder_TextEncoder_ascii s :
  ascii_only s -> TextDecoder_decode (TextEncoder_encode s) = s.
Proof.
  intros H. rewrite TextEncoder_encode_ascii by exact H.
  unfold TextDecoder_decode.
  rewrite strip_bom_ascii, decode_from_ascii, units_of_scalars_ascii by exact H.
  reflexivity.
Qed.

Lemma lead_byte_2 b :
  0xC2 <= b <= 0xDF -> lead_byte b = ([], DState (b mod 32) 1 0x80 0xBF).
Proof. intros H. unfold lead_byte. ncase. Qed.

Lemma lead_byte_3 b :
  0xE0 <= b <= 0xEF ->
  lead_byte b = ([], DState (b mod 16) 2 (if b =? 0xE0 then 0xA0 else 0x80)
                                         (if b =? 0xED then 0x9F else 0xBF)).
Proof.
  intros H. unfold lead_byte.
  replace (b <=? 127) with false by (symmetry; apply N.leb_gt; lia).
  replace (b <=? 223) with false by (symmetry; apply N.leb_gt; lia).
  replace (224 <=? b) with true by (symmetry; apply N.leb_le; lia).
  replace (b <=? 239) with true by (symmetry; apply N.leb_le; lia).
  rewrite andb_false_r. reflexivity.
Qed.

Lemma lead_byte_4 b :
  0xF0 <= b <= 0xF4 ->
  lead_byte b = ([], DState (b mod 8) 3 (if b =? 0xF0 then 0x90 else 0x80)
                                        (if b =? 0xF4 then 0x8F else 0xBF)).
Proof.
  intros H. unfold lead_byte.
  replace (b <=? 127) with false by (symmetry; apply N.leb_gt; lia).
  replace (b <=? 223) with false by (symmetry; apply N.leb_gt; lia).
  replace (b <=? 239) with false by (symmetry; apply N.leb_gt; lia).
  replace (240 <=? b) with true by (symmetry; apply N.leb_le; lia).
  replace (b <=? 244) with true by (symmetry; apply N.leb_le; lia).
  rewrite !andb_false_r. reflexivity.
Qed.

Lemma decode_from_lead b r :
  decode_from d_init (b :: r)
  = fst (lead_byte b) ++ decode_from (snd (lead_byte b)) r.
Proof. cbn [decode_from d_init d_needed]. destruct (lead_byte b). reflexivity. Qed.

Lemma decode_from_last cp lo hi b r :
  lo <= b <= hi ->
  decode_from (DState cp 1 lo hi) (b :: r)
  = (cp * 64 + b mod 64) :: decode_from d_init r.
Proof.
  intros H. cbn [decode_from d_needed d_lower d_upper d_cp].
  replace (lo <=? b) with true by (symmetry; apply N.leb_le; lia).
  replace (b <=? hi) with true by (symmetry; apply N.leb_le; lia).
  reflexivity.
Qed.

Lemma decode_from_more cp n lo hi b r :
  lo <= b <= hi ->
  decode_from (DState cp (S (S n)) lo hi) (b :: r)
  = decode_from (DState (cp * 64 + b mod 64) (S n) 0x80 0xBF) r.
Proof.
  intros H. cbn [decode_from d_needed d_lower d_upper d_cp].
  replace (lo <=? b) with true by (symmetry; apply N.leb_le; lia).
  replace (b <=? hi) with true by (symmetry; apply N.leb_le; lia).
  reflexivity.
Qed.

(** The decoder reads back the encoding of a scalar value. *)
Lemma decode_encode_scalar cp rest :
  scalar_value cp ->
  decode_from d_init (encode_scalar cp ++ rest) = cp :: decode_from d_init rest.
Proof.
  intros [Hmax Hsur]. unfold encode_scalar.
  destruct (N.ltb_spec cp 0x80) as [H1|H1].
  { cbn [app]. rewrite decode_from_lead. unfold lead_byte.
    replace (cp <=? 127) with true by (symmetry; apply N.leb_le; lia).
    reflexivity. }
  destruct (N.ltb_spec cp 0x800) as [H2|H2].
  { cbn [app]. rewrite decode_from_lead, lead_byte_2 by dlia.
    cbn [fst snd app]. rewrite decode_from_last by dlia.
    f_equal. dlia. }
  destruct (N.ltb_spec cp 0x10000) as [H3|H3].
  { cbn [app]. rewrite decode_from_lead, lead_byte_3 by dlia.
    cbn [fst snd app].
    rewrite decode_from_more
      by (destruct (N.eqb_spec (224 + (cp / 4096) mod 16) 224);
          destruct (N.eqb_spec (224 + (cp / 4096) mod 16) 237); dlia).
    rewrite decode_from_last by dlia.
    f_equal. dlia. }
  cbn [app]. rewrite decode_from_lead, lead_byte_4 by dlia.
  cbn [fst snd app].
  rewrite decode_from_more
    by (destruct (N.eqb_spec (240 + (cp / 262144) mod 8) 240);
        destruct (N.eqb_spec (240 + (cp / 262144) mod 8) 244); dlia).
  rewrite decode_from_more by dlia.
  rewrite decode_from_last by dlia.
  f_equal. dlia.
Qed.

Lemma decode_encode_scalars cps :
  Forall scalar_value cps ->
  decode_from d_init (flat_map encode_scalar cps) = cps.
Proof.
  induction 1 as [|cp cps Hcp _ IH]; [reflexivity|].
  cbn [flat_map]. rewrite decode_encode_scalar by exact Hcp. f_equal. exact IH.
Qed.

Lemma surrogate_pair_scalar c d :
  is_high_surrogate c = true -> is_low_surrogate d = true ->
  scalar_value (0x10000 + (c - 0xD800) * 0x400 + (d - 0xDC00))
  /\ 0x10000 <= 0x10000 + (c - 0xD800) * 0x400 + (d - 0xDC00)
  /\ units_of_scalar (0x10000 + (c - 0xD800) * 0x400 + (d - 0xDC00)) = [c; d].
Proof.
  unfold is_high_surrogate, is_low_surrogate, scalar_value, units_of_scalar.
  intros Hc Hd. apply andb_true_iff in Hc, Hd.
  destruct Hc as [Hc1 Hc2], Hd as [Hd1 Hd2].
  apply N.leb_le in Hc1, Hc2, Hd1, Hd2.
  split; [lia|]. split; [lia|].
  replace (_ <? 65536) with false by (symmetry; apply N.ltb_ge; lia).
  f_equal; [|f_equal]; dlia.
Qed.

Lemma unit_scalar c :
  is_high_surrogate c = false -> is_low_surrogate c = false -> c < 0x10000 ->
  scalar_value c /\ units_of_scalar c = [c].
Proof.
  unfold is_high_surrogate, is_low_surrogate, scalar_value, units_of_scalar.
  intros Hh Hl Hc. split.
  - split; [lia|]. intros [H1 H2]. revert Hh Hl. ncase.
  - apply N.ltb_lt in Hc. rewrite Hc. reflexivity.
Qed.

(** The scalar values of a well-formed string are scalar values, and
    spell the string. *)
Lemma scalars_well_formed s :
  well_formed s = true ->
  Forall scalar_value (scalars s) /\ flat_map units_of_scalar (scalars s) = s.
Proof.
  assert (G : forall n s, length s = n -> well_formed s = true ->
    Forall scalar_value (scalars s) /\ flat_map units_of_scalar (scalars s) = s);
    [|exact (G _ s eq_refl)].
  clear s. induction n as [n IH] using lt_wf_ind. intros s Hn Hwf.
  destruct s as [|c r]; [split; [constructor|reflexivity]|].
  cbn [length] in Hn. cbn [well_formed scalars] in *.
  destruct (is_high_surrogate c) eqn:Hh.
  - destruct r as [|d r']; [discriminate|].
    apply andb_true_iff in Hwf. destruct Hwf as [Hl Hwf]. rewrite Hl.
    destruct (surrogate_pair_scalar c d Hh Hl) as (Hs & _ & Hu).
    destruct (IH (length r') ltac:(cbn in Hn; lia) r' eq_refl Hwf) as [IH1 IH2].
    split; [constructor; assumption|].
    cbn [flat_map]. rewrite Hu, IH2. reflexivity.
  - apply andb_true_iff in Hwf. destruct Hwf as [Hwf Hr].
    apply andb_true_iff in Hwf. destruct Hwf as [Hl Hc].
    apply negb_true_iff in Hl. apply N.ltb_lt in Hc. rewrite Hl.
    destruct (unit_scalar c Hh Hl Hc) as [Hs Hu].
    destruct (IH (length r) ltac:(lia) r eq_refl Hr) as [IH1 IH2].
    split; [constructor; assumption|].
    cbn [flat_map]. rewrite Hu, IH2. reflexivity.
Qed.

(** Only U+FEFF encodes to the octets of the byte order mark. *)
Lemma encode_scalar_bom cp rest a b c r :
  scalar_value cp -> cp <> 0xFEFF ->
  encode_scalar cp ++ rest = a :: b :: c :: r ->
  (a =? 0xEF) && (b =? 0xBB) && (c =? 0xBF) = false.
Proof.
  intros [Hmax Hsur] Hne. unfold encode_scalar.
  destruct (N.ltb_spec cp 0x80) as [H1|H1].
  { cbn [app]. intros [= <- _].
    replace (cp =? 239) with false by (symmetry; apply N.eqb_neq; lia).
    reflexivity. }
  destruct (N.ltb_spec cp 0x800) as [H2|H2].
  { cbn [app]. intros [= <- _].
    replace (_ =? 239) with false by (symmetry; apply N.eqb_neq; dlia).
    reflexivity. }
  destruct (N.ltb_spec cp 0x10000) as [H3|H3].
  { cbn [app]. intros [= <- <- <- _].
    apply not_true_is_false. intros H.
    apply andb_true_iff in H. destruct H as [H Hc].
    apply andb_true_iff in H. destruct H as [Ha Hb].
    apply N.eqb_eq in Ha, Hb, Hc. apply Hne. dlia. }
  cbn [app]. intros [= <- _].
  replace (_ =? 239) with false by (symmetry; apply N.eqb_neq; dlia).
  reflexivity.
Qed.

Lemma strip_bom_well_formed s :
  well_formed s = true -> head s <> Some 0xFEFF ->
  strip_bom (TextEncoder_encode s) = TextEncoder_encode s.
Proof.
  intros Hwf Hhd. unfold TextEncoder_encode.
  destruct s as [|c r]; [reflexivity|].
  assert (H : exists cp cps, scalars (c :: r) = cp :: cps
                             /\ scalar_value cp /\ cp <> 0xFEFF).
  { cbn [well_formed scalars] in *. destruct (is_high_surrogate c) eqn:Hh.
    - destruct r as [|d r']; [discriminate|].
      apply andb_true_iff in Hwf. destruct Hwf as [Hl _]. rewrite Hl.
      destruct (surrogate_pair_scalar c d Hh Hl) as (Hs & Hge & _).
      eexists _, _. split; [reflexivity|]. split; [exact Hs|lia].
    - apply andb_true_iff in Hwf. destruct Hwf as [Hwf _].
      apply andb_true_iff in Hwf. destruct Hwf as [Hl Hc].
      apply negb_true_iff in Hl. apply N.ltb_lt in Hc. rewrite Hl.
      destruct (unit_scalar c Hh Hl Hc) as [Hs _].
      eexists _, _. split; [reflexivity|]. split; [exact Hs|].
      intros ->. apply Hhd. reflexivity. }
  destruct H as (cp & cps & -> & Hs & Hne). cbn [flat_map].
  destruct (encode_scalar cp ++ flat_map encode_scalar cps)
    as [|a [|b [|c' r']]] eqn:E; try reflexivity.
  cbn [strip_bom]. rewrite (encode_scalar_bom _ _ _ _ _ _ Hs Hne E).
  reflexivity.
Qed.

(** A well-formed string that does not begin with U+FEFF survives the
    UTF-8 round trip. *)
Lemma TextDecoder_TextEncoder_well_formed s :
  well_formed s = true -> head s <> Some 0xFEFF ->
  TextDecoder_decode (TextEncoder_encode s) = s.
Proof.
  intros Hwf Hhd. unfold TextDecoder_decode.
  rewrite strip_bom_well_formed by assumption.
  destruct (scalars_well_formed s Hwf) as [Hs Hu].
  unfold TextEncoder_encode. rewrite decode_encode_scalars by exact Hs.
  exact Hu.
Qed.

Lemma ascii_only_well_formed s : ascii_only s -> well_formed s = true.
Proof.
  induction 1 as [|c s Hc _ IH]; [reflexivity|].
  cbn [well_formed]. rewrite IH.
  unfold is_high_surrogate, is_low_surrogate. ncase.
Qed.

Lemma encode_scalar_length cp :
  (1 <= length (encode_scalar cp))%nat /\
  (length (encode_scalar cp) = 1%nat -> cp < 128) /\
  (0x10000 <= cp -> length (encode_scalar cp) = 4%nat) /\
  (0x800 <= cp -> (3 <= length (encode_scalar cp))%nat).
Proof. unfold encode_scalar. ncase; cbn; repeat split; intros; lia. Qed.

(** Encoding never shortens, and keeps the length only of ASCII text. *)
Lemma TextEncoder_encode_length s :
  (length s <= length (TextEncoder_encode s))%nat /\
  (length (TextEncoder_encode s) = length s -> ascii_only s).
Proof.
  assert (G : forall n s, length s = n ->
    (length s <= length (TextEncoder_encode s))%nat /\
    (length (TextEncoder_encode s) = length s -> ascii_only s));
    [|exact (G _ s eq_refl)].
  clear s. induction n as [n IH] using lt_wf_ind. intros s Hn.
  destruct s as [|c r]; [split; [cbn; lia|constructor]|].
  cbn [length] in Hn. unfold TextEncoder_encode. cbn [scalars].
  assert (IHr : (length r <= length (TextEncoder_encode r))%nat /\
                (length (TextEncoder_encode r) = length r -> ascii_only r))
    by (apply (IH (length r)); [lia|reflexivity]).
  destruct (is_high_surrogate c) eqn:Hh.
  - destruct r as [|d r'].
    + cbn. split; [lia|]. intros [=].
    + destruct (is_low_surrogate d) eqn:Hl.
      * cbn [flat_map]. rewrite length_app.
        set (cp := 65536 + (c - 55296) * 1024 + (d - 56320)).
        destruct (encode_scalar_length cp) as (_ & _ & H4 & _).
        rewrite H4 by (unfold cp; lia).
        assert (IHr' : (length r' <= length (TextEncoder_encode r'))%nat)
          by (apply (IH (length r')); [cbn in Hn; lia|reflexivity]).
        unfold TextEncoder_encode in IHr'. cbn [length] in *.
        split; [lia|]. intros ?. lia.
      * cbn [flat_map]. rewrite length_app.
        destruct (encode_scalar_length 65533) as (_ & _ & _ & H3).
        specialize (H3 ltac:(lia)).
        destruct IHr as [IHr _]. unfold TextEncoder_encode in IHr.
        cbn [length] in *. split; [lia|]. intros ?. lia.
  - destruct (is_low_surrogate c) eqn:Hl.
    + cbn [flat_map]. rewrite length_app.
      destruct (encode_scalar_length 65533) as (_ & _ & _ & H3).
      specialize (H3 ltac:(lia)).
      destruct IHr as [IHr _]. unfold TextEncoder_encode in IHr.
      cbn [length] in *. split; [lia|]. intros ?. lia.
    + cbn [flat_map]. rewrite length_app.
      destruct (encode_scalar_length c) as (H1 & Hone & _ & _).
      destruct IHr as [IHr IHeq]. unfold TextEncoder_encode in IHr, IHeq.
      cbn [length] in *. split; [lia|]. intros Heq.
      constructor; [apply Hone; lia|apply IHeq; lia].
Qed.

Lemma padEnd_slice_length k : length (slice_to 32 (padEnd 32 48 k)) = 32%nat.
Proof.
  unfold slice_to, padEnd. rewrite length_take, length_app, repeat_length. lia.
Qed.

Lemma split_on_none sep (s : jsstring) :
  Forall (fun c => c <> sep) s -> split_on sep s = [s].
Proof.
  induction 1 as [|c s Hc _ IH]; [reflexivity|].
  cbn [split_on]. apply N.eqb_neq in Hc. rewrite Hc, IH. reflexivity.
Qed.

Lemma split_on_app sep (a b : jsstring) :
  Forall (fun c => c <> sep) a ->
  split_on sep (a ++ sep :: b) = a :: split_on sep b.
Proof.
  induction 1 as [|c a Hc _ IH].
  - cbn [app split_on]. rewrite N.eqb_refl. reflexivity.
  - cbn [app split_on]. apply N.eqb_neq in Hc. rewrite Hc, IH. reflexivity.
Qed.

Lemma b64_chars_no_dot s :
  forallb is_b64_char s = true -> Forall (fun c => c <> 46) s.
Proof.
  intros H. apply Forall_forall. intros c Hc. rewrite forallb_forall in H.
  apply list_elem_of_In in Hc.
  destruct (StoredKey.b64_char_plain c (H c Hc)) as (_&_&_&?&_). assumption.
Qed.

End StringFacts.

(* ===================================================================== *)
(** ** The API-key codec: encryptApiKey and decryptApiKey *)
(* ===================================================================== *)

Module CodecFacts.
Import Base64Facts StringFacts.

Section WithPlatform.
Context {P : Platform} {L : PlatformLaws P}.

Lemma aesKeyData_octets k : octets (aesKeyData k).
Proof. apply TextEncoder_encode_octets. Qed.

Lemma importKey_aes_32 raw : length raw = 32%nat -> importKey_aes raw = Ok raw.
Proof. intros H. unfold importKey_aes. rewrite H. reflexivity. Qed.

Lemma importKey_aes_Ok raw key :
  importKey_aes raw = Ok key ->
  key = raw /\ (length raw = 16 \/ length raw = 24 \/ length raw = 32)%nat.
Proof.
  unfold importKey_aes.
  destruct (length raw =? 16)%nat eqn:E1; [apply Nat.eqb_eq in E1|];
  [|destruct (length raw =? 24)%nat eqn:E2; [apply Nat.eqb_eq in E2|];
    [|destruct (length raw =? 32)%nat eqn:E3; [apply Nat.eqb_eq in E3|]]];
  cbn; intros [=]; subst; split; auto.
Qed.

Lemma btoa_octets bs : octets bs -> btoa bs = Ok (encode_bytes bs).
Proof.
  intros H. unfold btoa.
  replace (forallb _ bs) with true; [reflexivity|].
  symmetry. apply forallb_forall. intros c Hc.
  unfold octets in H. rewrite Forall_forall in H. apply list_elem_of_In in Hc.
  specialize (H c Hc). apply N.leb_le. lia.
Qed.

Lemma atob_encode_bytes bs : octets bs -> atob (encode_bytes bs) = Ok bs.
Proof. intros H. apply atob_btoa, btoa_octets, H. Qed.

(** With 256 bits of key material the encrypted blob is the base64 text of
    the nonce followed by the sealed key. *)
Lemma aes_gcm_input_sources p k iv :
  length (aesKeyData k) = 32%nat -> length iv = 12%nat -> octets iv ->
  aes_gcm_input (aesKeyData k) iv (TextEncoder_encode p).
Proof.
  intros Hk Hlen Hiv. repeat split; try assumption.
  - apply aesKeyData_octets.
  - apply TextEncoder_encode_octets.
Qed.

Lemma encryptApiKey_Ok p k iv :
  length (aesKeyData k) = 32%nat -> length iv = 12%nat -> octets iv ->
  encryptApiKey p k iv
  = Ok (encode_bytes
          (iv ++ aes_gcm_encrypt (aesKeyData k) iv (TextEncoder_encode p))).
Proof.
  intros Hk Hlen Hiv. unfold encryptApiKey.
  rewrite importKey_aes_32 by exact Hk. cbn [rbind].
  apply btoa_octets, Forall_app. split; [exact Hiv|].
  apply aes_gcm_encrypt_octets, aes_gcm_input_sources; assumption.
Qed.

(** What [decryptApiKey] hands to AES-GCM when given such a blob. *)
Lemma decryptApiKey_blob k iv ct :
  length (aesKeyData k) = 32%nat ->
  length iv = 12%nat -> octets iv -> octets ct ->
  decryptApiKey (encode_bytes (iv ++ ct)) k
  = rbind (of_option OperationError (aes_gcm_decrypt (aesKeyData k) iv ct))
          (fun plaintext => Ok (TextDecoder_decode plaintext)).
Proof.
  intros Hk Hlen Hiv Hct. unfold decryptApiKey.
  rewrite importKey_aes_32 by exact Hk. cbn [rbind].
  assert (Ho : octets (iv ++ ct)) by (apply Forall_app; auto).
  rewrite atob_encode_bytes by exact Ho. cbn [rbind].
  rewrite Uint8Array_from_id by exact Ho.
  rewrite <- Hlen, take_app_length, drop_app_length. reflexivity.
Qed.

(** The round trip returns the UTF-8 transcoding of the plaintext. *)
Lemma encrypt_then_decrypt_same p k iv :
  length (aesKeyData k) = 32%nat -> length iv = 12%nat -> octets iv ->
  encrypt_then_decrypt p k k iv
  = Ok (TextDecoder_decode (TextEncoder_encode p)).
Proof.
  intros Hk Hlen Hiv. unfold encrypt_then_decrypt.
  rewrite encryptApiKey_Ok by assumption. cbn [rbind].
  rewrite decryptApiKey_blob; try assumption.
  - rewrite aes_gcm_decrypt_encrypt
      by (apply aes_gcm_input_sources; assumption).
    reflexivity.
  - apply aes_gcm_encrypt_octets, aes_gcm_input_sources; assumption.
Qed.

(** Secrets with the same key material are interchangeable. *)
Lemma encrypt_then_decrypt_key_data p k1 k2 iv :
  aesKeyData k1 = aesKeyData k2 ->
  encrypt_then_decrypt p k1 k2 iv = encrypt_then_decrypt p k2 k2 iv.
Proof.
  intros H. unfold encrypt_then_decrypt, encryptApiKey. rewrite H. reflexivity.
Qed.

(** An accepted key is 32 octets of ASCII: the padded secret itself. *)
Lemma importKey_aes_aesKeyData k key :
  importKey_aes (aesKeyData k) = Ok key ->
  key = slice_to 32 (padEnd 32 48 k) /\ length key = 32%nat.
Proof.
  intros H. apply importKey_aes_Ok in H. destruct H as [-> H].
  unfold aesKeyData in *.
  pose proof (padEnd_slice_length k) as H32.
  destruct (TextEncoder_encode_length (slice_to 32 (padEnd 32 48 k))) as [Hge Heq].
  assert (Hl : length (TextEncoder_encode (slice_to 32 (padEnd 32 48 k))) = 32%nat)
    by lia.
  split; [|exact Hl].
  apply TextEncoder_encode_ascii, Heq. lia.
Qed.

(** C3 (amended): with a 12-octet nonce, a secret whose padded and
    truncated form encodes to 32 octets, and a plaintext in which every
    surrogate is paired and which does not begin with U+FEFF, decrypting
    the encrypted key with the same secret returns the plaintext. *)
Theorem decrypt_encrypt_roundtrip p k iv :
  length iv = 12%nat -> octets iv ->
  length (aesKeyData k) = 32%nat ->
  well_formed p = true -> head p <> Some 0xFEFF ->
  encrypt_then_decrypt p k k iv = Ok p.
Proof.
  intros Hlen Hiv Hk Hwf Hhd.
  rewrite encrypt_then_decrypt_same by assumption.
  rewrite TextDecoder_TextEncoder_well_formed by assumption. reflexivity.
Qed.

(** ASCII secrets and ASCII keys meet the two conditions. *)
Lemma aesKeyData_ascii k : ascii_only k -> length (aesKeyData k) = 32%nat.
Proof.
  intros H. unfold aesKeyData.
  rewrite TextEncoder_encode_ascii; [apply padEnd_slice_length|].
  unfold slice_to, padEnd. apply Forall_take, Forall_app. split; [exact H|].
  apply Forall_forall. intros c Hc. apply list_elem_of_In, repeat_spec in Hc.
  subst c. reflexivity.
Qed.

Corollary decrypt_encrypt_roundtrip_ascii p k iv :
  length iv = 12%nat -> octets iv -> ascii_only k -> ascii_only p ->
  encrypt_then_decrypt p k k iv = Ok p.
Proof.
  intros Hlen Hiv Hk Hp.
  rewrite encrypt_then_decrypt_same;
    [|apply aesKeyData_ascii, Hk|exact Hlen|exact Hiv].
  rewrite TextDecoder_TextEncoder_ascii by exact Hp. reflexivity.
Qed.

(** Decryption under the second secret that ends in an error ends in one
    of two: the key import refuses a key, or AES-GCM refuses the sealed
    key. *)
Lemma encrypt_then_decrypt_keys p k1 k2 iv :
  length iv = 12%nat -> octets iv ->
  encrypt_then_decrypt p k1 k2 iv
  = if bool_decide (length (aesKeyData k1) = 32%nat
                    /\ length (aesKeyData k2) = 32%nat)
    then match aes_gcm_decrypt (aesKeyData k2) iv
                 (aes_gcm_encrypt (aesKeyData k1) iv (TextEncoder_encode p)) with
         | Some plaintext => Ok (TextDecoder_decode plaintext)
         | None => Throw OperationError
         end
    else Throw DataError.
Proof.
  intros Hlen Hiv. unfold encrypt_then_decrypt.
  destruct (importKey_aes (aesKeyData k1)) as [key1|e] eqn:E1.
  2:{ unfold encryptApiKey. rewrite E1. cbn [rbind].
      rewrite bool_decide_eq_false_2.
      - unfold importKey_aes in E1.
        destruct ((_ =? 16)%nat || _ || _); [discriminate|].
        injection E1 as <-. reflexivity.
      - intros [H1 _]. rewrite importKey_aes_32 in E1 by exact H1.
        discriminate. }
  destruct (importKey_aes_aesKeyData _ _ E1) as [Hk1 Hl1].
  apply importKey_aes_Ok in E1. destruct E1 as [-> _].
  rewrite encryptApiKey_Ok by assumption. cbn [rbind].
  destruct (importKey_aes (aesKeyData k2)) as [key2|e] eqn:E2.
  2:{ unfold decryptApiKey. rewrite E2. cbn [rbind].
      rewrite bool_decide_eq_false_2.
      - unfold importKey_aes in E2.
        destruct ((_ =? 16)%nat || _ || _); [discriminate|].
        injection E2 as <-. reflexivity.
      - intros [_ H2]. rewrite importKey_aes_32 in E2 by exact H2.
        discriminate. }
  destruct (importKey_aes_aesKeyData _ _ E2) as [Hk2 Hl2].
  apply importKey_aes_Ok in E2. destruct E2 as [-> _].
  rewrite decryptApiKey_blob; try assumption.
  2:{ apply aes_gcm_encrypt_octets, aes_gcm_input_sources; assumption. }
  rewrite bool_decide_eq_true_2 by (split; assumption).
  destruct (aes_gcm_decrypt _ _ _); reflexivity.
Qed.

(** C4 (amended): decrypting with a second secret what was encrypted with
    a first raises an error whenever AES-GCM, under the key of the second,
    refuses the key sealed under the key of the first.  Nothing is asked
    of AES-GCM at any other input. *)
Theorem decrypt_with_other_key_fails p k1 k2 iv :
  length iv = 12%nat -> octets iv ->
  aes_gcm_decrypt (aesKeyData k2) iv
    (aes_gcm_encrypt (aesKeyData k1) iv (TextEncoder_encode p)) = None ->
  exists e, encrypt_then_decrypt p k1 k2 iv = Throw e.
Proof.
  intros Hlen Hiv Hrefused.
  rewrite encrypt_then_decrypt_keys by assumption. rewrite Hrefused.
  destruct (bool_decide _); eauto.
Qed.

End WithPlatform.
End CodecFacts.

Module CodecExamples.
Import Base64Facts StringFacts CodecFacts Reference ReferenceFacts Examples.

Lemma octets_forallb bs : forallb (fun b => b <? 256) bs = true -> octets bs.
Proof.
  intros H. apply Forall_forall. intros c Hc. rewrite forallb_forall in H.
  apply list_elem_of_In in Hc. apply N.ltb_lt, H, Hc.
Qed.

Lemma ascii_only_forallb s : forallb (fun c => c <? 128) s = true -> ascii_only s.
Proof.
  intros H. apply Forall_forall. intros c Hc. rewrite forallb_forall in H.
  apply list_elem_of_In in Hc. apply N.ltb_lt, H, Hc.
Qed.

Lemma iv0_octets : octets iv0.
Proof. apply octets_forallb. reflexivity. Qed.

Lemma decrypt_encrypt_roundtrip_witness :
  encrypt_then_decrypt (P := ref_platform)
    (lit "pb-test-key-12345-secret") (lit "test-encrypt-secret-32-chars-ok!")
    (lit "test-encrypt-secret-32-chars-ok!") iv0
  = Ok (lit "pb-test-key-12345-secret").
Proof.
  apply (decrypt_encrypt_roundtrip (L := ref_laws)).
  - reflexivity.
  - exact iv0_octets.
  - vm_compute. reflexivity.
  - vm_compute. reflexivity.
  - discriminate.
Defined.

(** C3, as stated, fails: a plaintext holding a lone surrogate comes back
    as U+FFFD, on every platform. *)
Lemma decrypt_encrypt_roundtrip_counterexample :
  (forall (P : Platform), PlatformLaws P ->
     encrypt_then_decrypt [0xD800] (lit "test-encrypt-secret-32-chars-ok!")
       (lit "test-encrypt-secret-32-chars-ok!") iv0 = Ok [0xFFFD])
  /\ [0xFFFD] <> [0xD800]
  /\ PlatformLaws ref_platform.
Proof.
  split; [|split; [discriminate|exact ref_laws]].
  intros P L. rewrite encrypt_then_decrypt_same.
  - vm_compute. reflexivity.
  - vm_compute. reflexivity.
  - reflexivity.
  - exact iv0_octets.
Qed.

Lemma decrypt_with_other_key_fails_witness :
  exists e,
    encrypt_then_decrypt (P := ref_platform)
      (lit "pb-test-key") (lit "test-encrypt-secret-32-chars-ok!")
      (lit "wrong-secret-wrong-secret-12345") iv0 = Throw e.
Proof.
  apply (decrypt_with_other_key_fails (L := ref_laws)).
  - reflexivity.
  - exact iv0_octets.
  - vm_compute. reflexivity.
Defined.

(** A leading U+FEFF is read back as a byte order mark and dropped, on
    every platform. *)
Example leading_bom_dropped `{P : Platform} {L : PlatformLaws P} :
  encrypt_then_decrypt (0xFEFF :: lit "pb") (lit "test-encrypt-secret-32-chars-ok!")
    (lit "test-encrypt-secret-32-chars-ok!") iv0 = Ok (lit "pb").
Proof.
  rewrite encrypt_then_decrypt_same.
  - vm_compute. reflexivity.
  - vm_compute. reflexivity.
  - reflexivity.
  - exact iv0_octets.
Qed.

(** A surrogate pair survives: the plaintext need not be ASCII. *)
Example surrogate_pair_roundtrip `{P : Platform} {L : PlatformLaws P} :
  encrypt_then_decrypt [0xD83D; 0xDE00; 233] (lit "test-encrypt-secret-32-chars-ok!")
    (lit "test-encrypt-secret-32-chars-ok!") iv0 = Ok [0xD83D; 0xDE00; 233].
Proof.
  rewrite encrypt_then_decrypt_same.
  - vm_compute. reflexivity.
  - vm_compute. reflexivity.
  - reflexivity.
  - exact iv0_octets.
Qed.

(** A secret with a character beyond ASCII in its first 32 gives more than
    32 octets of key material, and the key import throws. *)
Example non_ascii_secret_throws `{P : Platform} :
  encryptApiKey (lit "pb-test-key") (233 :: lit "secret") iv0 = Throw DataError
  /\ length (aesKeyData (233 :: lit "secret")) = 33%nat.
Proof. split; vm_compute; reflexivity. Qed.

(** C4, as stated, fails: the secrets "a" and "a0" differ, yet each
    decrypts what the other encrypted, on every platform. *)
Lemma decrypt_with_other_key_counterexample :
  lit "a" <> lit "a0"
  /\ (forall (P : Platform), PlatformLaws P ->
        encrypt_then_decrypt (lit "pb-test-key") (lit "a") (lit "a0") iv0
        = Ok (lit "pb-test-key"))
  /\ PlatformLaws ref_platform.
Proof.
  split; [discriminate|]. split; [|exact ref_laws].
  intros P L.
  rewrite encrypt_then_decrypt_key_data by (vm_compute; reflexivity).
  apply decrypt_encrypt_roundtrip_ascii.
  - reflexivity.
  - exact iv0_octets.
  - apply ascii_only_forallb. reflexivity.
  - apply ascii_only_forallb. reflexivity.
Qed.

End CodecExamples.

(* ===================================================================== *)
(** ** Session tokens *)
(* ===================================================================== *)

Module TokenFacts.
Import Base64Facts StringFacts CodecFacts.

Section WithPlatform.
Context {P : Platform} {L : PlatformLaws P}.

Lemma deriveHmacKey_Ok secret key :
  deriveHmacKey secret = Ok key ->
  key = TextEncoder_encode secret /\ TextEncoder_encode secret <> [].
Proof.
  unfold deriveHmacKey, importKey_hmac.
  destruct (TextEncoder_encode secret); [discriminate|].
  intros [= <-]. split; [reflexivity|discriminate].
Qed.

Lemma deriveHmacKey_nonempty secret :
  TextEncoder_encode secret <> [] ->
  deriveHmacKey secret = Ok (TextEncoder_encode secret).
Proof.
  unfold deriveHmacKey, importKey_hmac.
  destruct (TextEncoder_encode secret); [congruence|reflexivity].
Qed.

Lemma btoa_Ok s t : btoa s = Ok t -> t = encode_bytes s /\ octets s.
Proof.
  unfold btoa. destruct (forallb _ s) eqn:E; [|discriminate].
  intros [= <-]. split; [reflexivity|].
  apply Forall_forall. intros c Hc. rewrite forallb_forall in E.
  apply list_elem_of_In in Hc. specialize (E c Hc). apply N.leb_le in E. lia.
Qed.

(** The shape of an issued token. *)
Lemma createSessionToken_Ok u secret tok :
  createSessionToken u secret = Ok tok ->
  tok = payloadB64_of u ++ dot :: encode_bytes (signature_of u secret)
  /\ octets (JSON_stringify u)
  /\ TextEncoder_encode secret <> [].
Proof.
  unfold createSessionToken.
  destruct (btoa (JSON_stringify u)) as [pB64|] eqn:E1; [|discriminate].
  cbn [rbind]. apply btoa_Ok in E1. destruct E1 as [-> Ho].
  destruct (deriveHmacKey secret) as [key|] eqn:E2; [|discriminate].
  cbn [rbind]. apply deriveHmacKey_Ok in E2. destruct E2 as [-> Hk].
  rewrite btoa_octets by apply hmac_sha256_octets. cbn [rbind].
  intros [= <-]. auto.
Qed.

Lemma payloadB64_of_nonempty u : payloadB64_of u <> [].
Proof.
  intros H. apply encode_bytes_nil in H.
  exact (JSON_stringify_nonempty u H).
Qed.

Lemma signature_of_length u secret : length (signature_of u secret) = 32%nat.
Proof. apply hmac_sha256_length. Qed.

Lemma encode_bytes_no_dot bs : Forall (fun c => c <> dot) (encode_bytes bs).
Proof. apply b64_chars_no_dot, encode_bytes_chars. Qed.

Lemma split_issued_token u secret :
  split_on dot (payloadB64_of u ++ dot :: encode_bytes (signature_of u secret))
  = [payloadB64_of u; encode_bytes (signature_of u secret)].
Proof.
  rewrite split_on_app by apply encode_bytes_no_dot.
  rewrite split_on_none by apply encode_bytes_no_dot. reflexivity.
Qed.

(** Verifying an issued token: the signature checks and what remains is
    the parse and the age test. *)
Lemma verify_issued_token u secret tok now :
  createSessionToken u secret = Ok tok ->
  verifySessionToken tok secret now
  = match JSON_parse (JSON_stringify u) with
    | Some payload =>
        if (now - createdAt payload >? SESSION_MAX_AGE_MS)%Z then None
        else Some payload
    | None => None
    end.
Proof.
  intros H. apply createSessionToken_Ok in H. destruct H as (-> & Ho & Hk).
  unfold verifySessionToken. rewrite split_issued_token.
  rewrite (bool_decide_eq_false_2 _ (payloadB64_of_nonempty u)).
  assert (Hs : encode_bytes (signature_of u secret) <> []).
  { intros E. apply encode_bytes_nil in E.
    pose proof (signature_of_length u secret) as Hl. rewrite E in Hl.
    discriminate. }
  rewrite (bool_decide_eq_false_2 _ Hs). cbn [orb].
  rewrite deriveHmacKey_nonempty by exact Hk. cbn [rbind].
  rewrite atob_encode_bytes by apply hmac_sha256_octets. cbn [rbind].
  rewrite Uint8Array_from_id by apply hmac_sha256_octets.
  unfold hmac_verify. rewrite bool_decide_eq_true_2 by reflexivity.
  unfold payloadB64_of at 1. rewrite atob_encode_bytes by exact Ho.
  cbn [rbind]. destruct (JSON_parse (JSON_stringify u)) as [payload|];
    cbn [of_option rbind catch_null]; [|reflexivity].
  destruct (now - createdAt payload >? SESSION_MAX_AGE_MS)%Z; reflexivity.
Qed.

(** C6: a correctly signed session token whose age exceeds the 24 hour
    limit by one second is rejected, one that is a second short of it is
    accepted; in general the token is rejected exactly when its age exceeds
    the limit. *)
Theorem session_expiry u secret tok now :
  createSessionToken u secret = Ok tok ->
  JSON_parse (JSON_stringify u) = Some u ->
  ((now - createdAt u = SESSION_MAX_AGE_MS + 1000)%Z ->
     verifySessionToken tok secret now = None)
  /\ ((now - createdAt u = SESSION_MAX_AGE_MS - 1000)%Z ->
        verifySessionToken tok secret now = Some u)
  /\ ((now - createdAt u > SESSION_MAX_AGE_MS)%Z ->
        verifySessionToken tok secret now = None)
  /\ ((now - createdAt u <= SESSION_MAX_AGE_MS)%Z ->
        verifySessionToken tok secret now = Some u).
Proof.
  intros H Hj. rewrite (verify_issued_token _ _ _ now H), Hj.
  unfold SESSION_MAX_AGE_MS.
  repeat split; intros Hage;
    destruct (now - createdAt u >? 24 * 60 * 60 * 1000)%Z eqn:E;
    try reflexivity; lia.
Qed.

End WithPlatform.
End TokenFacts.

Module TokenExamples.
Import Reference ReferenceFacts TokenFacts Examples.

Lemma token0_issued : createSessionToken (P := ref_platform) user0 secret0 = Ok token0.
Proof. vm_compute. reflexivity. Qed.

Lemma session_expiry_witness :
  verifySessionToken (P := ref_platform) token0 secret0
    (1700000000000 + SESSION_MAX_AGE_MS + 1000) = None
  /\ verifySessionToken (P := ref_platform) token0 secret0
       (1700000000000 + SESSION_MAX_AGE_MS - 1000) = Some user0.
Proof.
  assert (J : JSON_parse (JSON_stringify user0) = Some user0)
    by (vm_compute; reflexivity).
  split.
  - destruct (session_expiry (L := ref_laws) user0 secret0 token0
                (1700000000000 + SESSION_MAX_AGE_MS + 1000) token0_issued J)
      as (H & _).
    apply H. reflexivity.
  - destruct (session_expiry (L := ref_laws) user0 secret0 token0
                (1700000000000 + SESSION_MAX_AGE_MS - 1000) token0_issued J)
      as (_ & H & _).
    apply H. reflexivity.
Defined.

End TokenExamples.

(* ===================================================================== *)
(** ** GET /api/auth/me and the session middleware *)
(* ===================================================================== *)

Module GateFacts.
Section WithPlatform.
Context {P : Platform}.

Lemma verify_empty_secret token now : verifySessionToken token [] now = None.
Proof.
  unfold verifySessionToken.
  destruct (split_on dot token) as [|p [|s r]]; try reflexivity.
  destruct (bool_decide (p = []) || bool_decide (s = [])); reflexivity.
Qed.

Lemma session_verified_fun env req now u1 u2 :
  session_verified env req now u1 -> session_verified env req now u2 -> u1 = u2.
Proof.
  intros (s1 & t1 & E1 & F1 & V1) (s2 & t2 & E2 & F2 & V2). congruence.
Qed.

(** C2 (amended): behind the session gate, a session token that does not
    verify gets the same answer whatever the cause: the SPA shell for an
    HTML request, 401 "Session expired or invalid" otherwise.  A request
    with no session cookie gets the same SPA shell, and otherwise a 401 as
    well, with the body "Authentication required" and a hint. *)
Theorem session_errors_collapse (env : Env) (req : Request) (now : Z) secret :
  DEV_MODE env <> Some (lit "true") ->
  SESSION_SECRET env = Some secret -> secret <> [] ->
  (forall u, ~ session_verified env req now u) ->
  session_middleware env req now
  = Respond (if accepts_html req then serve_spa env req
             else match extractSessionToken (header_Cookie req) with
                  | None => authentication_required
                  | Some _ => session_invalid
                  end).
Proof.
  intros Hd Hs Hne Hv. unfold session_middleware.
  rewrite (bool_decide_eq_false_2 _ Hd), Hs.
  destruct secret as [|c secret]; [congruence|].
  destruct (extractSessionToken (header_Cookie req)) as [[|c' token]|] eqn:Et.
  - exfalso. unfold extractSessionToken in Et.
    destruct (header_Cookie req) as [[|h0 h]|]; try discriminate.
    revert Et. generalize (h0 :: h). intros l. induction l as [|x l IH]; [discriminate|].
    cbn [match_session_cookie].
    destruct (strip_prefix cookie_name_eq (x :: l)) as [rest|]; [|exact IH].
    destruct (not_semicolon_run rest); [exact IH|discriminate].
  - destruct (verifySessionToken (c' :: token) (c :: secret) now) as [u|] eqn:Ev.
    + exfalso. apply (Hv u). exists (c :: secret), (c' :: token). auto.
    + destruct (accepts_html req); reflexivity.
  - destruct (accepts_html req); reflexivity.
Qed.

End WithPlatform.
End GateFacts.

Module GateExamples.
Import Reference ReferenceFacts GateFacts Examples.

Lemma garbage_not_verified `{P : Platform} u :
  ~ session_verified env0 (api_request (Some (lit "poeclaw_session=garbage"))) 0 u.
Proof.
  intros (s & t & E1 & E2 & V). injection E1 as <-.
  vm_compute in E2. injection E2 as <-. vm_compute in V. discriminate.
Qed.

Lemma session_errors_collapse_witness :
  session_middleware (P := ref_platform) env0
    (api_request (Some (lit "poeclaw_session=garbage"))) 0
  = Respond session_invalid.
Proof.
  apply (session_errors_collapse (P := ref_platform) env0
           (api_request (Some (lit "poeclaw_session=garbage"))) 0 secret0).
  - discriminate.
  - reflexivity.
  - discriminate.
  - apply garbage_not_verified.
Defined.

(** C2, as stated, fails: an API request with no cookie and one with a
    cookie that does not verify get different 401 bodies, on every
    platform. *)
Lemma session_errors_collapse_counterexample :
  (forall P : Platform,
     session_middleware env0 (api_request None) 0
     = Respond authentication_required
     /\ session_middleware env0
          (api_request (Some (lit "poeclaw_session=garbage"))) 0
        = Respond session_invalid)
  /\ Respond authentication_required <> Respond session_invalid.
Proof.
  split; [|discriminate].
  intros P. split; vm_compute; reflexivity.
Qed.

(** DEV_MODE leaves /api/auth/me untouched: no cookie, no identity. *)
Example me_in_dev_mode `{P : Platform} :
  me (with_DEV_MODE (Some (lit "true")) env0) (api_request None) 0
  = me_unauthenticated.
Proof. reflexivity. Qed.

Example me_with_valid_cookie :
  me (P := ref_platform) env0
     (api_request (Some (lit "other=foo; poeclaw_session=" ++ token0)))
     1700000000500
  = me_authenticated user0.
Proof. vm_compute. reflexivity. Qed.

End GateExamples.

(* ===================================================================== *)
(** ** WebSocket close relay *)
(* ===================================================================== *)

Module RelayFacts.

(** C7 (amended): a close arriving on either socket with code 1005 or 1006
    is passed to the other socket with code 1011, any other code is passed
    on unchanged; neither 1005 nor 1006 is ever sent, and an error event
    closes the other socket with 1011. *)
Theorem relayed_close_code (host : jsstring) (from : Socket)
    (code : Z) (reason : jsstring) :
  let sent := relay host from (CloseEvent code reason) in
  close_on sent = other_socket from
  /\ close_code sent
     = (if bool_decide (code = 1005 \/ code = 1006)%Z then 1011 else code)%Z
  /\ close_code sent <> 1005%Z /\ close_code sent <> 1006%Z
  /\ close_code (relay host from ErrorEvent) = 1011%Z.
Proof.
  assert (S : (safeCloseCode code
               = if bool_decide (code = 1005 \/ code = 1006) then 1011 else code)%Z
              /\ safeCloseCode code <> 1005%Z /\ safeCloseCode code <> 1006%Z).
  { unfold safeCloseCode.
    destruct (Z.eqb_spec code 1005); [subst; cbn; repeat split; discriminate|].
    destruct (Z.eqb_spec code 1006); [subst; cbn; repeat split; discriminate|].
    cbn [orb]. rewrite bool_decide_eq_false_2 by tauto. auto. }
  destruct from; cbn; tauto.
Qed.

(** C7, as stated, fails: 1015 must not be sent in a Close frame either,
    and the relay passes it on, in both directions. *)
Lemma relayed_close_code_counterexample :
  rfc6455_unsendable 1015
  /\ relay (lit "poeclaw.example") serverWs (CloseEvent 1015 [])
     = mkClose containerWs 1015 []
  /\ relay (lit "poeclaw.example") containerWs (CloseEvent 1015 [])
     = mkClose serverWs 1015 [].
Proof. split; [right; right; reflexivity|split; reflexivity]. Qed.

End RelayFacts.

(* ===================================================================== *)
(** ** Cookie extraction *)
(* ===================================================================== *)

Module CookieFacts.

(** The two readings agree on the header of the unit tests. *)
Example extract_in_the_middle :
  extractSessionToken (Some (lit "other=foo; poeclaw_session=abc123; bar=baz"))
  = Some (lit "abc123")
  /\ CookieSpec.session_cookie (lit "other=foo; poeclaw_session=abc123; bar=baz")
     = Some (lit "abc123").
Proof. split; vm_compute; reflexivity. Qed.

Lemma strip_prefix_app p rest : strip_prefix p (p ++ rest) = Some rest.
Proof.
  induction p as [|c p IH]; [reflexivity|].
  cbn [app strip_prefix]. rewrite N.eqb_refl. exact IH.
Qed.

Lemma not_semicolon_run_app v post :
  Forall (fun c => c <> semicolon) v ->
  post = [] \/ (exists r, post = semicolon :: r) ->
  not_semicolon_run (v ++ post) = v.
Proof.
  intros Hv Hpost. induction Hv as [|c v Hc _ IH].
  - destruct Hpost as [->|(r & ->)]; [reflexivity|].
    cbn. reflexivity.
  - cbn [app not_semicolon_run]. apply N.eqb_neq in Hc. rewrite Hc, IH.
    reflexivity.
Qed.

(** Where the text [poeclaw_session=] first occurs in the header, followed
    by a value, the code returns that value, wherever it stands. *)
Lemma extract_leftmost_cookie pre v post :
  (forall k, (k < length pre)%nat ->
     strip_prefix cookie_name_eq (drop k (pre ++ cookie_name_eq ++ v ++ post))
     = None) ->
  v <> [] -> Forall (fun c => c <> semicolon) v ->
  post = [] \/ (exists r, post = semicolon :: r) ->
  extractSessionToken (Some (pre ++ cookie_name_eq ++ v ++ post)) = Some v.
Proof.
  intros Hpre Hv Hrun Hpost.
  assert (M : match_session_cookie (pre ++ cookie_name_eq ++ v ++ post) = Some v).
  { induction pre as [|c pre IH].
    - cbn [app]. change (cookie_name_eq ++ v ++ post)
        with (112 :: skipn 1 cookie_name_eq ++ v ++ post).
      cbn [match_session_cookie].
      change (112 :: skipn 1 cookie_name_eq ++ v ++ post)
        with (cookie_name_eq ++ v ++ post).
      rewrite strip_prefix_app, (not_semicolon_run_app v post Hrun Hpost).
      destruct v; [congruence|reflexivity].
    - cbn [app match_session_cookie].
      pose proof (Hpre 0%nat ltac:(cbn; lia)) as H0. cbn [drop app] in H0.
      rewrite H0. apply IH. intros k Hk.
      apply (Hpre (S k)). cbn. lia. }
  unfold extractSessionToken.
  destruct (pre ++ cookie_name_eq ++ v ++ post) eqn:E; [|exact M].
  destruct pre; discriminate E.
Qed.

(** C8: where the code departs from the claim.  A cookie whose name only
    ends in [poeclaw_session] is taken for the session cookie: with no
    session cookie present the code returns its value instead of null, and
    with one present after it the code returns the wrong cookie's value. *)
Theorem extract_matches_name_suffix :
  extractSessionToken (Some (lit "xpoeclaw_session=abc")) = Some (lit "abc")
  /\ CookieSpec.session_cookie (lit "xpoeclaw_session=abc") = None
  /\ extractSessionToken
       (Some (lit "xpoeclaw_session=evil; poeclaw_session=good"))
     = Some (lit "evil")
  /\ CookieSpec.session_cookie (lit "xpoeclaw_session=evil; poeclaw_session=good")
     = Some (lit "good").
Proof. repeat split; vm_compute; reflexivity. Qed.

End CookieFacts.

(* ===================================================================== *)
(** ** The login rate limiter *)
(* ===================================================================== *)

Module RateLimitFacts.

Lemma checkRateLimit_fresh (ip : jsstring) (now : Z) (m : gmap jsstring Attempt) :
  (m !! ip = None \/ exists e, m !! ip = Some e /\ (resetAt e < now)%Z) ->
  checkRateLimit ip now m = (true, <[ip := mkAttempt 1 (now + WINDOW_MS)]> m).
Proof.
  unfold checkRateLimit. intros [-> | (e & -> & Hlt)]; [reflexivity|].
  destruct (Z.gtb_spec now (resetAt e)); [reflexivity|lia].
Qed.

Lemma checkRateLimit_counts (ip : jsstring) (now : Z)
    (m : gmap jsstring Attempt) (c r : Z) :
  m !! ip = Some (mkAttempt c r) -> (now <= r)%Z -> (c < MAX_ATTEMPTS)%Z ->
  checkRateLimit ip now m = (true, <[ip := mkAttempt (c + 1) r]> m).
Proof.
  unfold checkRateLimit. intros -> Hn Hc. cbn [resetAt count].
  destruct (Z.gtb_spec now r); [lia|].
  destruct (Z.geb_spec c MAX_ATTEMPTS); [lia|reflexivity].
Qed.

Lemma checkRateLimit_refuses (ip : jsstring) (now : Z)
    (m : gmap jsstring Attempt) (c r : Z) :
  m !! ip = Some (mkAttempt c r) -> (now <= r)%Z -> (MAX_ATTEMPTS <= c)%Z ->
  checkRateLimit ip now m = (false, m).
Proof.
  unfold checkRateLimit. intros -> Hn Hc. cbn [resetAt count].
  destruct (Z.gtb_spec now r); [lia|].
  destruct (Z.geb_spec c MAX_ATTEMPTS); [reflexivity|lia].
Qed.

(** Calls for one address leave the entries of the others alone. *)
Lemma checkRateLimit_other (ip ip' : jsstring) (now : Z)
    (m : gmap jsstring Attempt) :
  ip <> ip' -> snd (checkRateLimit ip now m) !! ip' = m !! ip'.
Proof.
  intros Hne. unfold checkRateLimit.
  destruct (m !! ip) as [e|]; cbn [snd]; [|apply lookup_insert_ne, Hne].
  destruct (now >? resetAt e)%Z; cbn [snd]; [apply lookup_insert_ne, Hne|].
  destruct (count e >=? MAX_ATTEMPTS)%Z; cbn [snd];
    [reflexivity|apply lookup_insert_ne, Hne].
Qed.




Section WithPlatform.
Context {P : Platform}.









End WithPlatform.

End RateLimitFacts.

Module RateLimitExamples.
Import Reference Examples RateLimitFacts.


End RateLimitExamples.

(* ===================================================================== *)
(** ** Tampering with an issued token *)
(* ===================================================================== *)

Module TamperFacts.
Import Base64Facts StringFacts CodecFacts TokenFacts.

Section WithPlatform.
Context {P : Platform} {L : PlatformLaws P}.

Lemma verifySessionToken_segments token secret now :
  verifySessionToken token secret now
  = match token_segments token with
    | Some (p, s) => verify_segments p s secret now
    | None => None
    end.
Proof.
  unfold verifySessionToken, token_segments, verify_segments.
  destruct (split_on dot token) as [|p [|s r]]; reflexivity.
Qed.

Lemma signature_checks_false token secret now :
  signature_checks token secret = false ->
  verifySessionToken token secret now = None.
Proof.
  rewrite verifySessionToken_segments. unfold signature_checks, verify_segments.
  destruct (token_segments token) as [[p s]|]; [|reflexivity].
  destruct (bool_decide (p = []) || bool_decide (s = [])); [reflexivity|].
  cbn [negb andb]. destruct (deriveHmacKey secret) as [key|]; [|reflexivity].
  cbn [rbind]. destruct (atob s) as [sigStr|]; [|reflexivity].
  cbn [rbind]. intros ->. reflexivity.
Qed.

(** A signature segment that does not decode to the HMAC is refused. *)
Lemma verify_segments_bad_signature p s secret now :
  (forall x, forgiving_decode s = Some x ->
             x <> hmac_sha256 (TextEncoder_encode secret) (TextEncoder_encode p)) ->
  verify_segments p s secret now = None.
Proof.
  intros H. unfold verify_segments.
  destruct (bool_decide (p = []) || bool_decide (s = [])); [reflexivity|].
  destruct (deriveHmacKey secret) as [key|] eqn:Ek; [|reflexivity].
  apply deriveHmacKey_Ok in Ek. destruct Ek as [-> _].
  cbn [rbind]. unfold atob.
  destruct (forgiving_decode s) as [x|] eqn:Ex; [|reflexivity].
  cbn [of_option rbind].
  assert (Hx : octets x).
  { revert Ex. unfold forgiving_decode.
    destruct (length _ mod 4 =? 1)%nat; [discriminate|].
    destruct (mapM dec _) as [sx|] eqn:Em; [|discriminate].
    intros [= <-]. apply mapM_Some in Em.
    assert (Hsx : Forall (fun v => v < 64) sx).
    { clear -Em. induction Em as [|c v l sx Hc _ IH]; constructor;
        [exact (dec_lt _ _ Hc)|exact IH]. }
    clear -Hsx. revert Hsx.
    remember (length sx) as n eqn:Hn. revert sx Hn.
    induction n as [n IH] using lt_wf_ind. intros sx Hn Hsx.
    destruct sx as [|a [|b [|c [|d r]]]]; cbn [decode_sextets];
      try solve [constructor].
    - inversion_clear Hsx as [|? ? Ha H1]. inversion_clear H1 as [|? ? Hb _].
      repeat constructor.
      assert (b / 16 < 4) by (apply N.Div0.div_lt_upper_bound; lia). lia.
    - inversion_clear Hsx as [|? ? Ha H1]. inversion_clear H1 as [|? ? Hb H2].
      inversion_clear H2 as [|? ? Hc _].
      assert (b / 16 < 4) by (apply N.Div0.div_lt_upper_bound; lia).
      assert (c / 4 < 16) by (apply N.Div0.div_lt_upper_bound; lia).
      pose proof (N.mod_lt b 16). repeat constructor; lia.
    - inversion_clear Hsx as [|? ? Ha H1]. inversion_clear H1 as [|? ? Hb H2].
      inversion_clear H2 as [|? ? Hc H3]. inversion_clear H3 as [|? ? Hd Hr].
      assert (b / 16 < 4) by (apply N.Div0.div_lt_upper_bound; lia).
      assert (c / 4 < 16) by (apply N.Div0.div_lt_upper_bound; lia).
      pose proof (N.mod_lt b 16). pose proof (N.mod_lt c 4).
      constructor; [lia|]. constructor; [lia|]. constructor; [lia|].
      apply (IH (length r)); [cbn in Hn; lia|reflexivity|exact Hr]. }
  rewrite Uint8Array_from_id by exact Hx.
  unfold hmac_verify. rewrite bool_decide_eq_false_2 by (apply H; reflexivity).
  reflexivity.
Qed.

End WithPlatform.

(** *** Forgiving decoding of short texts *)

Lemma decode_pair x1 x2 :
  ascii_whitespace x1 = false -> ascii_whitespace x2 = false ->
  forgiving_decode [x1; x2]
  = (v1 ← dec x1; v2 ← dec x2; Some [v1 * 4 + v2 / 16]).
Proof.
  intros H1 H2. unfold forgiving_decode. cbn [List.filter].
  rewrite H1, H2. cbn. destruct (dec x1), (dec x2); reflexivity.
Qed.

Lemma decode_triple x1 x2 x3 :
  ascii_whitespace x1 = false -> ascii_whitespace x2 = false ->
  ascii_whitespace x3 = false ->
  forgiving_decode [x1; x2; x3]
  = (v1 ← dec x1; v2 ← dec x2; v3 ← dec x3;
     Some [v1 * 4 + v2 / 16; (v2 mod 16) * 16 + v3 / 4]).
Proof.
  intros H1 H2 H3. unfold forgiving_decode. cbn [List.filter].
  rewrite H1, H2, H3. cbn. destruct (dec x1), (dec x2), (dec x3); reflexivity.
Qed.

Lemma decode_quad x1 x2 x3 x4 :
  ascii_whitespace x1 = false -> ascii_whitespace x2 = false ->
  ascii_whitespace x3 = false -> ascii_whitespace x4 = false ->
  forgiving_decode [x1; x2; x3; x4]
  = if x4 =? pad then
      if x3 =? pad then (v1 ← dec x1; v2 ← dec x2; Some [v1 * 4 + v2 / 16])
      else (v1 ← dec x1; v2 ← dec x2; v3 ← dec x3;
            Some [v1 * 4 + v2 / 16; (v2 mod 16) * 16 + v3 / 4])
    else (v1 ← dec x1; v2 ← dec x2; v3 ← dec x3; v4 ← dec x4;
          Some [v1 * 4 + v2 / 16; (v2 mod 16) * 16 + v3 / 4;
                (v3 mod 4) * 64 + v4]).
Proof.
  intros H1 H2 H3 H4. unfold forgiving_decode. cbn [List.filter].
  rewrite H1, H2, H3, H4. cbn [negb length Nat.modulo Nat.divmod fst snd Nat.eqb
    Nat.sub rev app strip_pad_rev].
  destruct (x4 =? pad); [destruct (x3 =? pad)|]; cbn;
    destruct (dec x1), (dec x2); try reflexivity;
    destruct (dec x3); try reflexivity; destruct (dec x4); reflexivity.
Qed.

Lemma forgiving_decode_filter s s' :
  List.filter (fun c => negb (ascii_whitespace c)) s
  = List.filter (fun c => negb (ascii_whitespace c)) s' ->
  forgiving_decode s = forgiving_decode s'.
Proof. intros H. unfold forgiving_decode. rewrite H. reflexivity. Qed.

Lemma pad_not_whitespace : ascii_whitespace pad = false.
Proof. reflexivity. Qed.

Lemma enc_eqb_pad v : (enc v =? pad) = false.
Proof. apply N.eqb_neq, enc_not_pad. Qed.

Lemma dec_Some_not_pad c v : dec c = Some v -> (c =? pad) = false.
Proof. intros H. apply N.eqb_neq. intros ->. discriminate H. Qed.

(** *** The last quantum of a signature *)

Section Tail.
(** The last two octets of a 32-octet signature and their three digits. *)
Variables (a b : N).
Hypotheses (Ha : a < 256) (Hb : b < 256).

Local Abbreviation s1 := (digit1 a b).
Local Abbreviation s2 := (digit2 a b).
Local Abbreviation s3 := (digit3 a b).

Lemma tail_sextets : s1 < 64 /\ s2 < 64 /\ s3 < 64.
Proof.
  assert (H : Forall (fun v => v < 64) (sextets [a; b]))
    by (apply sextets_lt; repeat constructor; assumption).
  cbn [sextets] in H. inversion_clear H as [|? ? H1 H']. 
  inversion_clear H' as [|? ? H2 H'']. inversion_clear H'' as [|? ? H3 _].
  auto.
Qed.

Lemma tail_octets :
  a = s1 * 4 + s2 / 16 /\ b = (s2 mod 16) * 16 + s3 / 4.
Proof.
  assert (H : decode_sextets (sextets [a; b]) = [a; b])
    by (apply decode_sextets_sextets; repeat constructor; assumption).
  cbn [sextets decode_sextets] in H. injection H as H1 H2.
  split; symmetry; assumption.
Qed.

Lemma same_octets_decode t :
  same_octets a b t -> forgiving_decode t = Some [a; b].
Proof.
  destruct tail_sextets as (H1 & H2 & H3). destruct tail_octets as [Ea Eb].
  intros [ |v Hv Hq|w Hw].
  - rewrite decode_triple by apply enc_not_whitespace.
    rewrite !dec_enc by assumption. cbn. congruence.
  - rewrite decode_quad by (try apply enc_not_whitespace; reflexivity).
    rewrite N.eqb_refl, enc_eqb_pad, !dec_enc by assumption. cbn.
    rewrite Hq. congruence.
  - rewrite (forgiving_decode_filter _ [enc s1; enc s2; enc s3])
      by (cbn [List.filter]; rewrite !enc_not_whitespace, Hw; reflexivity).
    rewrite decode_triple by apply enc_not_whitespace.
    rewrite !dec_enc by assumption. cbn. congruence.
Qed.

(** Replacing one character of the last quantum by a different one, when
    the replacement is not among the harmless ones, changes what it
    decodes to. *)
Lemma flipped_tail_decode j c c' :
  [enc s1; enc s2; enc s3; pad] !! j = Some c -> c' <> c -> c' <> dot ->
  harmless_flip j c c' = false ->
  forgiving_decode (<[j := c']> [enc s1; enc s2; enc s3; pad]) <> Some [a; b].
Proof.
  destruct tail_sextets as (H1 & H2 & H3). destruct tail_octets as [Ea Eb].
  intros Hj Hne Hdot Hh.
  assert (Hq : forall v1 v2, v1 < 64 -> v2 < 64 ->
                 v1 / 16 = v2 / 16 -> v1 mod 16 = v2 mod 16 -> v1 = v2).
  { intros v1 v2 _ _ Hd Hm.
    rewrite (N.div_mod' v1 16), (N.div_mod' v2 16). congruence. }
  destruct (ascii_whitespace c') eqn:Hw.
  { (* a blank is dropped: three characters and maybe a stray '=' remain *)
    destruct j as [|[|[|[|j]]]]; cbn in Hj; try discriminate;
      injection Hj as <-; cbn [list_insert insert]; unfold forgiving_decode;
      cbn [List.filter]; rewrite ?enc_not_whitespace, ?Hw; cbn [negb].
    - cbn. rewrite !dec_enc by assumption. cbn. discriminate.
    - cbn. rewrite !dec_enc by assumption. cbn. discriminate.
    - cbn. rewrite !dec_enc by assumption. cbn. discriminate.
    - cbn in Hh. rewrite Hw, orb_true_r in Hh. discriminate. }
  destruct j as [|[|[|[|j]]]]; cbn in Hj; try discriminate;
    injection Hj as <-; cbn [list_insert insert];
    rewrite decode_quad by (try apply enc_not_whitespace; auto).
  - rewrite N.eqb_refl, enc_eqb_pad, !dec_enc by assumption.
    destruct (dec c') as [v'|] eqn:Hd; cbn; [|discriminate].
    intros [= E1 _]. apply Hne. rewrite <- (enc_dec _ _ Hd). f_equal.
    pose proof (dec_lt _ _ Hd). lia.
  - rewrite N.eqb_refl, enc_eqb_pad, !dec_enc by assumption.
    destruct (dec c') as [v'|] eqn:Hd; cbn; [|discriminate].
    intros [= E1 E2]. apply Hne. rewrite <- (enc_dec _ _ Hd). f_equal.
    pose proof (dec_lt _ _ Hd).
    assert (s3 / 4 < 16) by (apply N.Div0.div_lt_upper_bound; lia).
    assert (v' / 16 < 4) by (apply N.Div0.div_lt_upper_bound; lia).
    assert (s2 / 16 < 4) by (apply N.Div0.div_lt_upper_bound; lia).
    pose proof (N.mod_lt v' 16). pose proof (N.mod_lt s2 16).
    apply Hq; try assumption; lia.
  - rewrite N.eqb_refl.
    destruct (N.eqb_spec c' pad) as [->|Hp].
    + rewrite !dec_enc by assumption. cbn. discriminate.
    + rewrite !dec_enc by assumption.
      destruct (dec c') as [v'|] eqn:Hd; cbn; [|discriminate].
      intros [= _ E2]. cbn in Hh. rewrite dec_enc, Hd in Hh by assumption.
      apply N.eqb_neq in Hh. apply Hh.
      pose proof (dec_lt _ _ Hd).
      assert (s3 / 4 < 16) by (apply N.Div0.div_lt_upper_bound; lia).
      assert (v' / 4 < 16) by (apply N.Div0.div_lt_upper_bound; lia).
      lia.
  - destruct (N.eqb_spec c' pad) as [->|Hp]; [congruence|].
    rewrite !dec_enc by assumption.
    destruct (dec c') as [v'|]; cbn; discriminate.
Qed.

(** Cutting the last quantum short decodes to fewer octets, or not at
    all. *)
Lemma cut_tail_decode j :
  (j < 3)%nat ->
  forgiving_decode (take j [enc s1; enc s2; enc s3; pad]) <> Some [a; b].
Proof.
  destruct tail_sextets as (H1 & H2 & H3).
  intros Hj. destruct j as [|[|[|j]]]; [| | |lia]; cbn [take].
  - discriminate.
  - unfold forgiving_decode. cbn [List.filter].
    rewrite enc_not_whitespace. cbn. discriminate.
  - rewrite decode_pair by apply enc_not_whitespace.
    rewrite !dec_enc by assumption. cbn. discriminate.
Qed.

End Tail.

(** *** The shape of an issued signature segment *)

Lemma encode_bytes_app x y :
  (length x mod 3 = 0)%nat -> encode_bytes (x ++ y) = encode_bytes x ++ encode_bytes y.
Proof.
  induction x as [|a|a b|a b c r IH] using list_ind3; intros H;
    try (cbn in H; discriminate); [reflexivity|].
  change ((a :: b :: c :: r) ++ y) with (a :: b :: c :: (r ++ y)).
  cbn [encode_bytes app]. rewrite IH; [reflexivity|].
  cbn [length] in H.
  replace (S (S (S (length r)))) with (length r + 1 * 3)%nat in H by lia.
  rewrite Nat.Div0.mod_add in H. exact H.
Qed.

Lemma sextets_whole x :
  (length x mod 3 = 0)%nat ->
  encode_bytes x = map enc (sextets x) /\ (length (sextets x) mod 4 = 0)%nat.
Proof.
  induction x as [|a|a b|a b c r IH] using list_ind3; intros H;
    try (cbn in H; discriminate); [split; reflexivity|].
  cbn [length] in H.
  replace (S (S (S (length r)))) with (length r + 1 * 3)%nat in H by lia.
  rewrite Nat.Div0.mod_add in H. destruct (IH H) as [IH1 IH2].
  cbn [encode_bytes sextets map length]. rewrite IH1. split; [reflexivity|].
  replace (S (S (S (S (length (sextets r))))))
    with (length (sextets r) + 1 * 4)%nat by lia.
  rewrite Nat.Div0.mod_add. exact IH2.
Qed.

Lemma signature_shape (sig : bytes) :
  octets sig -> length sig = 32%nat ->
  exists E sx s30 a b,
    sig = s30 ++ [a; b] /\ a < 256 /\ b < 256
    /\ encode_bytes sig
       = E ++ [enc (a / 4); enc ((a mod 4) * 16 + b / 16);
               enc ((b mod 16) * 4); pad]
    /\ mapM dec E = Some sx /\ decode_sextets sx = s30
    /\ (length E mod 4 = 0)%nat.
Proof.
  intros Ho Hl.
  assert (Hs : sig = take 30 sig ++ drop 30 sig) by (symmetry; apply take_drop).
  assert (H30 : length (take 30 sig) = 30%nat) by (rewrite length_take; lia).
  assert (H2 : length (drop 30 sig) = 2%nat) by (rewrite length_drop; lia).
  destruct (drop 30 sig) as [|a [|b [|? ?]]]; try discriminate H2.
  rewrite Hs in Ho. apply Forall_app in Ho. destruct Ho as [Ho30 Hoab].
  inversion_clear Hoab as [|? ? Ha Hob]. inversion_clear Hob as [|? ? Hb _].
  destruct (sextets_whole (take 30 sig)) as [He Hm]; [rewrite H30; reflexivity|].
  exists (encode_bytes (take 30 sig)), (sextets (take 30 sig)), (take 30 sig), a, b.
  split; [exact Hs|]. split; [exact Ha|]. split; [exact Hb|]. split.
  - rewrite Hs at 1. rewrite encode_bytes_app by (rewrite H30; reflexivity).
    reflexivity.
  - split; [rewrite He; apply mapM_dec_enc, sextets_lt, Ho30|].
    split; [apply decode_sextets_sextets, Ho30|].
    rewrite He, length_map. exact Hm.
Qed.

Lemma token_segments_two p s :
  Forall (fun c => c <> dot) p -> Forall (fun c => c <> dot) s ->
  token_segments (p ++ dot :: s) = Some (p, s).
Proof.
  intros Hp Hs. unfold token_segments.
  rewrite split_on_app, split_on_none by assumption. reflexivity.
Qed.

Lemma token_segments_three p s r :
  Forall (fun c => c <> dot) p -> Forall (fun c => c <> dot) s ->
  token_segments (p ++ dot :: s ++ dot :: r) = Some (p, s).
Proof.
  intros Hp Hs. unfold token_segments.
  rewrite split_on_app, split_on_app by assumption. reflexivity.
Qed.

Lemma mapM_dec_no_dot (l : jsstring) sx :
  mapM dec l = Some sx -> Forall (fun c => c <> dot) l.
Proof.
  intros H. apply mapM_Some in H.
  induction H as [|c v l sx Hc _ IH]; constructor; [|exact IH].
  intros ->. discriminate Hc.
Qed.

Lemma enc_not_dot v : enc v <> dot.
Proof. unfold dot. destruct (enc_range v) as [|[|[|[|]]]]; lia. Qed.

Lemma tail_no_dot v1 v2 v3 :
  Forall (fun c => c <> dot) [enc v1; enc v2; enc v3; pad].
Proof. repeat constructor; try apply enc_not_dot. discriminate. Qed.

Section WithPlatform.
Context {P : Platform} {L : PlatformLaws P}.

(** C5 (amended): for an issued token, replacing one of its final four
    characters by a different one makes [verifySessionToken] return null,
    unless the replacement is one that forgiving base64 decoding does not
    see ([harmless_flip]); and replacing any character of the payload
    segment by a different one makes it return null, barring a forgery of
    the HMAC ([no_forgery]). *)
Theorem tampered_token_rejected u secret tok now :
  createSessionToken u secret = Ok tok ->
  (forall j c c',
      (j < 4)%nat -> tok !! (length tok - 4 + j)%nat = Some c -> c' <> c ->
      harmless_flip j c c' = false ->
      verifySessionToken (replace_at (length tok - 4 + j) c' tok) secret now
      = None)
  /\ (forall i c c',
        (i < length (payloadB64_of u))%nat -> tok !! i = Some c -> c' <> c ->
        no_forgery tok (replace_at i c' tok) secret ->
        verifySessionToken (replace_at i c' tok) secret now = None).
Proof.
  intros H. destruct (createSessionToken_Ok _ _ _ H) as (Htok & Ho & Hk).
  pose proof (encode_bytes_no_dot (JSON_stringify u)) as HpB.
  fold (payloadB64_of u) in HpB.
  split.
  - destruct (signature_shape (signature_of u secret)
                (hmac_sha256_octets _ _) (signature_of_length u secret))
      as (E & sx & s30 & a & b & Hsig & Ha & Hb & Henc & HE & Hdec & Hmod).
    set (T := [enc (a / 4); enc (a mod 4 * 16 + b / 16); enc (b mod 16 * 4); pad])
      in *.
    assert (HT : tok = (payloadB64_of u ++ dot :: E) ++ T)
      by (rewrite Htok, Henc, <- app_assoc; reflexivity).
    pose proof (mapM_dec_no_dot _ _ HE) as HEdot.
    intros j c c' Hj Hlook Hne Hh.
    assert (Hi : (length tok - 4 + j = length (payloadB64_of u ++ dot :: E) + j)%nat)
      by (rewrite HT, length_app; cbn [length T]; lia).
    rewrite Hi in *. rewrite HT in Hlook |- *. clear Hi.
    rewrite lookup_app_r in Hlook by lia.
    replace (length (payloadB64_of u ++ dot :: E) + j
             - length (payloadB64_of u ++ dot :: E))%nat with j in Hlook by lia.
    unfold replace_at. rewrite insert_app_r, <- app_assoc. cbn [app].
    rewrite verifySessionToken_segments.
    assert (Hreject : forall t,
      forgiving_decode t <> Some [a; b] ->
      verify_segments (payloadB64_of u) (E ++ t) secret now = None).
    { intros t Ht. apply verify_segments_bad_signature. intros x Hx.
      rewrite (forgiving_decode_app E t sx HE Hmod) in Hx.
      destruct (forgiving_decode t) as [y|] eqn:Ey; [|discriminate].
      injection Hx as <-. rewrite Hdec.
      fold (signature_of u secret). rewrite Hsig.
      intros Heq. apply app_inv_head in Heq. congruence. }
    destruct (N.eq_dec c' dot) as [->|Hd].
    + assert (Hj3 : (j < 3)%nat).
      { destruct j as [|[|[|[|j]]]]; try lia. cbn in Hh. discriminate. }
      rewrite (insert_take_drop T j dot) by (cbn [length T]; lia).
      rewrite app_assoc.
      rewrite token_segments_three; try assumption.
      * apply Hreject. apply (cut_tail_decode a b Ha Hb j Hj3).
      * apply Forall_app. split; [exact HEdot|].
        apply Forall_take, tail_no_dot.
    + rewrite token_segments_two; try assumption.
      * apply Hreject.
        apply (flipped_tail_decode a b Ha Hb j c c' Hlook Hne Hd Hh).
      * apply Forall_app. split; [exact HEdot|].
        pose proof (tail_no_dot (a / 4) (a mod 4 * 16 + b / 16) (b mod 16 * 4)) as Ht.
        fold T in Ht.
        destruct j as [|[|[|[|j]]]]; cbn [T list_insert insert];
          inversion_clear Ht as [|? ? D1 Ht1]; inversion_clear Ht1 as [|? ? D2 Ht2];
          inversion_clear Ht2 as [|? ? D3 Ht3]; inversion_clear Ht3 as [|? ? D4 _];
          repeat constructor; assumption.
  - intros i c c' Hi Hlook Hne Hforge.
    apply signature_checks_false. apply Hforge.
    pose proof (encode_bytes_no_dot (signature_of u secret)) as Hs.
    rewrite Htok in Hlook |- *.
    rewrite (token_segments_two _ _ HpB Hs). cbn [fmap option_fmap option_map fst].
    rewrite lookup_app_l in Hlook by exact Hi.
    unfold replace_at. rewrite insert_app_l by exact Hi.
    rewrite (insert_take_drop _ i c') by exact Hi.
    assert (Htake : Forall (fun x => x <> dot) (take i (payloadB64_of u)))
      by (apply Forall_take, HpB).
    assert (Hdrop : Forall (fun x => x <> dot) (drop (S i) (payloadB64_of u)))
      by (apply Forall_drop, HpB).
    destruct (N.eq_dec c' dot) as [->|Hd].
    + rewrite <- app_assoc. cbn [app].
      rewrite (token_segments_three _ _ _ Htake Hdrop).
      cbn [fmap option_fmap option_map fst]. intros [= Heq].
      apply (f_equal length) in Heq. rewrite length_take in Heq. lia.
    + rewrite token_segments_two; [|apply Forall_app; split; [exact Htake|]|exact Hs].
      * cbn [fmap option_fmap option_map fst]. intros [= Heq].
        apply (f_equal (fun l => l !! i)) in Heq.
        rewrite Hlook in Heq.
        rewrite lookup_app_r in Heq by (rewrite length_take; lia).
        rewrite length_take in Heq.
        replace (i - i `min` length (payloadB64_of u))%nat with 0%nat in Heq by lia.
        cbn in Heq. congruence.
      * constructor; assumption.
Qed.

(** The replacements left out are accepted: the token verifies as
    before. *)
Lemma harmless_flip_accepted u secret tok now j c c' :
  createSessionToken u secret = Ok tok ->
  (j < 4)%nat -> tok !! (length tok - 4 + j)%nat = Some c ->
  harmless_flip j c c' = true ->
  verifySessionToken (replace_at (length tok - 4 + j) c' tok) secret now
  = verifySessionToken tok secret now.
Proof.
  intros H. destruct (createSessionToken_Ok _ _ _ H) as (Htok & Ho & Hk).
  pose proof (encode_bytes_no_dot (JSON_stringify u)) as HpB.
  fold (payloadB64_of u) in HpB.
  destruct (signature_shape (signature_of u secret)
              (hmac_sha256_octets _ _) (signature_of_length u secret))
    as (E & sx & s30 & a & b & Hsig & Ha & Hb & Henc & HE & Hdec & Hmod).
  set (T := [enc (a / 4); enc (a mod 4 * 16 + b / 16); enc (b mod 16 * 4); pad])
    in *.
  assert (HT : tok = (payloadB64_of u ++ dot :: E) ++ T)
    by (rewrite Htok, Henc, <- app_assoc; reflexivity).
  pose proof (mapM_dec_no_dot _ _ HE) as HEdot.
  pose proof (tail_no_dot (a / 4) (a mod 4 * 16 + b / 16) (b mod 16 * 4)) as HTdot.
  fold T in HTdot.
  destruct (tail_sextets a b Ha Hb) as (H1 & H2 & H3).
  intros Hj Hlook Hh.
  assert (Hi : (length tok - 4 + j = length (payloadB64_of u ++ dot :: E) + j)%nat)
    by (rewrite HT, length_app; cbn [length T]; lia).
  rewrite Hi in *. clear Hi.
  rewrite !verifySessionToken_segments.
  rewrite HT in Hlook |- *.
  rewrite lookup_app_r in Hlook by lia.
  replace (length (payloadB64_of u ++ dot :: E) + j
           - length (payloadB64_of u ++ dot :: E))%nat with j in Hlook by lia.
  unfold replace_at. rewrite insert_app_r, <- !app_assoc. cbn [app].
  rewrite (token_segments_two (payloadB64_of u) (E ++ T)) by
    (try assumption; apply Forall_app; split; assumption).
  assert (Hsame : forall t,
    same_octets a b t -> t <> [] ->
    verify_segments (payloadB64_of u) (E ++ t) secret now
    = verify_segments (payloadB64_of u) (E ++ T) secret now).
  { assert (Hatob : forall t, same_octets a b t ->
                      atob (E ++ t) = Ok (signature_of u secret)).
    { intros t Ht. unfold atob.
      rewrite (forgiving_decode_app E t sx HE Hmod),
        (same_octets_decode a b Ha Hb t Ht).
      cbn. rewrite Hdec, Hsig. reflexivity. }
    intros t Ht Hne. unfold verify_segments.
    rewrite (Hatob t Ht).
    rewrite (Hatob T) by (apply (same_padded a b (b mod 16 * 4)); [exact H3|reflexivity]).
    assert (N1 : E ++ t <> []) by (destruct E, t; [congruence|discriminate..]).
    assert (N2 : E ++ T <> []) by (destruct E; discriminate).
    rewrite (bool_decide_eq_false_2 _ N1), (bool_decide_eq_false_2 _ N2).
    reflexivity. }
  destruct j as [|[|[|[|j]]]]; cbn in Hh; try discriminate; try lia;
    cbn in Hlook; injection Hlook as <-; cbn [T list_insert insert].
  - (* the last digit *)
    rewrite dec_enc in Hh by exact H3.
    destruct (dec c') as [v'|] eqn:Hd; [|discriminate].
    apply N.eqb_eq in Hh. rewrite <- (enc_dec _ _ Hd).
    rewrite token_segments_two; [apply Hsame; [|discriminate]|assumption|].
    + apply same_padded; [exact (dec_lt _ _ Hd)|exact Hh].
    + apply Forall_app. split; [exact HEdot|].
      repeat constructor; try apply enc_not_dot. discriminate.
  - (* the final '=' *)
    destruct (N.eqb_spec c' dot) as [->|Hd].
    + change (E ++ [enc (a / 4); enc (a mod 4 * 16 + b / 16);
                    enc (b mod 16 * 4); dot])
        with (E ++ [enc (a / 4); enc (a mod 4 * 16 + b / 16);
                    enc (b mod 16 * 4)] ++ dot :: []).
      rewrite app_assoc, token_segments_three;
        [apply Hsame; [apply same_unpadded|discriminate]|assumption|].
      apply Forall_app. split; [exact HEdot|].
      repeat constructor; apply enc_not_dot.
    + cbn [orb] in Hh.
      rewrite token_segments_two;
        [apply Hsame; [apply same_spaced, Hh|discriminate]|assumption|].
      apply Forall_app. split; [exact HEdot|].
      repeat constructor; try apply enc_not_dot. exact Hd.
Qed.

End WithPlatform.

Section Examples.
Import Reference ReferenceFacts Examples TokenExamples.

Lemma tampered_token_rejected_witness :
  (* the first of the final four characters replaced by 'x' *)
  verifySessionToken (P := ref_platform)
    (replace_at (length token0 - 4 + 0) 120 token0) secret0 1700000000500 = None
  (* the first character of the payload segment replaced by 'x' *)
  /\ verifySessionToken (P := ref_platform)
       (replace_at 0 120 token0) secret0 1700000000500 = None.
Proof.
  destruct (tampered_token_rejected (L := ref_laws) user0 secret0 token0
              1700000000500 token0_issued) as [Hsig Hpayload].
  split.
  - eapply (Hsig 0%nat _ 120);
      [lia|vm_compute; reflexivity|discriminate|vm_compute; reflexivity].
  - eapply (Hpayload 0%nat _ 120);
      [vm_compute; lia|vm_compute; reflexivity|discriminate|].
    intros _. vm_compute. reflexivity.
Defined.

(** C5, as stated, fails: on every platform, an issued token ends in '='
    and still verifies as before with that character replaced by '.';
    on the reference platform the token of [user0] is so accepted. *)
Lemma tampered_token_counterexample :
  (forall (P : Platform), PlatformLaws P ->
   forall u secret tok now,
     createSessionToken u secret = Ok tok ->
     tok !! (length tok - 4 + 3)%nat = Some pad
     /\ verifySessionToken (replace_at (length tok - 4 + 3) dot tok) secret now
        = verifySessionToken tok secret now)
  /\ dot <> pad
  /\ createSessionToken (P := ref_platform) user0 secret0 = Ok token0
  /\ verifySessionToken (P := ref_platform)
       (replace_at (length token0 - 4 + 3) dot token0) secret0 1700000000500
     = Some user0.
Proof.
  split; [|split; [discriminate|split; [exact token0_issued|vm_compute; reflexivity]]].
  intros P L u secret tok now H.
  assert (Hpad : tok !! (length tok - 4 + 3)%nat = Some pad).
  { destruct (createSessionToken_Ok _ _ _ H) as (Htok & _ & _).
    destruct (signature_shape (signature_of u secret)
                (hmac_sha256_octets _ _) (signature_of_length u secret))
      as (E & sx & s30 & a & b & _ & _ & _ & Henc & _ & _ & _).
    rewrite Htok, Henc.
    change (payloadB64_of u ++ dot :: E ++ ?t)
      with (payloadB64_of u ++ (dot :: E) ++ t).
    rewrite app_assoc, length_app. cbn [length].
    rewrite lookup_app_r by lia.
    replace (length (payloadB64_of u ++ dot :: E) + 4 - 4 + 3
             - length (payloadB64_of u ++ dot :: E))%nat with 3%nat by lia.
    reflexivity. }
  split; [exact Hpad|].
  apply (harmless_flip_accepted u secret tok now 3 pad dot H); [lia|exact Hpad|].
  reflexivity.
Qed.

End Examples.
End TamperFacts.

(* ===================================================================== *)
(** ** The user hash *)
(* ===================================================================== *)

Module HashFacts.
Import Base64Facts StringFacts.

Lemma hex_digit_lower v : v < 16 -> lower_hex (hex_digit v) = true.
Proof. intros H. unfold lower_hex, hex_digit. ncase. Qed.

Lemma hex_digit_inj v w : v < 16 -> w < 16 -> hex_digit v = hex_digit w -> v = w.
Proof. unfold hex_digit. intros Hv Hw. ncase. Qed.

Lemma hex_pairs_length (bs : bytes) :
  length (flat_map (fun b => [hex_digit (b / 16); hex_digit (b mod 16)]) bs)
  = (2 * length bs)%nat.
Proof. induction bs as [|b bs IH]; cbn [flat_map length app]; lia. Qed.

Lemma hex_pairs_lower (bs : bytes) :
  octets bs ->
  Forall (fun c => lower_hex c = true)
    (flat_map (fun b => [hex_digit (b / 16); hex_digit (b mod 16)]) bs).
Proof.
  induction 1 as [|b bs Hb _ IH]; cbn [flat_map app]; [constructor|].
  constructor; [apply hex_digit_lower; dlia|].
  constructor; [apply hex_digit_lower; dlia|exact IH].
Qed.

Lemma hex_pairs_inj (xs ys : bytes) :
  octets xs -> octets ys ->
  flat_map (fun b => [hex_digit (b / 16); hex_digit (b mod 16)]) xs
  = flat_map (fun b => [hex_digit (b / 16); hex_digit (b mod 16)]) ys ->
  xs = ys.
Proof.
  intros Hx. revert ys. induction Hx as [|x xs Hx _ IH]; intros ys Hy E.
  - destruct ys; [reflexivity|discriminate E].
  - destruct Hy as [|y ys Hy Hys]; [discriminate E|].
    cbn [flat_map app] in E. injection E as E1 E2 E3.
    apply hex_digit_inj in E1; [|dlia|dlia].
    apply hex_digit_inj in E2; [|dlia|dlia].
    f_equal; [dlia|apply IH; assumption].
Qed.

Section WithPlatform.
Context {P : Platform}.

(** X1: the user hash is the digest in lower-case hexadecimal, two digits
    an octet: 64 characters of [0-9a-f] for a 32-octet digest. *)
Theorem hashApiKey_lowercase_hex apiKey :
  octets (sha256 (TextEncoder_encode apiKey)) ->
  length (sha256 (TextEncoder_encode apiKey)) = 32%nat ->
  length (hashApiKey apiKey) = 64%nat
  /\ Forall (fun c => lower_hex c = true) (hashApiKey apiKey).
Proof.
  intros Ho Hl. unfold hashApiKey. split.
  - rewrite hex_pairs_length, Hl. reflexivity.
  - apply hex_pairs_lower, Ho.
Qed.

(** X2: two API keys have the same user hash exactly when their SHA-256
    digests are equal. *)
Theorem hashApiKey_eq_iff_digest_eq a b :
  octets (sha256 (TextEncoder_encode a)) ->
  octets (sha256 (TextEncoder_encode b)) ->
  hashApiKey a = hashApiKey b
  <-> sha256 (TextEncoder_encode a) = sha256 (TextEncoder_encode b).
Proof.
  intros Ha Hb. unfold hashApiKey. split.
  - apply hex_pairs_inj; assumption.
  - intros ->. reflexivity.
Qed.

End WithPlatform.

Lemma hashApiKey_lowercase_hex_witness :
  length (hashApiKey (P := Reference.ref_platform) (lit "pb-test-key-12345")) = 64%nat
  /\ Forall (fun c => lower_hex c = true)
       (hashApiKey (P := Reference.ref_platform) (lit "pb-test-key-12345")).
Proof.
  apply (hashApiKey_lowercase_hex (P := Reference.ref_platform)).
  - apply ReferenceFacts.be_octets_octets.
  - apply ReferenceFacts.be_octets_length.
Defined.

Lemma hashApiKey_eq_iff_digest_eq_witness :
  hashApiKey (P := Reference.ref_platform) (lit "pb-key-aaa")
  = hashApiKey (P := Reference.ref_platform) (lit "pb-key-bbb")
  <-> Reference.ref_sha256 (TextEncoder_encode (lit "pb-key-aaa"))
      = Reference.ref_sha256 (TextEncoder_encode (lit "pb-key-bbb")).
Proof.
  apply (hashApiKey_eq_iff_digest_eq (P := Reference.ref_platform)).
  - apply ReferenceFacts.be_octets_octets.
  - apply ReferenceFacts.be_octets_octets.
Defined.

End HashFacts.

(* ===================================================================== *)
(** ** Issued tokens: when they are made, their shape, how they are read *)
(* ===================================================================== *)

Module IssuedTokenFacts.
Import Base64Facts StringFacts CodecFacts TokenFacts TamperFacts.

Lemma TextEncoder_encode_nil s : TextEncoder_encode s = [] <-> s = [].
Proof.
  split; [|intros ->; reflexivity].
  intros H. destruct (TextEncoder_encode_length s) as [Hl _].
  rewrite H in Hl. destruct s; [reflexivity|cbn in Hl; lia].
Qed.

Lemma btoa_Throw s :
  ~ Forall (fun c => c <= 255) s -> btoa s = Throw InvalidCharacterError.
Proof.
  intros H. unfold btoa. destruct (forallb _ s) eqn:E; [|reflexivity].
  exfalso. apply H, Forall_forall. intros c Hc. rewrite forallb_forall in E.
  apply list_elem_of_In in Hc. apply N.leb_le, E, Hc.
Qed.

Lemma latin1_octets s : Forall (fun c => c <= 255) s <-> octets s.
Proof.
  unfold octets. split; intros H; eapply Forall_impl; try exact H;
    cbn; intros; lia.
Qed.

Lemma encode_bytes_length bs :
  length (encode_bytes bs) = (4 * ((length bs + 2) / 3))%nat.
Proof.
  induction bs as [|a|a b|a b c r IH] using list_ind3; try reflexivity.
  cbn [encode_bytes length]. rewrite IH.
  replace (S (S (S (length r))) + 2)%nat with (length r + 2 + 1 * 3)%nat by lia.
  rewrite Nat.div_add by lia. lia.
Qed.

Lemma split_on_nonempty sep (s : jsstring) : split_on sep s <> [].
Proof.
  destruct s as [|c r]; [discriminate|]. cbn [split_on].
  destruct (c =? sep); [discriminate|]. destruct (split_on sep r); discriminate.
Qed.

(** Splitting distributes over a separator. *)
Lemma split_on_sep sep (a b : jsstring) :
  split_on sep (a ++ sep :: b) = split_on sep a ++ split_on sep b.
Proof.
  induction a as [|c a IH].
  - cbn [app split_on]. rewrite N.eqb_refl. reflexivity.
  - cbn [app split_on]. rewrite IH. destruct (c =? sep); [reflexivity|].
    pose proof (split_on_nonempty sep a) as Hne.
    destruct (split_on sep a) as [|p ps]; [congruence|reflexivity].
Qed.

Lemma alphabet_not_dot c : is_b64_alphabet c = true -> c <> dot.
Proof. unfold is_b64_alphabet. intros H ->. discriminate H. Qed.

Section WithPlatform.
Context {P : Platform} {L : PlatformLaws P}.

(** An issued token can stand as a cookie value: it is not empty and
    holds no ';'. *)
Lemma issued_token_cookie_safe u secret tok :
  createSessionToken u secret = Ok tok ->
  tok <> [] /\ Forall (fun c => c <> semicolon) tok.
Proof.
  intros H. destruct (createSessionToken_Ok _ _ _ H) as (-> & _ & _).
  split; [destruct (payloadB64_of u); discriminate|].
  assert (B : forall bs, Forall (fun c => c <> semicolon) (encode_bytes bs)).
  { intros bs. apply Forall_forall. intros c Hc.
    pose proof (encode_bytes_chars bs) as Hb. rewrite forallb_forall in Hb.
    apply list_elem_of_In in Hc. specialize (Hb c Hc).
    apply StoredKey.b64_char_range in Hb. unfold semicolon. lia. }
  apply Forall_app. split; [apply B|]. constructor; [discriminate|apply B].
Qed.

(** X3: [createSessionToken] returns a token exactly when the secret is
    not empty and the JSON text of the payload has no character above
    U+00FF; a character above it makes [btoa] throw
    InvalidCharacterError, an empty secret makes the key import throw
    DataError. *)
Theorem createSessionToken_succeeds_iff u secret :
  ((exists tok, createSessionToken u secret = Ok tok)
   <-> secret <> [] /\ Forall (fun c => c <= 255) (JSON_stringify u))
  /\ (~ Forall (fun c => c <= 255) (JSON_stringify u) ->
      createSessionToken u secret = Throw InvalidCharacterError)
  /\ (Forall (fun c => c <= 255) (JSON_stringify u) ->
      createSessionToken u secret = Throw DataError <-> secret = []).
Proof.
  assert (Hbad : ~ Forall (fun c => c <= 255) (JSON_stringify u) ->
                 createSessionToken u secret = Throw InvalidCharacterError).
  { intros H. unfold createSessionToken. rewrite (btoa_Throw _ H). reflexivity. }
  assert (Hgood : Forall (fun c => c <= 255) (JSON_stringify u) ->
                  createSessionToken u secret
                  = match secret with
                    | [] => Throw DataError
                    | _ :: _ =>
                        Ok (payloadB64_of u ++ dot
                              :: encode_bytes (signature_of u secret))
                    end).
  { intros H. apply latin1_octets in H. unfold createSessionToken.
    rewrite (btoa_octets _ H). cbn [rbind].
    destruct secret as [|c secret]; [reflexivity|].
    rewrite deriveHmacKey_nonempty
      by (rewrite TextEncoder_encode_nil; discriminate).
    cbn [rbind]. rewrite btoa_octets by apply hmac_sha256_octets.
    reflexivity. }
  split; [|split; [exact Hbad|]].
  - split.
    + intros [tok H].
      destruct (createSessionToken_Ok _ _ _ H) as (_ & Ho & Hk).
      split; [|apply latin1_octets, Ho].
      intros ->. apply Hk. reflexivity.
    + intros [Hs Hj]. rewrite (Hgood Hj).
      destruct secret; [congruence|eauto].
  - intros Hj. rewrite (Hgood Hj). destruct secret; split; congruence.
Qed.

(** X4: an issued token is the base64 text of the payload's JSON, a dot,
    and the base64 text of the signature: two segments, the first not
    empty and readable by [atob] without any key, the second of 44
    characters ending in '='; the token holds base64 characters and one
    dot only. *)
Theorem issued_token_shape u secret tok :
  createSessionToken u secret = Ok tok ->
  exists sg,
    tok = payloadB64_of u ++ dot :: sg
    /\ split_on dot tok = [payloadB64_of u; sg]
    /\ payloadB64_of u <> []
    /\ atob (payloadB64_of u) = Ok (JSON_stringify u)
    /\ length sg = 44%nat /\ last sg = Some pad
    /\ Forall (fun c => is_b64_char c = true) (payloadB64_of u ++ sg).
Proof.
  intros H. destruct (createSessionToken_Ok _ _ _ H) as (-> & Ho & Hk).
  exists (encode_bytes (signature_of u secret)).
  split; [reflexivity|]. split; [apply split_issued_token|].
  split; [apply payloadB64_of_nonempty|].
  split; [apply atob_encode_bytes, Ho|].
  split; [rewrite encode_bytes_length, signature_of_length; reflexivity|].
  split.
  - destruct (signature_shape (signature_of u secret))
      as (E & sx & s30 & a & b & _ & _ & _ & -> & _);
      [apply hmac_sha256_octets|apply signature_of_length|].
    change (E ++ [enc (a / 4); enc (a mod 4 * 16 + b / 16); enc (b mod 16 * 4); pad])
      with (E ++ [enc (a / 4); enc (a mod 4 * 16 + b / 16); enc (b mod 16 * 4)] ++ [pad]).
    rewrite app_assoc. apply last_snoc.
  - apply Forall_app. split; apply Forall_forall; intros c Hc;
      apply list_elem_of_In in Hc;
      [pose proof (encode_bytes_chars (JSON_stringify u)) as Hb
      |pose proof (encode_bytes_chars (signature_of u secret)) as Hb];
      rewrite forallb_forall in Hb; apply Hb, Hc.
Qed.

(** X5: whatever follows a second dot is not read: a token with two
    segments or more verifies the same with any further segment appended. *)
Theorem verify_ignores_further_segments token junk secret now :
  token_segments token <> None ->
  verifySessionToken (token ++ dot :: junk) secret now
  = verifySessionToken token secret now.
Proof.
  intros H. rewrite !verifySessionToken_segments.
  replace (token_segments (token ++ dot :: junk)) with (token_segments token);
    [reflexivity|].
  unfold token_segments in *. rewrite split_on_sep.
  destruct (split_on dot token) as [|p [|s r]]; try congruence. reflexivity.
Qed.

(** X6: a token issued under one secret is refused under another, unless
    the two keys give the payload segment the same HMAC. *)
Theorem verify_under_other_secret u secret other tok now :
  createSessionToken u secret = Ok tok ->
  hmac_sha256 (TextEncoder_encode other) (TextEncoder_encode (payloadB64_of u))
  <> signature_of u secret ->
  verifySessionToken tok other now = None.
Proof.
  intros H Hne. destruct (createSessionToken_Ok _ _ _ H) as (-> & Ho & Hk).
  rewrite verifySessionToken_segments.
  rewrite token_segments_two by apply encode_bytes_no_dot.
  apply verify_segments_bad_signature. intros x Hx.
  rewrite forgiving_decode_encode in Hx by apply hmac_sha256_octets.
  injection Hx as <-. congruence.
Qed.

(** X7: an issued token whose last four characters are replaced by four
    characters of the base64 alphabet ([token.slice(0, -4) + 'xxxx']) is
    refused: the signature segment then decodes to 33 octets, and an
    HMAC-SHA256 tag has 32. *)
Theorem last_four_replaced_refused u secret tok w now :
  createSessionToken u secret = Ok tok ->
  length w = 4%nat -> Forall (fun c => is_b64_alphabet c = true) w ->
  verifySessionToken (slice_drop_last 4 tok ++ w) secret now = None.
Proof.
  intros H Hlen Hw. destruct (createSessionToken_Ok _ _ _ H) as (-> & Ho & Hk).
  destruct (signature_shape (signature_of u secret))
    as (E & sx & s30 & a & b & Hsig & _ & _ & HE & Hsx & Hd & Hm);
    [apply hmac_sha256_octets|apply signature_of_length|].
  unfold slice_drop_last. rewrite HE.
  set (t := [enc (a / 4); enc (a mod 4 * 16 + b / 16); enc (b mod 16 * 4); pad]).
  replace (payloadB64_of u ++ dot :: E ++ t)
    with ((payloadB64_of u ++ dot :: E) ++ t)
    by (rewrite <- app_assoc; reflexivity).
  replace (length ((payloadB64_of u ++ dot :: E) ++ t) - 4)%nat
    with (length (payloadB64_of u ++ dot :: E))
    by (rewrite (length_app _ t); cbn [length t]; lia).
  rewrite take_app_length, <- app_assoc. cbn [app].
  rewrite verifySessionToken_segments.
  assert (Hwd : Forall (fun c => c <> dot) w).
  { eapply Forall_impl; [exact Hw|]. intros c. apply alphabet_not_dot. }
  rewrite token_segments_two;
    [|apply encode_bytes_no_dot
     |apply Forall_app; split; [eapply mapM_dec_no_dot; eauto|exact Hwd]].
  apply verify_segments_bad_signature. intros x Hx.
  rewrite (forgiving_decode_app _ _ _ Hsx Hm) in Hx.
  destruct w as [|x1 [|x2 [|x3 [|x4 [|? ?]]]]]; try discriminate Hlen.
  inversion_clear Hw as [|? ? H1 Hw1]. inversion_clear Hw1 as [|? ? H2 Hw2].
  inversion_clear Hw2 as [|? ? H3 Hw3]. inversion_clear Hw3 as [|? ? H4 _].
  unfold is_b64_alphabet in H1, H2, H3, H4.
  destruct (dec x1) as [v1|] eqn:E1; [|discriminate].
  destruct (dec x2) as [v2|] eqn:E2; [|discriminate].
  destruct (dec x3) as [v3|] eqn:E3; [|discriminate].
  destruct (dec x4) as [v4|] eqn:E4; [|discriminate].
  rewrite decode_quad in Hx by (eapply dec_not_whitespace; eauto).
  rewrite (dec_Some_not_pad _ _ E4), E1, E2, E3, E4 in Hx. cbn in Hx.
  injection Hx as <-. intros Heq.
  apply (f_equal (@length N)) in Heq.
  rewrite length_app, hmac_sha256_length in Heq. cbn [length] in Heq.
  assert (length (decode_sextets sx) = 30%nat).
  { rewrite Hd. apply (f_equal (@length N)) in Hsig.
    rewrite signature_of_length, length_app in Hsig. cbn [length] in Hsig. lia. }
  lia.
Qed.

End WithPlatform.
End IssuedTokenFacts.

(* ===================================================================== *)
(** ** Reading the session cookie *)
(* ===================================================================== *)

Module CookieReadFacts.
Import CookieFacts.

Lemma strip_prefix_Some p s rest : strip_prefix p s = Some rest -> s = p ++ rest.
Proof.
  revert s. induction p as [|a p IH]; intros s H.
  - cbn in H. injection H as <-. reflexivity.
  - destruct s as [|b s]; [discriminate H|]. cbn [strip_prefix] in H.
    destruct (N.eqb_spec a b) as [<-|]; [|discriminate H].
    cbn [app]. f_equal. apply IH, H.
Qed.

Lemma not_semicolon_run_spec s :
  Forall (fun c => c <> semicolon) (not_semicolon_run s)
  /\ exists post, s = not_semicolon_run s ++ post
                  /\ (post = [] \/ exists r, post = semicolon :: r).
Proof.
  induction s as [|c s (IH1 & post & IH2 & IH3)].
  - split; [constructor|]. exists []. split; [reflexivity|left; reflexivity].
  - cbn [not_semicolon_run]. destruct (N.eqb_spec c semicolon) as [->|Hc].
    + split; [constructor|]. exists (semicolon :: s).
      split; [reflexivity|right; eauto].
    + split; [constructor; assumption|]. exists post.
      split; [cbn [app]; f_equal; exact IH2|exact IH3].
Qed.

Lemma match_session_cookie_Some s v :
  match_session_cookie s = Some v ->
  v <> [] /\ Forall (fun c => c <> semicolon) v
  /\ exists pre post, s = pre ++ cookie_name_eq ++ v ++ post
                      /\ (post = [] \/ exists r, post = semicolon :: r).
Proof.
  induction s as [|c s IH]; [discriminate|].
  cbn [match_session_cookie].
  assert (Hrec : match_session_cookie s = Some v ->
    v <> [] /\ Forall (fun c => c <> semicolon) v
    /\ exists pre post, c :: s = pre ++ cookie_name_eq ++ v ++ post
                        /\ (post = [] \/ exists r, post = semicolon :: r)).
  { intros H. destruct (IH H) as (H1 & H2 & pre & post & -> & H3).
    split; [exact H1|]. split; [exact H2|]. exists (c :: pre), post.
    split; [reflexivity|exact H3]. }
  destruct (strip_prefix cookie_name_eq (c :: s)) as [rest|] eqn:E; [|exact Hrec].
  destruct (not_semicolon_run rest) as [|x run] eqn:Er; [exact Hrec|].
  intros [= <-]. apply strip_prefix_Some in E.
  destruct (not_semicolon_run_spec rest) as (Hrun & post & Hrest & Hpost).
  rewrite Er in Hrun, Hrest.
  split; [discriminate|]. split; [exact Hrun|]. exists [], post.
  split; [rewrite E, Hrest; reflexivity|exact Hpost].
Qed.

Lemma match_session_cookie_occurrence pre c post :
  c <> semicolon ->
  match_session_cookie (pre ++ cookie_name_eq ++ c :: post) <> None.
Proof.
  intros Hc. induction pre as [|x pre IH].
  - cbn [app].
    change (cookie_name_eq ++ c :: post)
      with (112 :: skipn 1 cookie_name_eq ++ c :: post).
    cbn [match_session_cookie].
    change (112 :: skipn 1 cookie_name_eq ++ c :: post)
      with (cookie_name_eq ++ c :: post).
    rewrite strip_prefix_app. cbn [not_semicolon_run].
    apply N.eqb_neq in Hc. rewrite Hc. discriminate.
  - cbn [app match_session_cookie].
    destruct (strip_prefix cookie_name_eq _) as [rest|]; [|exact IH].
    destruct (not_semicolon_run rest); [exact IH|discriminate].
Qed.

(** X8: what [extractSessionToken] returns is never empty, holds no ';',
    and stands in the header right after the text [poeclaw_session=], up
    to the next ';' or the end of the header. *)
Theorem extractSessionToken_returns_a_value header v :
  extractSessionToken header = Some v ->
  v <> [] /\ Forall (fun c => c <> semicolon) v
  /\ exists pre post, header = Some (pre ++ cookie_name_eq ++ v ++ post)
                      /\ (post = [] \/ exists r, post = semicolon :: r).
Proof.
  unfold extractSessionToken. destruct header as [[|c h]|]; try discriminate.
  intros H. destruct (match_session_cookie_Some _ _ H)
    as (H1 & H2 & pre & post & -> & H3).
  eauto 10.
Qed.

(** X9: [extractSessionToken] returns null exactly when every occurrence
    of the text [poeclaw_session=] in the header is followed by ';' or by
    the end of the header; a header that is missing gives null. *)
Theorem extractSessionToken_null_iff h :
  (extractSessionToken (Some h) = None
   <-> forall pre c post, h = pre ++ cookie_name_eq ++ c :: post -> c = semicolon)
  /\ extractSessionToken None = None.
Proof.
  split; [|reflexivity]. split.
  - intros H pre c post ->.
    destruct (N.eq_dec c semicolon) as [|Hc]; [assumption|exfalso].
    apply (match_session_cookie_occurrence pre c post Hc).
    unfold extractSessionToken in H.
    destruct (pre ++ cookie_name_eq ++ c :: post) eqn:E; [|exact H].
    destruct pre; discriminate E.
  - intros H. destruct (extractSessionToken (Some h)) as [v|] eqn:E; [|reflexivity].
    exfalso.
    assert (M : match_session_cookie h = Some v)
      by (destruct h; [discriminate E|exact E]).
    destruct (match_session_cookie_Some h v M)
      as (Hv & Hrun & pre & post & -> & _).
    destruct v as [|c v]; [congruence|].
    inversion_clear Hrun as [|? ? Hc _]. apply Hc.
    apply (H pre c (v ++ post)). reflexivity.
Qed.

(** The cookie that logout sets holds no token. *)
Example cleared_cookie_has_no_token :
  extractSessionToken (Some clearSessionCookie) = None.
Proof. vm_compute. reflexivity. Qed.

(** X10: the token put in the Set-Cookie value by [buildSessionCookie] is
    the one [extractSessionToken] reads back from it, and from the bare
    [poeclaw_session=<token>] pair a browser sends, exactly when the token
    is not empty and holds no ';'. *)
Theorem session_cookie_roundtrip token :
  (extractSessionToken (Some (buildSessionCookie token)) = Some token
   <-> token <> [] /\ Forall (fun c => c <> semicolon) token)
  /\ (extractSessionToken (Some (cookie_name_eq ++ token)) = Some token
      <-> token <> [] /\ Forall (fun c => c <> semicolon) token).
Proof.
  split; split.
  - intros H. destruct (match_session_cookie_Some (buildSessionCookie token) token)
      as (H1 & H2 & _); [|auto].
    destruct (buildSessionCookie token) eqn:E; [discriminate H|exact H].
  - intros [H1 H2].
    apply (extract_leftmost_cookie [] token
             (lit "; HttpOnly; Secure; SameSite=Lax; Max-Age=86400; Path=/"));
      [cbn [length]; lia|assumption|assumption|right; eexists; reflexivity].
  - intros H. destruct (match_session_cookie_Some (cookie_name_eq ++ token) token)
      as (H1 & H2 & _); [|auto].
    destruct (cookie_name_eq ++ token) eqn:E; [discriminate H|exact H].
  - intros [H1 H2].
    pose proof (extract_leftmost_cookie [] token [] ltac:(cbn [length]; lia)
                  H1 H2 (or_introl eq_refl)) as H.
    rewrite app_nil_r in H. exact H.
Qed.

End CookieReadFacts.

(* ===================================================================== *)
(** ** The stored key: nonce and key import *)
(* ===================================================================== *)

Module CodecMoreFacts.
Import Base64Facts StringFacts CodecFacts.

Section WithPlatform.
Context {P : Platform}.

(** The key import accepts the padded secret exactly when its 32 code
    units are ASCII. *)
Lemma importKey_aes_aesKeyData_iff k :
  (exists key, importKey_aes (aesKeyData k) = Ok key)
  <-> ascii_only (slice_to 32 (padEnd 32 48 k)).
Proof.
  split.
  - intros [key H]. apply importKey_aes_Ok in H. destruct H as [_ H].
    unfold aesKeyData in H.
    destruct (TextEncoder_encode_length (slice_to 32 (padEnd 32 48 k))) as [Hge Heq].
    pose proof (padEnd_slice_length k). apply Heq. lia.
  - intros H. exists (aesKeyData k). apply importKey_aes_32.
    unfold aesKeyData. rewrite TextEncoder_encode_ascii by exact H.
    apply padEnd_slice_length.
Qed.

Lemma importKey_aes_Throw raw e : importKey_aes raw = Throw e -> e = DataError.
Proof.
  unfold importKey_aes. destruct (_ || _); [discriminate|]. intros [= <-].
  reflexivity.
Qed.

(** X11: the blob [encryptApiKey] returns is the base64 text of the nonce
    followed by the sealed key, so the nonce can be read off it, and two
    calls that draw different nonces never return the same blob. *)
Theorem encrypted_blob_carries_nonce p k iv blob :
  encryptApiKey p k iv = Ok blob ->
  (exists sealed, atob blob = Ok (iv ++ sealed))
  /\ (forall p' k' iv',
        length iv' = length iv -> encryptApiKey p' k' iv' = Ok blob -> iv' = iv).
Proof.
  assert (A : forall p k iv blob, encryptApiKey p k iv = Ok blob ->
                exists sealed, atob blob = Ok (iv ++ sealed)).
  { clear. intros p k iv blob. unfold encryptApiKey.
    destruct (importKey_aes (aesKeyData k)) as [key|]; [|discriminate].
    cbn [rbind]. intros H. apply atob_btoa in H. eauto. }
  intros H. split; [exact (A _ _ _ _ H)|].
  intros p' k' iv' Hlen H'.
  destruct (A _ _ _ _ H) as [s E], (A _ _ _ _ H') as [s' E'].
  rewrite E in E'. injection E' as E'.
  symmetry. exact (proj1 (app_inj_1 iv iv' s s' (eq_sym Hlen) E')).
Qed.

Context {L : PlatformLaws P}.

(** X12: with a 12-octet nonce, [encryptApiKey] returns a blob exactly
    when the first 32 code units of the padded secret are ASCII; with a
    character beyond ASCII among them the padded secret encodes to more
    than 32 octets and both [encryptApiKey] and [decryptApiKey] throw
    DataError, whatever they are given. *)
Theorem codec_needs_ascii_secret p k iv blob :
  (length iv = 12%nat -> octets iv ->
   ((exists b, encryptApiKey p k iv = Ok b)
    <-> ascii_only (slice_to 32 (padEnd 32 48 k))))
  /\ (~ ascii_only (slice_to 32 (padEnd 32 48 k)) ->
      encryptApiKey p k iv = Throw DataError
      /\ decryptApiKey blob k = Throw DataError).
Proof.
  split.
  - intros Hlen Hiv. split.
    + intros [b H]. apply importKey_aes_aesKeyData_iff.
      unfold encryptApiKey in H.
      destruct (importKey_aes (aesKeyData k)) as [key|]; [eauto|discriminate].
    + intros H. apply importKey_aes_aesKeyData_iff in H. destruct H as [key H].
      apply importKey_aes_Ok in H.
      assert (H32 : length (aesKeyData k) = 32%nat).
      { destruct H as [_ H]. unfold aesKeyData in *.
        destruct (TextEncoder_encode_length (slice_to 32 (padEnd 32 48 k))) as [Hge _].
        pose proof (padEnd_slice_length k). lia. }
      rewrite encryptApiKey_Ok by assumption. eauto.
  - intros H.
    assert (E : importKey_aes (aesKeyData k) = Throw DataError).
    { destruct (importKey_aes (aesKeyData k)) as [key|e] eqn:E.
      - exfalso. apply H, importKey_aes_aesKeyData_iff. eauto.
      - apply importKey_aes_Throw in E. subst e. reflexivity. }
    unfold encryptApiKey, decryptApiKey. rewrite E. split; reflexivity.
Qed.

End WithPlatform.
End CodecMoreFacts.

(* ===================================================================== *)
(** ** The rate limiter's map *)
(* ===================================================================== *)

Module LimiterFacts.
Import RateLimitFacts.

(** The answer to a call, and the entry it leaves for its address, depend
    on the entry of that address only. *)
Lemma checkRateLimit_local (ip : jsstring) (now : Z)
    (m1 m2 : gmap jsstring Attempt) :
  m1 !! ip = m2 !! ip ->
  fst (checkRateLimit ip now m1) = fst (checkRateLimit ip now m2)
  /\ snd (checkRateLimit ip now m1) !! ip = snd (checkRateLimit ip now m2) !! ip.
Proof.
  intros H. unfold checkRateLimit. rewrite H.
  destruct (m2 !! ip) as [e|] eqn:E; cbn [fst snd];
    [|rewrite !lookup_insert_eq; auto].
  destruct (now >? resetAt e)%Z; cbn [fst snd];
    [rewrite !lookup_insert_eq; auto|].
  destruct (count e >=? MAX_ATTEMPTS)%Z; cbn [fst snd];
    [|rewrite !lookup_insert_eq; auto].
  split; [reflexivity|congruence].
Qed.

Lemma check_all_local (ip : jsstring) (times : list Z)
    (m1 m2 : gmap jsstring Attempt) :
  m1 !! ip = m2 !! ip ->
  fst (check_all ip times m1) = fst (check_all ip times m2).
Proof.
  revert m1 m2. induction times as [|t times IH]; intros m1 m2 H; [reflexivity|].
  cbn [check_all]. destruct (checkRateLimit_local ip t m1 m2 H) as [Hb Hm].
  destruct (checkRateLimit ip t m1) as [b1 m1'], (checkRateLimit ip t m2) as [b2 m2'].
  cbn [fst snd] in Hb, Hm. subst b2. specialize (IH m1' m2' Hm).
  destruct (check_all ip times m1'), (check_all ip times m2').
  cbn [fst] in *. congruence.
Qed.

(** With [k] attempts left in the window, the next calls within it get
    [k] times yes and then no. *)
Lemma check_all_remaining (ip : jsstring) (times : list Z)
    (m : gmap jsstring Attempt) (k : nat) (r : Z) :
  m !! ip = Some (mkAttempt (MAX_ATTEMPTS - Z.of_nat k) r) ->
  Forall (fun t => (t <= r)%Z) times ->
  fst (check_all ip times m)
  = repeat true (min k (length times)) ++ repeat false (length times - k).
Proof.
  intros Hm Ht. revert m k Hm.
  induction Ht as [|t times Ht _ IH]; intros m k Hm; [destruct k; reflexivity|].
  cbn [check_all length]. destruct k as [|k].
  - rewrite (checkRateLimit_refuses ip t m _ r Hm Ht) by lia.
    specialize (IH m 0%nat Hm).
    destruct (check_all ip times m) as [bs m2]. cbn [fst] in *.
    rewrite IH. cbn. rewrite Nat.sub_0_r. reflexivity.
  - rewrite (checkRateLimit_counts ip t m _ r Hm Ht) by lia.
    specialize (IH (<[ip := mkAttempt (MAX_ATTEMPTS - Z.of_nat (S k) + 1) r]> m) k).
    rewrite lookup_insert_eq in IH.
    specialize (IH ltac:(do 2 f_equal; lia)).
    destruct (check_all ip times _) as [bs m2]. cbn [fst] in *.
    rewrite IH. reflexivity.
Qed.

(** X13: one call of [checkRateLimit] touches the entry of its own address
    only, never removes an entry, leaves the map as it was when it
    refuses, and keeps every count between 1 and the limit of 10. *)
Theorem checkRateLimit_keeps_the_map (ip : jsstring) (now : Z)
    (m : gmap jsstring Attempt) :
  let answer := fst (checkRateLimit ip now m) in
  let m' := snd (checkRateLimit ip now m) in
  (forall ip', ip' <> ip -> m' !! ip' = m !! ip')
  /\ (forall ip', is_Some (m !! ip') -> is_Some (m' !! ip'))
  /\ is_Some (m' !! ip)
  /\ (answer = false -> m' = m)
  /\ (counts_bounded m -> counts_bounded m').
Proof.
  cbv zeta. unfold checkRateLimit.
  assert (F : forall c r (m0 : gmap jsstring Attempt),
            (forall ip', ip' <> ip -> <[ip := mkAttempt c r]> m0 !! ip' = m0 !! ip')
            /\ (forall ip', is_Some (m0 !! ip') ->
                            is_Some (<[ip := mkAttempt c r]> m0 !! ip'))
            /\ is_Some (<[ip := mkAttempt c r]> m0 !! ip)
            /\ ((1 <= c <= MAX_ATTEMPTS)%Z -> counts_bounded m0 ->
                counts_bounded (<[ip := mkAttempt c r]> m0))).
  { intros c r m0. split; [intros ip' Hne; apply lookup_insert_ne; congruence|].
    split.
    - intros ip' H. destruct (decide (ip' = ip)) as [->|Hne];
        [rewrite lookup_insert_eq; eauto|rewrite lookup_insert_ne by congruence; exact H].
    - split; [rewrite lookup_insert_eq; eauto|].
      intros Hc Hb ip' e. destruct (decide (ip' = ip)) as [->|Hne].
      + rewrite lookup_insert_eq. intros [= <-]. exact Hc.
      + rewrite lookup_insert_ne by congruence. apply Hb. }
  destruct (m !! ip) as [e|] eqn:E; cbn [fst snd].
  - destruct (Z.gtb_spec now (resetAt e)); cbn [fst snd].
    + destruct (F 1%Z (now + WINDOW_MS)%Z m) as (F1 & F2 & F3 & F4).
      split; [exact F1|]. split; [exact F2|]. split; [exact F3|].
      split; [discriminate|]. apply F4. unfold MAX_ATTEMPTS. lia.
    + destruct (Z.geb_spec (count e) MAX_ATTEMPTS); cbn [fst snd].
      * split; [reflexivity|]. split; [auto|]. split; [rewrite E; eauto|].
        split; auto.
      * destruct (F (count e + 1)%Z (resetAt e) m) as (F1 & F2 & F3 & F4).
        split; [exact F1|]. split; [exact F2|]. split; [exact F3|].
        split; [discriminate|].
        intros Hb. apply F4; [|exact Hb]. specialize (Hb ip e E). lia.
  - destruct (F 1%Z (now + WINDOW_MS)%Z m) as (F1 & F2 & F3 & F4).
    split; [exact F1|]. split; [exact F2|]. split; [exact F3|].
    split; [discriminate|]. apply F4. unfold MAX_ATTEMPTS. lia.
Qed.

(** X14: from an address with no live entry, however many calls are made
    within the 60 second window after the first, the first ten are let
    through and every later one is refused. *)
Theorem at_most_ten_in_a_window (ip : jsstring) (t0 : Z) (times : list Z)
    (m : gmap jsstring Attempt) :
  (m !! ip = None \/ exists e, m !! ip = Some e /\ (resetAt e < t0)%Z) ->
  Forall (fun t => (t <= t0 + WINDOW_MS)%Z) times ->
  fst (check_all ip (t0 :: times) m)
  = repeat true (min 10 (S (length times)))
      ++ repeat false (S (length times) - 10).
Proof.
  intros Hfresh Ht. cbn [check_all].
  rewrite (checkRateLimit_fresh ip t0 m Hfresh).
  pose proof (check_all_remaining ip times
                (<[ip := mkAttempt 1 (t0 + WINDOW_MS)]> m) 9 (t0 + WINDOW_MS)%Z
                (lookup_insert_eq _ _ _) Ht) as H.
  destruct (check_all ip times _) as [bs m2]. cbn [fst] in *. rewrite H.
  reflexivity.
Qed.

(** X15: calls from other addresses, interleaved in any way, do not
    change the answers an address gets: they are the answers it would
    get if its calls were the only ones. *)
Theorem limiter_isolates_addresses (ip : jsstring) (calls : list (jsstring * Z))
    (m : gmap jsstring Attempt) :
  answers_to ip calls (fst (check_calls calls m))
  = fst (check_all ip (times_of ip calls) m).
Proof.
  revert m. induction calls as [|[a t] calls IH]; intros m; [reflexivity|].
  cbn [check_calls]. specialize (IH (snd (checkRateLimit a t m))).
  destruct (checkRateLimit a t m) as [b m1] eqn:E. cbn [snd] in IH.
  destruct (check_calls calls m1) as [bs m2]. cbn [fst] in *.
  unfold times_of. cbn [answers_to omap list_omap fst snd].
  fold (times_of ip calls).
  destruct (decide (a = ip)) as [->|Hne].
  - rewrite !bool_decide_eq_true_2 by reflexivity. cbn [check_all].
    rewrite E. rewrite IH.
    destruct (check_all ip (times_of ip calls) m1). reflexivity.
  - rewrite !bool_decide_eq_false_2 by exact Hne. rewrite IH.
    apply check_all_local.
    pose proof (checkRateLimit_other a ip t m Hne) as H. rewrite E in H.
    exact H.
Qed.

End LimiterFacts.

(* ===================================================================== *)
(** ** Trimming *)
(* ===================================================================== *)

Module TrimFacts.

Lemma trim_start_spec s :
  exists ws, s = ws ++ trim_start s
             /\ Forall (fun c => js_space c = true) ws
             /\ (trim_start s = []
                 \/ exists c r, trim_start s = c :: r /\ js_space c = false).
Proof.
  induction s as [|c s (ws & IH1 & IH2 & IH3)].
  - exists []. split; [reflexivity|]. split; [constructor|left; reflexivity].
  - cbn [trim_start]. destruct (js_space c) eqn:E.
    + exists (c :: ws). split; [cbn [app]; f_equal; exact IH1|].
      split; [constructor; assumption|exact IH3].
    + exists []. split; [reflexivity|]. split; [constructor|right; eauto].
Qed.

Lemma trim_start_spaces ws s :
  Forall (fun c => js_space c = true) ws -> trim_start (ws ++ s) = trim_start s.
Proof.
  induction 1 as [|c ws Hc _ IH]; [reflexivity|].
  cbn [app trim_start]. rewrite Hc. exact IH.
Qed.

Lemma trim_start_keeps c r : js_space c = false -> trim_start (c :: r) = c :: r.
Proof. intros H. cbn [trim_start]. rewrite H. reflexivity. Qed.

(** [s.trim()] is empty exactly when [s] is white space throughout. *)
Lemma trim_nil_iff s : trim s = [] <-> Forall (fun c => js_space c = true) s.
Proof.
  unfold trim. split.
  - intros H. apply (f_equal (@rev N)) in H. rewrite rev_involutive in H.
    cbn [rev] in H.
    destruct (trim_start_spec (rev (trim_start s))) as (ws & E & Hws & _).
    rewrite H, app_nil_r in E.
    destruct (trim_start_spec s) as (ws' & E' & Hws' & [Hn|(c & r & Hc & Hs)]).
    + rewrite Hn, app_nil_r in E'. subst s. exact Hws'.
    + exfalso. rewrite Hc in E. cbn [rev] in E.
      assert (Hin : c ∈ ws) by (rewrite <- E; set_solver).
      rewrite Forall_forall in Hws. specialize (Hws c Hin). congruence.
  - intros H. pose proof (trim_start_spaces s [] H) as E.
    rewrite app_nil_r in E. rewrite E. reflexivity.
Qed.

(** What [s.trim()] returns does not begin with white space. *)
Lemma trim_head s c r : trim s = c :: r -> js_space c = false.
Proof.
  unfold trim. intros H.
  apply (f_equal (@rev N)) in H. rewrite rev_involutive in H. cbn [rev] in H.
  destruct (trim_start_spec (rev (trim_start s))) as (ws & E & _ & _).
  rewrite H in E. apply (f_equal (@rev N)) in E.
  rewrite rev_involutive, !rev_app_distr, rev_involutive in E. cbn [rev app] in E.
  destruct (trim_start_spec s) as (_ & _ & _ & [Hn|(c' & r' & Hc & Hs)]).
  - rewrite Hn in E. discriminate E.
  - rewrite Hc in E. injection E as -> _. exact Hs.
Qed.

(** Trimming removes the white space around a text that has none. *)
Lemma trim_surrounded pre mid post :
  Forall (fun c => js_space c = true) pre ->
  Forall (fun c => js_space c = true) post ->
  mid <> [] -> Forall (fun c => js_space c = false) mid ->
  trim (pre ++ mid ++ post) = mid.
Proof.
  intros Hpre Hpost Hne Hmid. unfold trim.
  rewrite (trim_start_spaces pre _ Hpre).
  destruct mid as [|c mid]; [congruence|].
  inversion Hmid as [|? ? Hc Hmid']; subst.
  cbn [app]. rewrite (trim_start_keeps c _ Hc).
  change (c :: mid ++ post) with ((c :: mid) ++ post).
  rewrite rev_app_distr.
  rewrite trim_start_spaces by (apply Forall_rev, Hpost).
  assert (Hl : exists d l, rev (c :: mid) = d :: l /\ js_space d = false).
  { destruct (rev (c :: mid)) as [|d l] eqn:E.
    - apply (f_equal (@length N)) in E. rewrite length_rev in E. discriminate E.
    - exists d, l. split; [reflexivity|].
      assert (Hin : d ∈ c :: mid).
      { apply list_elem_of_In, in_rev. rewrite E. left. reflexivity. }
      rewrite Forall_forall in Hmid. exact (Hmid d Hin). }
  destruct Hl as (d & l & E & Hd). rewrite E, (trim_start_keeps d l Hd), <- E.
  apply rev_involutive.
Qed.

End TrimFacts.

(* ===================================================================== *)
(** ** The login handler *)
(* ===================================================================== *)

Module LoginFacts.
Import Base64Facts StringFacts CodecFacts TokenFacts TrimFacts.

Section WithPlatform.
Context {P : Platform}.

(** What a login answered 200 went through. *)
Lemma login_200_inv validate env req now iv st :
  status_of (fst (login validate env req now iv st)) = Some 200%Z ->
  exists raw apiKey sessionSecret encryptionSecret token blob,
    body_apiKey req = Some raw /\ apiKey = trim raw /\ apiKey <> []
    /\ fst (checkRateLimit (client_ip req) now (loginAttempts st)) = true
    /\ valid (validate apiKey) = true
    /\ SESSION_SECRET env = Some sessionSecret /\ sessionSecret <> []
    /\ ENCRYPTION_SECRET env = Some encryptionSecret /\ encryptionSecret <> []
    /\ createSessionToken
         (mkPoeSessionUser (hashApiKey apiKey) (slice_last 4 apiKey)
                           (default [] (v_models (validate apiKey))) now)
         sessionSecret = Ok token
    /\ encryptApiKey apiKey encryptionSecret iv = Ok blob
    /\ fst (login validate env req now iv st)
       = Json 200 (LoginJson (hashApiKey apiKey) (slice_last 4 apiKey)
                             (v_models (validate apiKey)))
              (Some (buildSessionCookie token))
    /\ sandbox_exec (snd (login validate env req now iv st))
       = (hashApiKey apiKey, store_key_command blob) :: sandbox_exec st.
Proof.
  unfold login. destruct (checkRateLimit _ _ _) as [allowed attempts].
  destruct allowed; cbn [negb fst snd]; [|discriminate].
  unfold body_apiKey.
  destruct (body req) as [| |[[|raw|]|]]; cbn [read_apiKey]; try discriminate.
  destruct (trim raw) as [|c apiKey] eqn:Et; [discriminate|].
  destruct (valid (validate (c :: apiKey))) eqn:Ev; cbn [negb]; [|discriminate].
  destruct (SESSION_SECRET env) as [[|s1 ss]|]; try discriminate.
  destruct (ENCRYPTION_SECRET env) as [[|e1 es]|]; try discriminate.
  destruct (createSessionToken _ _) as [token|] eqn:Ec; [|discriminate].
  destruct (encryptApiKey _ _ _) as [blob|] eqn:Ee; [|discriminate].
  intros _. cbn [fst snd sandbox_exec].
  exists raw, (c :: apiKey), (s1 :: ss), (e1 :: es), token, blob.
  repeat split; try reflexivity; try assumption; try discriminate.
  symmetry. exact Et.
Qed.

(** X16: a login always charges the limiter, whatever it then answers;
    unless it answers 200 it sets no cookie and runs nothing in any
    sandbox; when it answers 200 it has run one command, the stored-key
    command of the encrypted trimmed key, in the sandbox named by the
    key's hash, and the cookie carries a token issued for that hash, the
    key's last four characters and the time of the call. *)
Theorem login_effects validate env req now iv st :
  let answer := fst (login validate env req now iv st) in
  let st' := snd (login validate env req now iv st) in
  loginAttempts st'
  = snd (checkRateLimit (client_ip req) now (loginAttempts st))
  /\ (status_of answer <> Some 200%Z ->
      sandbox_exec st' = sandbox_exec st /\ set_cookie_of answer = None)
  /\ (status_of answer = Some 200%Z ->
      exists raw token blob encryptionSecret sessionSecret,
        body_apiKey req = Some raw
        /\ valid (validate (trim raw)) = true
        /\ ENCRYPTION_SECRET env = Some encryptionSecret
        /\ encryptApiKey (trim raw) encryptionSecret iv = Ok blob
        /\ sandbox_exec st'
           = (hashApiKey (trim raw), store_key_command blob) :: sandbox_exec st
        /\ SESSION_SECRET env = Some sessionSecret
        /\ createSessionToken
             (mkPoeSessionUser (hashApiKey (trim raw)) (slice_last 4 (trim raw))
                (default [] (v_models (validate (trim raw)))) now)
             sessionSecret = Ok token
        /\ set_cookie_of answer = Some (buildSessionCookie token)).
Proof.
  cbv zeta. split; [|split].
  - unfold login. destruct (checkRateLimit _ _ _) as [allowed attempts].
    cbn [snd]. destruct allowed; cbn [negb]; [|reflexivity].
    destruct (read_apiKey (body req)) as [[[|c apiKey]|]|]; try reflexivity.
    destruct (valid _); cbn [negb]; [|reflexivity].
    destruct (SESSION_SECRET env) as [[|s1 ss]|]; try reflexivity.
    destruct (ENCRYPTION_SECRET env) as [[|e1 es]|]; try reflexivity.
    destruct (createSessionToken _ _); [|reflexivity].
    destruct (encryptApiKey _ _ _); reflexivity.
  - unfold login. destruct (checkRateLimit _ _ _) as [allowed attempts].
    destruct allowed; cbn [negb fst snd]; [|auto].
    destruct (read_apiKey (body req)) as [[[|c apiKey]|]|]; try (cbn; auto).
    destruct (valid _); cbn [negb]; [|cbn; auto].
    destruct (SESSION_SECRET env) as [[|s1 ss]|]; try (cbn; auto).
    destruct (ENCRYPTION_SECRET env) as [[|e1 es]|]; try (cbn; auto).
    destruct (createSessionToken _ _); [|cbn; auto].
    destruct (encryptApiKey _ _ _); cbn; [congruence|auto].
  - intros H.
    destruct (login_200_inv _ _ _ _ _ _ H)
      as (raw & apiKey & ss & es & token & blob & Hb & -> & _ & _ & Hv
          & Hs & _ & He & _ & Hc & Hk & Ha & Hx).
    exists raw, token, blob, es, ss. rewrite Ha. cbn [set_cookie_of].
    repeat split; assumption.
Qed.

(** X17: [login] answers 400 "API key is required" exactly when the
    limiter lets the attempt through and the body is no JSON text, or a
    JSON value other than null with no [apiKey], with null for it, or
    with a string that is white space throughout (the empty string
    included).  Where the limiter lets the attempt through and the body
    is null, or its [apiKey] is a number, a boolean, an array or an
    object, reading the key throws and the answer is the 500 of the
    framework. *)
Theorem login_requires_a_key validate env req now iv st :
  (fst (login validate env req now iv st)
   = Json 400 (ErrorJson (lit "API key is required") None) None
   <-> fst (checkRateLimit (client_ip req) now (loginAttempts st)) = true
       /\ (body req = NotJson
           \/ body req = JsonValue None
           \/ body req = JsonValue (Some JNull)
           \/ exists raw, body req = JsonValue (Some (JString raw))
                          /\ Forall (fun c => js_space c = true) raw))
  /\ (fst (checkRateLimit (client_ip req) now (loginAttempts st)) = true ->
      body req = JsonNull \/ body req = JsonValue (Some JOther) ->
      fst (login validate env req now iv st) = internal_error).
Proof.
  unfold login. destruct (checkRateLimit _ _ _) as [allowed attempts].
  destruct allowed; cbn [negb fst];
    [|split; [split; [discriminate|intros [? _]; discriminate]|discriminate]].
  destruct (body req) as [| |[[|raw|]|]]; cbn [read_apiKey].
  - split; [split; auto|]. intros _ [H|H]; discriminate H.
  - split; [|reflexivity]. split; [discriminate|].
    intros [_ [H|[H|[H|(raw & H & _)]]]]; discriminate H.
  - split; [split; auto|]. intros _ [H|H]; discriminate H.
  - split; [|intros _ [H|H]; discriminate H].
    destruct (trim raw) as [|c apiKey] eqn:Et.
    + split; [|reflexivity]. intros _. split; [reflexivity|].
      do 3 right. exists raw. split; [reflexivity|]. apply trim_nil_iff, Et.
    + split.
      * destruct (valid _); cbn [negb]; [|discriminate].
        destruct (SESSION_SECRET env) as [[|s1 ss]|]; try discriminate.
        destruct (ENCRYPTION_SECRET env) as [[|e1 es]|]; try discriminate.
        destruct (createSessionToken _ _); [|discriminate].
        destruct (encryptApiKey _ _ _); discriminate.
      * intros [_ [H|[H|[H|(raw' & [= <-] & H)]]]]; try discriminate H.
        apply trim_nil_iff in H. congruence.
  - split; [|reflexivity]. split; [discriminate|].
    intros [_ [H|[H|[H|(raw & H & _)]]]]; discriminate H.
  - split; [split; auto|]. intros _ [H|H]; discriminate H.
Qed.

Context {L : PlatformLaws P}.

(** X18: the login to /me flow.  The cookie of a login answered 200,
    sent back as it was set or as the bare [poeclaw_session=<token>]
    pair, makes /me answer 200 with the user hash, the last four
    characters and the models of the login, until 24 hours after the
    login, and 401 from then on; given that [JSON.parse] reads back the
    session payload that [JSON.stringify] wrote. *)
Theorem login_then_me validate env req now iv st uh k4 ms cookie :
  fst (login validate env req now iv st)
  = Json 200 (LoginJson uh k4 ms) (Some cookie) ->
  JSON_parse (JSON_stringify (mkPoeSessionUser uh k4 (default [] ms) now))
  = Some (mkPoeSessionUser uh k4 (default [] ms) now) ->
  exists token,
    cookie = buildSessionCookie token
    /\ forall req' now',
         header_Cookie req' = Some cookie
         \/ header_Cookie req' = Some (cookie_name_eq ++ token) ->
         me env req' now'
         = if (now' - now >? SESSION_MAX_AGE_MS)%Z then me_unauthenticated
           else Json 200 (MeAuthenticated uh k4 (default [] ms)) None.
Proof.
  intros H HJ.
  destruct (login_200_inv validate env req now iv st)
    as (raw & apiKey & ss & es & token & blob & Hb & -> & _ & _ & Hv
        & Hs & Hsne & He & _ & Hc & Hk & Ha & Hx);
    [rewrite H; reflexivity|].
  rewrite H in Ha. injection Ha as -> -> -> ->.
  exists token. split; [reflexivity|]. intros req' now' Hreq.
  assert (Hx' : extractSessionToken (header_Cookie req') = Some token).
  { destruct (IssuedTokenFacts.issued_token_cookie_safe _ _ _ Hc) as (Hne & Hsemi).
    destruct Hreq as [-> | ->].
    - apply CookieFacts.extract_leftmost_cookie with (pre := [])
        (post := lit "; HttpOnly; Secure; SameSite=Lax; Max-Age=86400; Path=/");
        [cbn [length]; lia|assumption|assumption|right; eexists; reflexivity].
    - pose proof (CookieFacts.extract_leftmost_cookie [] token []
                    ltac:(cbn [length]; lia) Hne Hsemi (or_introl eq_refl)) as E.
      rewrite app_nil_r in E. exact E. }
  unfold me. rewrite Hs, Hx'.
  destruct ss as [|s1 ss]; [congruence|].
  destruct token as [|t1 token]; [exfalso|].
  { apply createSessionToken_Ok in Hc. destruct Hc as (Hc & _).
    destruct (payloadB64_of _); discriminate Hc. }
  rewrite (verify_issued_token _ _ _ now' Hc), HJ. cbn [createdAt].
  destruct (now' - now >? SESSION_MAX_AGE_MS)%Z; reflexivity.
Qed.

End WithPlatform.
End LoginFacts.

(* ===================================================================== *)
(** ** The attributes of the session cookie *)
(* ===================================================================== *)

Module CookieAttributeFacts.
Import StringFacts TokenFacts IssuedTokenFacts.

(** X30: cut at its semicolons, the Set-Cookie value of a token that holds
    no ';' is the pair [poeclaw_session=<token>] followed by the five
    attributes HttpOnly, Secure, SameSite=Lax, Max-Age=86400 and Path=/,
    and nothing else: the token cannot add an attribute; and the Max-Age
    of 86400 seconds is the 24 hours after which [verifySessionToken]
    refuses the token. *)
Theorem session_cookie_attributes token :
  Forall (fun c => c <> semicolon) token ->
  split_on semicolon (buildSessionCookie token)
  = [cookie_name_eq ++ token; lit " HttpOnly"; lit " Secure";
     lit " SameSite=Lax"; lit " Max-Age=86400"; lit " Path=/"]
  /\ (86400 * 1000 = SESSION_MAX_AGE_MS)%Z.
Proof.
  intros H. split; [|reflexivity]. unfold buildSessionCookie.
  change (lit "; HttpOnly; Secure; SameSite=Lax; Max-Age=86400; Path=/")
    with (semicolon :: lit " HttpOnly; Secure; SameSite=Lax; Max-Age=86400; Path=/").
  rewrite app_assoc. rewrite split_on_app.
  - f_equal.
  - apply Forall_app. split; [|exact H].
    apply Forall_forall. intros c Hc. apply list_elem_of_In in Hc.
    vm_compute in Hc. intros ->.
    repeat (destruct Hc as [Hc|Hc]; [discriminate Hc|]). exact Hc.
Qed.

End CookieAttributeFacts.

(* ===================================================================== *)
(** ** The session gate, /me and login together *)
(* ===================================================================== *)

Module GateMoreFacts.
Import Base64Facts StringFacts CodecFacts TokenFacts GateFacts LoginFacts.

Section WithPlatform.
Context {P : Platform}.

(** What the gate does outside dev mode with a secret set. *)
Lemma session_middleware_verified env req now u :
  DEV_MODE env <> Some (lit "true") ->
  session_verified env req now u ->
  session_middleware env req now = Next (userHash u) (Some u).
Proof.
  intros Hd (secret & token & Hs & Ht & Hv). unfold session_middleware.
  rewrite (bool_decide_eq_false_2 _ Hd), Hs, Ht.
  destruct secret as [|c secret]; [rewrite verify_empty_secret in Hv; discriminate|].
  destruct token as [|c' token]; [cbn in Hv; discriminate|].
  rewrite Hv. reflexivity.
Qed.

Lemma session_middleware_Next env req now sandbox user :
  session_middleware env req now = Next sandbox user ->
  (DEV_MODE env = Some (lit "true") /\ sandbox = lit "dev-user" /\ user = None)
  \/ (DEV_MODE env <> Some (lit "true")
      /\ exists u, user = Some u /\ sandbox = userHash u
                   /\ session_verified env req now u).
Proof.
  unfold session_middleware.
  destruct (decide (DEV_MODE env = Some (lit "true"))) as [Hd|Hd].
  - rewrite (bool_decide_eq_true_2 _ Hd). intros [= <- <-]. left. auto.
  - rewrite (bool_decide_eq_false_2 _ Hd). intros H. right. split; [exact Hd|].
    destruct (SESSION_SECRET env) as [[|c secret]|] eqn:Es; try discriminate H.
    destruct (extractSessionToken (header_Cookie req)) as [[|c' token]|] eqn:Et;
      try (destruct (accepts_html req); discriminate H).
    destruct (verifySessionToken _ _ _) as [u|] eqn:Ev;
      [|destruct (accepts_html req); discriminate H].
    injection H as <- <-. exists u. split; [reflexivity|]. split; [reflexivity|].
    exists (c :: secret), (c' :: token). auto.
Qed.

(** X19: the gate hands a request on in two cases only: in dev mode
    ([DEV_MODE] exactly "true"), every request, to the sandbox "dev-user"
    and with no user, cookie or not, secret or not; outside dev mode, a
    request whose session cookie verifies, to the sandbox named by the
    user hash of the verified session and with that session as user. *)
Theorem gate_hands_on_exactly env req now sandbox user :
  session_middleware env req now = Next sandbox user
  <-> (DEV_MODE env = Some (lit "true") /\ sandbox = lit "dev-user"
       /\ user = None)
      \/ (DEV_MODE env <> Some (lit "true")
          /\ exists u, user = Some u /\ sandbox = userHash u
                       /\ session_verified env req now u).
Proof.
  split; [apply session_middleware_Next|].
  intros [(Hd & -> & ->)|(Hd & u & -> & -> & Hv)].
  - unfold session_middleware. rewrite (bool_decide_eq_true_2 _ Hd). reflexivity.
  - apply session_middleware_verified; assumption.
Qed.

(** X20: outside dev mode the gate and /me decide alike: a request the
    gate hands on as a user gets that user's data from /me with 200, and
    a request /me answers 200 is handed on by the gate, to the sandbox of
    the user hash /me reports. *)
Theorem gate_agrees_with_me env req now :
  DEV_MODE env <> Some (lit "true") ->
  (forall sandbox user,
      session_middleware env req now = Next sandbox user ->
      exists u, user = Some u /\ sandbox = userHash u
                /\ me env req now = me_authenticated u)
  /\ (forall status uh k4 ms cookie,
        me env req now = Json status (MeAuthenticated uh k4 ms) cookie ->
        exists u, session_middleware env req now = Next uh (Some u)
                  /\ uh = userHash u /\ k4 = keyLast4 u /\ ms = models u).
Proof.
  intros Hd.
  assert (M : forall u, session_verified env req now u ->
                        me env req now = me_authenticated u).
  { intros u (secret & token & Hs & Ht & Hv). unfold me. rewrite Hs, Ht.
    destruct secret as [|c secret]; [rewrite verify_empty_secret in Hv; discriminate|].
    destruct token as [|c' token]; [cbn in Hv; discriminate|].
    rewrite Hv. reflexivity. }
  split.
  - intros sandbox user H. apply session_middleware_Next in H.
    destruct H as [(Hd' & _)|(_ & u & -> & -> & Hv)]; [congruence|].
    exists u. auto.
  - intros status uh k4 ms cookie H. unfold me in H.
    destruct (SESSION_SECRET env) as [[|c secret]|] eqn:Es; try discriminate H.
    destruct (extractSessionToken (header_Cookie req)) as [[|c' token]|] eqn:Et;
      try discriminate H.
    destruct (verifySessionToken _ _ _) as [u|] eqn:Ev; [|discriminate H].
    injection H as <- <- <- <- <-. exists u.
    split; [|auto].
    apply session_middleware_verified; [exact Hd|].
    exists (c :: secret), (c' :: token). auto.
Qed.

Context {L : PlatformLaws P}.

(** X21: login and the gate meet in one sandbox.  After a login answered
    200 the stored-key command has run in the sandbox named by the user
    hash of the answer, and outside dev mode a request that sends the
    cookie back within 24 hours, as it was set or as the bare
    [poeclaw_session=<token>] pair, is handed on by the gate to that same
    sandbox, as the session of the login; given that [JSON.parse] reads
    back the session payload [JSON.stringify] wrote. *)
Theorem login_then_gate validate env req now iv st uh k4 ms cookie :
  fst (login validate env req now iv st)
  = Json 200 (LoginJson uh k4 ms) (Some cookie) ->
  JSON_parse (JSON_stringify (mkPoeSessionUser uh k4 (default [] ms) now))
  = Some (mkPoeSessionUser uh k4 (default [] ms) now) ->
  DEV_MODE env <> Some (lit "true") ->
  (exists blob,
      sandbox_exec (snd (login validate env req now iv st))
      = (uh, store_key_command blob) :: sandbox_exec st)
  /\ exists token,
       cookie = buildSessionCookie token
       /\ forall req' now',
            header_Cookie req' = Some cookie
            \/ header_Cookie req' = Some (cookie_name_eq ++ token) ->
            (now' - now <= SESSION_MAX_AGE_MS)%Z ->
            session_middleware env req' now'
            = Next uh (Some (mkPoeSessionUser uh k4 (default [] ms) now)).
Proof.
  intros H HJ Hd.
  destruct (login_200_inv validate env req now iv st)
    as (raw & apiKey & ss & es & token & blob & Hb & -> & _ & _ & Hv
        & Hs & Hsne & He & _ & Hc & Hk & Ha & Hx);
    [rewrite H; reflexivity|].
  rewrite H in Ha. injection Ha as -> -> -> ->.
  split; [eauto|]. exists token. split; [reflexivity|].
  intros req' now' Hreq Hage.
  apply (session_middleware_verified env req' now'
           (mkPoeSessionUser _ _ _ now) Hd).
  exists ss, token. split; [exact Hs|]. split.
  - destruct (IssuedTokenFacts.issued_token_cookie_safe _ _ _ Hc) as (Hne & Hsemi).
    destruct Hreq as [-> | ->].
    + apply CookieFacts.extract_leftmost_cookie with (pre := [])
        (post := lit "; HttpOnly; Secure; SameSite=Lax; Max-Age=86400; Path=/");
        [cbn [length]; lia|assumption|assumption|right; eexists; reflexivity].
    + pose proof (CookieFacts.extract_leftmost_cookie [] token []
                    ltac:(cbn [length]; lia) Hne Hsemi (or_introl eq_refl)) as E.
      rewrite app_nil_r in E. exact E.
  - rewrite (verify_issued_token _ _ _ now' Hc), HJ. cbn [createdAt].
    destruct (Z.gtb_spec (now' - now) SESSION_MAX_AGE_MS); [lia|reflexivity].
Qed.

End WithPlatform.
End GateMoreFacts.

(* ===================================================================== *)
(** ** The close reason the relay sends *)
(* ===================================================================== *)

Module RelayReasonFacts.
Import StringFacts.

(** X22: the reason of a close relayed to the client is the container's
    reason after [transformErrorMessage], cut to its first 120 code units
    and "..." when it is longer than 123; so it never has more than 123
    code units, nor more than 123 octets of UTF-8 when it is ASCII.  The
    reason of a close relayed to the container is the client's, as
    received. *)
Theorem relayed_close_reason (host : jsstring) (code : Z) (reason : jsstring) :
  let shown := transformErrorMessage reason host in
  let sent := close_reason (relay host containerWs (CloseEvent code reason)) in
  sent = (if (123 <? length shown)%nat then take 120 shown ++ lit "..." else shown)
  /\ (length sent <= 123)%nat
  /\ (ascii_only shown -> (length (TextEncoder_encode sent) <= 123)%nat)
  /\ close_reason (relay host serverWs (CloseEvent code reason)) = reason.
Proof.
  cbv zeta. cbn [relay close_reason]. unfold slice_to.
  set (shown := transformErrorMessage reason host).
  split; [reflexivity|].
  assert (Hlen : (length (if (123 <? length shown)%nat
                          then take 120 shown ++ lit "..." else shown) <= 123)%nat).
  { destruct (Nat.ltb_spec 123 (length shown)); [|lia].
    rewrite length_app, length_take.
    change (length (lit "...")) with 3%nat. lia. }
  split; [exact Hlen|]. split; [|reflexivity].
  intros Ha. rewrite TextEncoder_encode_ascii; [exact Hlen|].
  destruct (123 <? length shown)%nat; [|exact Ha].
  apply Forall_app. split; [apply Forall_take, Ha|].
  repeat constructor.
Qed.

End RelayReasonFacts.

(* ===================================================================== *)
(** ** GET /api/auth/me and cookies named alike *)
(* ===================================================================== *)

Module MeFacts.
Import StringFacts TokenFacts CookieFacts IssuedTokenFacts.
Import Reference ReferenceFacts Examples.

(** The specification's reading of a header that holds one cookie, named
    [xpoeclaw_session]: no session cookie. *)
Lemma no_session_cookie_in_suffix_name (v : jsstring) :
  Forall (fun c => c <> semicolon) v ->
  CookieSpec.session_cookie (lit "xpoeclaw_session=" ++ v) = None.
Proof.
  intros Hv.
  unfold CookieSpec.session_cookie, CookieSpec.cookie_named, CookieSpec.pairs.
  rewrite split_on_none.
  - vm_compute. reflexivity.
  - apply Forall_app. split; [|exact Hv].
    repeat (constructor; [discriminate|]). constructor.
Qed.

(** The code's reading of the same header: the value of that cookie. *)
Lemma extract_from_suffix_name (v : jsstring) :
  v <> [] -> Forall (fun c => c <> semicolon) v ->
  extractSessionToken (Some (lit "xpoeclaw_session=" ++ v)) = Some v.
Proof.
  intros Hne Hv.
  pose proof (extract_leftmost_cookie [120] v [] ) as E.
  rewrite app_nil_r in E. apply E; [|exact Hne|exact Hv|left; reflexivity].
  intros [|k] Hk; [reflexivity|cbn [length] in Hk; lia].
Qed.

(** C1: where the code departs from the claim.  A request with no cookie
    named [poeclaw_session], only one whose name ends in it and whose
    value is an issued token not yet 24 hours old, is answered 200 with
    [authenticated: true] and the data of the token's session, where the
    claim has 401 for a request without the session cookie: on the
    request of the first part, and on every platform for every such
    token, given that [JSON.parse] reads back the session payload
    [JSON.stringify] wrote. *)
Theorem me_accepts_name_suffix :
  (CookieSpec.session_cookie (lit "xpoeclaw_session=" ++ token0) = None
   /\ me (P := ref_platform) env0
         (api_request (Some (lit "xpoeclaw_session=" ++ token0)))
         1700000000500
      = Json 200 (MeAuthenticated (lit "abc123def456") (lit "5678")
                    [mkPoeModel (lit "GPT-5.2") (lit "GPT-5.2")]) None)
  /\ forall P : Platform, PlatformLaws P ->
     forall env req now secret u token,
       SESSION_SECRET env = Some secret ->
       createSessionToken u secret = Ok token ->
       JSON_parse (JSON_stringify u) = Some u ->
       (now - createdAt u <= SESSION_MAX_AGE_MS)%Z ->
       header_Cookie req = Some (lit "xpoeclaw_session=" ++ token) ->
       CookieSpec.session_cookie (lit "xpoeclaw_session=" ++ token) = None
       /\ me env req now
          = Json 200 (MeAuthenticated (userHash u) (keyLast4 u) (models u)) None.
Proof.
  split; [split; vm_compute; reflexivity|].
  intros P L env req now secret u token Hs Hc HJ Hage Hreq.
  destruct (issued_token_cookie_safe _ _ _ Hc) as (Hne & Hsemi).
  split; [apply no_session_cookie_in_suffix_name, Hsemi|].
  unfold me. rewrite Hs, Hreq, (extract_from_suffix_name token Hne Hsemi).
  destruct secret as [|s1 secret].
  { apply createSessionToken_Ok in Hc. destruct Hc as (_ & _ & Hk).
    exfalso. apply Hk. reflexivity. }
  destruct token as [|t1 token]; [congruence|].
  rewrite (verify_issued_token _ _ _ now Hc), HJ.
  destruct (Z.gtb_spec (now - createdAt u) SESSION_MAX_AGE_MS); [lia|reflexivity].
Qed.

End MeFacts.

(* ===================================================================== *)
(** ** A run of logins, computed *)
(* ===================================================================== *)

Module LoginRunExamples.
Import Reference Examples.

(** Ten logins from one address with a key the Poe API refuses are
    answered 401; the eleventh, with a key it accepts, and the twelfth
    are answered 429; the login after the window is answered 200. *)
Example login_run_computed :
  map status_of
      (fst (logins env0
              (login_attempt false (lit "pb-wrong-key-000") 1000
               :: map (login_attempt false (lit "pb-wrong-key-000"))
                      [1001; 1002; 1003; 1004; 1005; 1006; 1007; 1008; 1009]%Z
               ++ [login_attempt true (lit "pb-valid-key-12345") 30000;
                   login_attempt false [] 61000;
                   login_attempt true (lit "pb-valid-key-12345") 61001])
              (mkState ∅ [])))
  = map Some
        [401; 401; 401; 401; 401; 401; 401; 401; 401; 401; 429; 429; 200]%Z.
Proof. vm_compute. reflexivity. Qed.

(** A body of [null], and an [apiKey] that is a number, end in the 500 of
    the framework; a body that is no JSON text ends in 400. *)
Example login_body_shapes :
  map (fun b =>
         status_of
           (fst (login (fun _ => mkValidation true None None) env0
                   (mkRequest (lit "https://poeclaw.example/api/auth/login")
                              None None None None b)
                   1000 iv0 (mkState ∅ []))))
      [JsonNull; JsonValue (Some JOther); NotJson; JsonValue None;
       JsonValue (Some JNull); JsonValue (Some (JString (lit "  ")))]
  = map Some [500; 500; 400; 400; 400; 400]%Z.
Proof. vm_compute. reflexivity. Qed.

End LoginRunExamples.

(* ===================================================================== *)
(** ** Validating a key with the Poe API *)
(* ===================================================================== *)

Module PoeFacts.
Import TrimFacts.

Lemma starts_with_app p s : starts_with p s = true -> exists r, s = p ++ r.
Proof.
  revert s. induction p as [|a p IH]; intros s H; [exists s; reflexivity|].
  destruct s as [|b s]; [discriminate H|]. cbn [starts_with] in H.
  apply andb_true_iff in H. destruct H as [Hab H]. apply N.eqb_eq in Hab.
  subst b. destruct (IH s H) as [r ->]. exists r. reflexivity.
Qed.

(** A key of the right shape passes the two format tests. *)
Lemma key_format_ok_tests apiKey :
  key_format_ok apiKey = true ->
  falsy (Some apiKey) || bool_decide (trim apiKey = []) = false
  /\ negb (starts_with (lit "pb-") apiKey) || (length apiKey <? 10)%nat
     || existsb js_space apiKey = false.
Proof.
  unfold key_format_ok. intros H.
  apply andb_true_iff in H. destruct H as [H Hs].
  apply andb_true_iff in H. destruct H as [Hp Hl].
  apply negb_true_iff in Hs. apply Nat.leb_le in Hl.
  split.
  - destruct apiKey as [|c r]; [cbn in Hl; lia|]. cbn [falsy orb].
    apply bool_decide_eq_false_2. intros Ht. apply trim_nil_iff in Ht.
    inversion_clear Ht as [|? ? Hc _]. cbn [existsb] in Hs.
    rewrite Hc in Hs. discriminate Hs.
  - rewrite Hp, Hs. cbn [negb orb]. rewrite orb_false_r.
    apply Nat.ltb_ge. exact Hl.
Qed.

Lemma key_format_bad_tests apiKey :
  key_format_ok apiKey = false ->
  falsy (Some apiKey) || bool_decide (trim apiKey = []) = true
  \/ negb (starts_with (lit "pb-") apiKey) || (length apiKey <? 10)%nat
     || existsb js_space apiKey = true.
Proof.
  unfold key_format_ok. intros H. right.
  destruct (starts_with (lit "pb-") apiKey); [|reflexivity].
  destruct (Nat.leb_spec 10 (length apiKey)) as [Hl|Hl].
  - cbn in H. apply negb_false_iff in H. rewrite H. apply orb_true_r.
  - cbn [negb orb]. apply orb_true_iff. left. apply Nat.ltb_lt. exact Hl.
Qed.

(** X23: a key of the wrong shape (not beginning with "pb-", shorter than
    10 code units, or holding white space; the empty and the blank key
    included) is refused without any call of [fetch], whatever [fetch]
    would do, with the text "API key is empty" or the format message; for
    a key of the right shape [fetch] is called once, for the models URL,
    with the header [Authorization: Bearer <key>]. *)
Theorem validate_checks_format_before_fetch fetch apiKey :
  (key_format_ok apiKey = false ->
   snd (validatePoeApiKey fetch apiKey) = []
   /\ (fst (validatePoeApiKey fetch apiKey) = invalid key_is_empty
       \/ fst (validatePoeApiKey fetch apiKey) = invalid invalid_key_format))
  /\ (key_format_ok apiKey = true ->
      snd (validatePoeApiKey fetch apiKey)
      = [mkFetchCall POE_MODELS_URL (lit "Bearer " ++ apiKey)]).
Proof.
  split; intros H.
  - unfold validatePoeApiKey.
    destruct (falsy (Some apiKey) || bool_decide (trim apiKey = [])) eqn:E1;
      [cbn; auto|].
    destruct (key_format_bad_tests apiKey H) as [E|E]; [congruence|].
    rewrite E. cbn. auto.
  - unfold validatePoeApiKey.
    destruct (key_format_ok_tests apiKey H) as [-> ->]. reflexivity.
Qed.

(** Reading a [valid] answer back. *)
Lemma validate_valid_inv fetch apiKey :
  valid (fst (validatePoeApiKey fetch apiKey)) = true ->
  key_format_ok apiKey = true
  /\ exists response data,
       fetch (mkFetchCall POE_MODELS_URL (lit "Bearer " ++ apiKey))
       = FetchReturns response
       /\ resp_ok response = true /\ resp_json response = JsonData data
       /\ fst (validatePoeApiKey fetch apiKey)
          = mkValidation true
              (Some (map (fun id => mkPoeModel id id) (default [] data))) None.
Proof.
  intros H. destruct (key_format_ok apiKey) eqn:Ek.
  - split; [reflexivity|]. revert H. unfold validatePoeApiKey.
    destruct (key_format_ok_tests apiKey Ek) as [-> ->]. cbn [fst].
    destruct (fetch _) as [e|response] eqn:Ef; [discriminate|].
    destruct (resp_ok response) eqn:Eo; cbn [negb];
      [|destruct (_ || _); discriminate].
    destruct (resp_json response) as [e|data] eqn:Ej; [discriminate|].
    intros _. exists response, data. auto.
  - exfalso. revert H. unfold validatePoeApiKey.
    destruct (falsy (Some apiKey) || bool_decide (trim apiKey = [])) eqn:E1;
      [discriminate|].
    destruct (key_format_bad_tests apiKey Ek) as [E|E];
      [congruence|rewrite E; discriminate].
Qed.

(** X24: the answer is [valid] exactly when the key has the right shape,
    [fetch] returned a response whose [ok] is set, and the body was read;
    the models are then the ids of the body's [data], each with its id as
    name (none when [data] is missing), and there is no error text. *)
Theorem validate_valid_iff fetch apiKey :
  (valid (fst (validatePoeApiKey fetch apiKey)) = true
   <-> key_format_ok apiKey = true
       /\ exists response data,
            fetch (mkFetchCall POE_MODELS_URL (lit "Bearer " ++ apiKey))
            = FetchReturns response
            /\ resp_ok response = true /\ resp_json response = JsonData data)
  /\ (forall response data,
        key_format_ok apiKey = true ->
        fetch (mkFetchCall POE_MODELS_URL (lit "Bearer " ++ apiKey))
        = FetchReturns response ->
        resp_ok response = true -> resp_json response = JsonData data ->
        fst (validatePoeApiKey fetch apiKey)
        = mkValidation true
            (Some (map (fun id => mkPoeModel id id) (default [] data))) None).
Proof.
  assert (S : forall response data,
            key_format_ok apiKey = true ->
            fetch (mkFetchCall POE_MODELS_URL (lit "Bearer " ++ apiKey))
            = FetchReturns response ->
            resp_ok response = true -> resp_json response = JsonData data ->
            fst (validatePoeApiKey fetch apiKey)
            = mkValidation true
                (Some (map (fun id => mkPoeModel id id) (default [] data))) None).
  { intros response data Ek Hf Hok Hj. unfold validatePoeApiKey.
    destruct (key_format_ok_tests apiKey Ek) as [-> ->]. cbn [fst].
    rewrite Hf, Hok, Hj. reflexivity. }
  split; [|exact S]. split.
  - intros H. destruct (validate_valid_inv fetch apiKey H)
      as (Ek & response & data & Hf & Hok & Hj & _).
    eauto 10.
  - intros (Ek & response & data & Hf & Hok & Hj).
    rewrite (S response data Ek Hf Hok Hj). reflexivity.
Qed.

(** Every refusal says why. *)
Lemma validate_invalid_error fetch apiKey :
  valid (fst (validatePoeApiKey fetch apiKey)) = false ->
  exists error, fst (validatePoeApiKey fetch apiKey) = invalid error
                /\ error <> [].
Proof.
  unfold validatePoeApiKey.
  destruct (falsy (Some apiKey) || bool_decide (trim apiKey = []));
    [intros _; eexists; split; [reflexivity|discriminate]|].
  destruct (_ || _);
    [intros _; eexists; split; [reflexivity|discriminate]|].
  cbn [fst]. destruct (fetch _) as [e|response].
  { intros _; eexists; split; [reflexivity|discriminate]. }
  destruct (resp_ok response); cbn [negb].
  - destruct (resp_json response) as [e|data]; [|discriminate].
    intros _; eexists; split; [reflexivity|discriminate].
  - destruct (_ || _); intros _; eexists; (split; [reflexivity|discriminate]).
Qed.

(** X25: an answer that is not [valid] always carries an error text, not
    empty, and no models; so the login handler, which answers 401 with
    [validation.error || 'Invalid API key'], always answers with the
    validator's own text. *)
Theorem validate_refusal_says_why fetch apiKey :
  valid (fst (validatePoeApiKey fetch apiKey)) = false ->
  exists error,
    fst (validatePoeApiKey fetch apiKey) = mkValidation false None (Some error)
    /\ error <> []
    /\ default (lit "Invalid API key")
         (or_else (v_error (fst (validatePoeApiKey fetch apiKey))) None)
       = error.
Proof.
  intros H. destruct (validate_invalid_error fetch apiKey H) as (error & E & Hne).
  exists error. rewrite E. split; [reflexivity|]. split; [exact Hne|].
  cbn [v_error invalid]. unfold or_else.
  destruct error; [congruence|reflexivity].
Qed.

End PoeFacts.

(* ===================================================================== *)
(** ** Login with the Poe validator *)
(* ===================================================================== *)

Module PoeLoginFacts.
Import TrimFacts LoginFacts PoeFacts.

Section WithPlatform.
Context {P : Platform}.

(** X26: with [validatePoeApiKey] as validator, a login answered 200 was
    made with a key that, trimmed, begins with "pb-", has 10 code units
    or more and no white space, and that the Poe API answered with an
    [ok] response; the answer carries the hash of the trimmed key, its
    last four code units (exactly four), and the models of the response. *)
Theorem login_with_poe_accepts fetch env req now iv st uh k4 ms cookie :
  fst (login_with_poe fetch env req now iv st)
  = Json 200 (LoginJson uh k4 ms) cookie ->
  exists raw response data,
    body_apiKey req = Some raw
    /\ key_format_ok (trim raw) = true
    /\ fetch (mkFetchCall POE_MODELS_URL (lit "Bearer " ++ trim raw))
       = FetchReturns response
    /\ resp_ok response = true /\ resp_json response = JsonData data
    /\ uh = hashApiKey (trim raw)
    /\ length k4 = 4%nat /\ trim raw = slice_drop_last 4 (trim raw) ++ k4
    /\ ms = Some (map (fun id => mkPoeModel id id) (default [] data)).
Proof.
  intros H. unfold login_with_poe in H.
  destruct (login_200_inv (fun apiKey => fst (validatePoeApiKey fetch apiKey))
              env req now iv st)
    as (raw & apiKey & ss & es & token & blob & Hb & -> & _ & _ & Hv
        & _ & _ & _ & _ & _ & _ & Ha & _);
    [rewrite H; reflexivity|].
  rewrite H in Ha. injection Ha as -> -> -> _.
  destruct (validate_valid_inv fetch (trim raw) Hv)
    as (Hk & response & data & Hf & Hok & Hj & Hshape).
  exists raw, response, data.
  repeat (split; [assumption || reflexivity|]).
  assert (Hl : (10 <= length (trim raw))%nat).
  { unfold key_format_ok in Hk. apply andb_true_iff in Hk. destruct Hk as [Hk _].
    apply andb_true_iff in Hk. destruct Hk as [_ Hk]. apply Nat.leb_le, Hk. }
  unfold slice_last, slice_drop_last.
  split; [rewrite length_drop; lia|].
  split; [symmetry; apply take_drop|].
  rewrite Hshape. reflexivity.
Qed.

End WithPlatform.
End PoeLoginFacts.

(* ===================================================================== *)
(** ** The per-user environment of the proxy *)
(* ===================================================================== *)

Module ProxyFacts.
Import Base64Facts StringFacts CodecFacts TokenFacts TrimFacts LoginFacts.

Lemma names_differ :
  lit "POE_API_KEY" <> lit "OPENCLAW_DEV_MODE"
  /\ lit "POE_API_KEY" <> lit "R2_USER_PREFIX"
  /\ lit "OPENCLAW_DEV_MODE" <> lit "R2_USER_PREFIX".
Proof. repeat split; discriminate. Qed.

Section WithPlatform.
Context {P : Platform}.

(** The three shapes of the overrides. *)
Lemma envOverrides_cases env poeUser exec :
  (envOverrides env poeUser exec = (∅, [])
   /\ (poeUser = None \/ exists u, poeUser = Some u /\ userHash u = []))
  \/ (exists u, poeUser = Some u /\ userHash u <> []
      /\ let base := <[lit "OPENCLAW_DEV_MODE" := lit "true"]>
                       (<[lit "R2_USER_PREFIX" := userHash u]> ∅) in
         (envOverrides env poeUser exec = (base, [])
          /\ (ENCRYPTION_SECRET env = None \/ ENCRYPTION_SECRET env = Some []))
         \/ (exists secret, ENCRYPTION_SECRET env = Some secret /\ secret <> []
             /\ ((envOverrides env poeUser exec = (base, [read_key_command])
                  /\ forall stdout key,
                       exec read_key_command = ExecReturns (Some stdout) ->
                       trim stdout <> [] ->
                       decryptApiKey (trim stdout) secret <> Ok key)
                 \/ exists stdout key,
                      exec read_key_command = ExecReturns (Some stdout)
                      /\ trim stdout <> []
                      /\ decryptApiKey (trim stdout) secret = Ok key
                      /\ envOverrides env poeUser exec
                         = (<[lit "POE_API_KEY" := key]> base,
                            [read_key_command])))).
Proof.
  unfold envOverrides. destruct poeUser as [u|]; [|left; auto].
  destruct (userHash u) as [|h0 h] eqn:Eh; cbn [falsy]; [left; eauto|].
  right. exists u. rewrite Eh. split; [reflexivity|]. split; [discriminate|].
  cbv zeta.
  destruct (ENCRYPTION_SECRET env) as [[|s0 s]|]; [left; auto| |left; auto].
  right. exists (s0 :: s). split; [reflexivity|]. split; [discriminate|].
  destruct (exec read_key_command) as [|[stdout|]] eqn:Ex.
  - left. split; [reflexivity|]. intros ? ? [=].
  - cbn [fmap option_fmap option_map].
    destruct (trim stdout) as [|c t] eqn:Et.
    + left. split; [reflexivity|]. intros ? ? [= <-]. congruence.
    + destruct (decryptApiKey (c :: t) (s0 :: s)) as [key|e] eqn:Ed.
      * right. exists stdout, key. rewrite Et.
        split; [reflexivity|]. split; [discriminate|]. split; [exact Ed|reflexivity].
      * left. split; [reflexivity|]. intros ? ? [= <-] _. rewrite Et, Ed.
        discriminate.
  - left. split; [reflexivity|]. intros ? ? [=].
Qed.

(** X27: what the proxy passes to a user's container.  With no session
    user (dev mode) it passes nothing and runs nothing.  [R2_USER_PREFIX]
    is passed exactly for a session user, and is that user's hash.
    [POE_API_KEY] is passed exactly when [ENCRYPTION_SECRET] is set, the
    read command returned an output that is not blank, and its trimmed
    text decrypts: the value is that plaintext; a failed read or a failed
    decryption leaves the key out and nothing else.  The read command is
    the only command run, and it is run exactly for a user with a secret
    set. *)
Theorem envOverrides_sound env poeUser exec :
  let overrides := fst (envOverrides env poeUser exec) in
  let commands := snd (envOverrides env poeUser exec) in
  (poeUser = None -> overrides = ∅ /\ commands = [])
  /\ (forall h, overrides !! lit "R2_USER_PREFIX" = Some h
                <-> h <> [] /\ exists u, poeUser = Some u /\ userHash u = h)
  /\ (forall key, overrides !! lit "POE_API_KEY" = Some key
                  <-> exists u secret stdout,
                        poeUser = Some u /\ userHash u <> []
                        /\ ENCRYPTION_SECRET env = Some secret /\ secret <> []
                        /\ exec read_key_command = ExecReturns (Some stdout)
                        /\ trim stdout <> []
                        /\ decryptApiKey (trim stdout) secret = Ok key)
  /\ (commands = [read_key_command] \/ commands = [])
  /\ (commands = [read_key_command]
      <-> exists u secret,
            poeUser = Some u /\ userHash u <> []
            /\ ENCRYPTION_SECRET env = Some secret /\ secret <> []).
Proof.
  cbv zeta. destruct names_differ as (N1 & N2 & N3).
  destruct (envOverrides_cases env poeUser exec)
    as [(E & Hu)|(u & -> & Hh & [(E & Hs)|(secret & Hs & Hne
                                            & [(E & Hx)|(stdout & key & Hx & Ht & Hd & E)])])];
    rewrite E; cbn [fst snd].
  - split; [auto|]. split; [|split].
    + intros h. rewrite lookup_empty. split; [discriminate|].
      intros (Hne & u & -> & <-). destruct Hu as [|(u' & [= <-] & ?)]; congruence.
    + intros key. rewrite lookup_empty. split; [discriminate|].
      intros (u & s & o & -> & Hne & _).
      destruct Hu as [|(u' & [= <-] & ?)]; congruence.
    + split; [right; reflexivity|]. split; [discriminate|].
      intros (u & s & -> & Hne & _).
      destruct Hu as [|(u' & [= <-] & ?)]; congruence.
  - split; [discriminate|]. split; [|split].
    + intros h. rewrite lookup_insert_ne, lookup_insert_eq by congruence.
      split; [intros [= <-]; eauto|]. intros (_ & u' & [= <-] & <-). reflexivity.
    + intros key.
      rewrite !lookup_insert_ne, lookup_empty by congruence.
      split; [discriminate|]. intros (u' & s & o & _ & _ & Hs' & Hne & _).
      destruct Hs as [Hs|Hs]; congruence.
    + split; [right; reflexivity|]. split; [discriminate|].
      intros (u' & s & _ & _ & Hs' & Hne).
      destruct Hs as [Hs|Hs]; congruence.
  - split; [discriminate|]. split; [|split].
    + intros h. rewrite lookup_insert_ne, lookup_insert_eq by congruence.
      split; [intros [= <-]; eauto|]. intros (_ & u' & [= <-] & <-). reflexivity.
    + intros key.
      rewrite !lookup_insert_ne, lookup_empty by congruence.
      split; [discriminate|].
      intros (u' & s & o & _ & _ & Hs' & _ & Ho & Hto & Hdo).
      rewrite Hs in Hs'. injection Hs' as <-.
      exfalso. exact (Hx o key Ho Hto Hdo).
    + split; [left; reflexivity|]. split; [eauto 10|reflexivity].
  - split; [discriminate|]. split; [|split].
    + intros h. rewrite !lookup_insert_ne, lookup_insert_eq by congruence.
      split; [intros [= <-]; eauto|]. intros (_ & u' & [= <-] & <-). reflexivity.
    + intros key'. rewrite lookup_insert_eq. split.
      * intros [= <-]. exists u, secret, stdout. auto 10.
      * intros (u' & s & o & _ & _ & Hs' & _ & Ho & _ & Hdo).
        rewrite Hs in Hs'. injection Hs' as <-.
        rewrite Hx in Ho. injection Ho as <-. congruence.
    + split; [left; reflexivity|]. split; [eauto 10|reflexivity].
Qed.

Context {L : PlatformLaws P}.

(** X28: the proxy recovers the key a login stored.  After a login
    answered 200 with a 12-octet nonce, when the read command returns the
    stored blob, with any white space around it, the proxy passes the
    trimmed API key of the login as [POE_API_KEY], beside the user hash
    and the dev-mode flag; for a key in which every surrogate is paired. *)
Theorem proxy_recovers_stored_key validate env req now iv st uh k4 ms cookie :
  fst (login validate env req now iv st) = Json 200 (LoginJson uh k4 ms) cookie ->
  length iv = 12%nat -> uh <> [] ->
  exists raw blob,
    body_apiKey req = Some raw
    /\ sandbox_exec (snd (login validate env req now iv st))
       = (uh, store_key_command blob) :: sandbox_exec st
    /\ forall u exec pre post,
         userHash u = uh -> well_formed (trim raw) = true ->
         Forall (fun c => js_space c = true) pre ->
         Forall (fun c => js_space c = true) post ->
         exec read_key_command = ExecReturns (Some (pre ++ blob ++ post)) ->
         envOverrides env (Some u) exec
         = (<[lit "POE_API_KEY" := trim raw]>
              (<[lit "OPENCLAW_DEV_MODE" := lit "true"]>
                 (<[lit "R2_USER_PREFIX" := uh]> ∅)),
            [read_key_command]).
Proof.
  intros H Hiv Huh.
  destruct (login_200_inv validate env req now iv st)
    as (raw & apiKey & ss & es & token & blob & Hb & -> & Hne & _ & Hv
        & _ & _ & He & Hene & _ & Hk & Ha & Hx);
    [rewrite H; reflexivity|].
  rewrite H in Ha. injection Ha as -> -> -> _.
  exists raw, blob. split; [exact Hb|]. split; [exact Hx|].
  intros u exec pre post Hu Hwf Hpre Hpost Hexec.
  (* the blob is base64 text, so trimming returns it *)
  assert (Hchars : forallb is_b64_char blob = true)
    by exact (StoredKey.encryptApiKey_chars _ _ _ _ Hk).
  assert (Hkey : length (aesKeyData es) = 32%nat).
  { unfold encryptApiKey in Hk.
    destruct (importKey_aes (aesKeyData es)) as [key|] eqn:Ei; [|discriminate].
    destruct (importKey_aes_aesKeyData _ _ Ei) as [-> Hl].
    apply importKey_aes_Ok in Ei. destruct Ei as [Ei _]. rewrite <- Ei.
    exact Hl. }
  assert (Hoct : octets iv).
  { unfold encryptApiKey in Hk.
    destruct (importKey_aes (aesKeyData es)) as [key|]; [|discriminate].
    cbn [rbind] in Hk. apply btoa_Ok in Hk. destruct Hk as [_ Ho].
    apply Forall_app in Ho. apply Ho. }
  assert (Hblob : blob <> []).
  { rewrite encryptApiKey_Ok in Hk by assumption. injection Hk as <-.
    intros E. apply encode_bytes_nil in E. destruct iv; discriminate. }
  assert (Htrim : trim (pre ++ blob ++ post) = blob).
  { apply trim_surrounded; try assumption.
    apply Forall_forall. intros c Hc. rewrite forallb_forall in Hchars.
    apply list_elem_of_In in Hc.
    destruct (StoredKey.b64_char_plain c (Hchars c Hc)) as (_&_&_&_&?).
    assumption. }
  assert (Hdec : decryptApiKey blob es = Ok (trim raw)).
  { pose proof (encrypt_then_decrypt_same (trim raw) es iv Hkey Hiv Hoct) as E.
    unfold encrypt_then_decrypt in E. rewrite Hk in E. cbn [rbind] in E.
    rewrite E. f_equal. apply TextDecoder_TextEncoder_well_formed; [exact Hwf|].
    destruct (trim raw) as [|c r] eqn:Et; [discriminate|].
    cbn. intros [= ->]. apply trim_head in Et. discriminate Et. }
  unfold envOverrides. rewrite Hu.
  destruct (hashApiKey (trim raw)) as [|h0 h] eqn:Eh; [congruence|].
  cbn [falsy]. rewrite He. destruct es as [|e0 es]; [congruence|].
  rewrite Hexec. cbn [fmap option_fmap option_map]. rewrite Htrim.
  destruct blob as [|b0 blob]; [congruence|]. rewrite Hdec. reflexivity.
Qed.

End WithPlatform.
End ProxyFacts.

(* ===================================================================== *)
(** ** The further properties on concrete inputs *)
(* ===================================================================== *)

Module MoreWitnesses.
Import Reference ReferenceFacts Examples MoreExamples TokenExamples CodecExamples.
Import IssuedTokenFacts CookieReadFacts CodecMoreFacts LimiterFacts LoginFacts
       GateMoreFacts PoeFacts PoeLoginFacts ProxyFacts.

Lemma createSessionToken_succeeds_iff_witness :
  ((exists tok, createSessionToken (P := ref_platform) user0 secret0 = Ok tok)
   <-> secret0 <> [] /\ Forall (fun c => c <= 255) (JSON_stringify user0))
  /\ (~ Forall (fun c => c <= 255) (JSON_stringify user0) ->
      createSessionToken (P := ref_platform) user0 secret0
      = Throw InvalidCharacterError)
  /\ (Forall (fun c => c <= 255) (JSON_stringify user0) ->
      createSessionToken (P := ref_platform) user0 secret0 = Throw DataError
      <-> secret0 = []).
Proof. exact (createSessionToken_succeeds_iff (L := ref_laws) user0 secret0). Defined.

Lemma issued_token_shape_witness :
  exists sg,
    token0 = payloadB64_of (P := ref_platform) user0 ++ dot :: sg
    /\ split_on dot token0 = [payloadB64_of (P := ref_platform) user0; sg]
    /\ payloadB64_of (P := ref_platform) user0 <> []
    /\ atob (payloadB64_of (P := ref_platform) user0)
       = Ok (JSON_stringify (Platform := ref_platform) user0)
    /\ length sg = 44%nat /\ last sg = Some pad
    /\ Forall (fun c => is_b64_char c = true)
         (payloadB64_of (P := ref_platform) user0 ++ sg).
Proof.
  exact (issued_token_shape (L := ref_laws) user0 secret0 token0 token0_issued).
Defined.

Lemma verify_ignores_further_segments_witness :
  verifySessionToken (P := ref_platform) (token0 ++ dot :: lit "anything")
    secret0 1700000000000
  = verifySessionToken (P := ref_platform) token0 secret0 1700000000000.
Proof.
  apply (verify_ignores_further_segments (P := ref_platform)).
  vm_compute. discriminate.
Defined.

Lemma verify_under_other_secret_witness :
  verifySessionToken (P := ref_platform) token0
    (lit "wrong-secret-wrong-secret-12345") 1700000000000 = None.
Proof.
  apply (verify_under_other_secret (L := ref_laws) user0 secret0
           (lit "wrong-secret-wrong-secret-12345") token0 1700000000000
           token0_issued).
  vm_compute. discriminate.
Defined.

Lemma last_four_replaced_refused_witness :
  verifySessionToken (P := ref_platform) (slice_drop_last 4 token0 ++ lit "xxxx")
    secret0 1700000000000 = None.
Proof.
  apply (last_four_replaced_refused (L := ref_laws) user0 secret0 token0
           (lit "xxxx") 1700000000000 token0_issued).
  - reflexivity.
  - repeat constructor.
Defined.

Lemma extractSessionToken_returns_a_value_witness :
  lit "abc123" <> [] /\ Forall (fun c => c <> semicolon) (lit "abc123")
  /\ exists pre post,
       Some (lit "other=foo; poeclaw_session=abc123; bar=baz")
       = Some (pre ++ cookie_name_eq ++ lit "abc123" ++ post)
       /\ (post = [] \/ exists r, post = semicolon :: r).
Proof.
  apply (extractSessionToken_returns_a_value
           (Some (lit "other=foo; poeclaw_session=abc123; bar=baz"))).
  vm_compute. reflexivity.
Defined.

Lemma blob0_encrypted :
  encryptApiKey (P := ref_platform) (lit "pb-test-key-12345")
    (lit "test-encrypt-secret-32-chars-ok!") iv0 = Ok blob0.
Proof. vm_compute. reflexivity. Qed.

Lemma encrypted_blob_carries_nonce_witness :
  (exists sealed, atob blob0 = Ok (iv0 ++ sealed))
  /\ (forall p' k' iv',
        length iv' = length iv0 ->
        encryptApiKey (P := ref_platform) p' k' iv' = Ok blob0 -> iv' = iv0).
Proof.
  exact (encrypted_blob_carries_nonce (P := ref_platform) _ _ _ _ blob0_encrypted).
Defined.

Lemma codec_needs_ascii_secret_witness :
  (length iv0 = 12%nat -> octets iv0 ->
   ((exists b, encryptApiKey (P := ref_platform) (lit "pb-test-key-12345")
                 (233 :: lit "secret") iv0 = Ok b)
    <-> ascii_only (slice_to 32 (padEnd 32 48 (233 :: lit "secret")))))
  /\ (~ ascii_only (slice_to 32 (padEnd 32 48 (233 :: lit "secret"))) ->
      encryptApiKey (P := ref_platform) (lit "pb-test-key-12345")
        (233 :: lit "secret") iv0 = Throw DataError
      /\ decryptApiKey (P := ref_platform) blob0 (233 :: lit "secret")
         = Throw DataError).
Proof.
  exact (codec_needs_ascii_secret (L := ref_laws) (lit "pb-test-key-12345")
           (233 :: lit "secret") iv0 blob0).
Defined.

Lemma at_most_ten_in_a_window_witness :
  fst (check_all (lit "10.99.99.99")
         [1000; 1001; 1002; 1003; 1004; 1005; 1006; 1007; 1008; 1009; 1010;
          1011; 1012]%Z ∅)
  = repeat true 10 ++ repeat false 3.
Proof.
  apply (at_most_ten_in_a_window (lit "10.99.99.99") 1000
           [1001; 1002; 1003; 1004; 1005; 1006; 1007; 1008; 1009; 1010;
            1011; 1012]%Z ∅).
  - left. apply lookup_empty.
  - repeat constructor; unfold WINDOW_MS; lia.
Defined.

Lemma login0_answer :
  fst (login (P := ref_platform) validate0 env0 login_request0 now0 iv0 state0)
  = Json 200 (LoginJson uh0 k40 ms0) (Some cookie0).
Proof. vm_compute. reflexivity. Qed.

Lemma session0_json :
  JSON_parse (Platform := ref_platform)
    (JSON_stringify (mkPoeSessionUser uh0 k40 (default [] ms0) now0))
  = Some (mkPoeSessionUser uh0 k40 (default [] ms0) now0).
Proof. vm_compute. reflexivity. Qed.

Lemma login_then_me_witness :
  exists token,
    cookie0 = buildSessionCookie token
    /\ forall req' now',
         header_Cookie req' = Some cookie0
         \/ header_Cookie req' = Some (cookie_name_eq ++ token) ->
         me (P := ref_platform) env0 req' now'
         = if (now' - now0 >? SESSION_MAX_AGE_MS)%Z then me_unauthenticated
           else Json 200 (MeAuthenticated uh0 k40 (default [] ms0)) None.
Proof.
  exact (login_then_me (L := ref_laws) validate0 env0 login_request0 now0 iv0
           state0 uh0 k40 ms0 cookie0 login0_answer session0_json).
Defined.

Lemma gate_agrees_with_me_witness :
  (forall sandbox user,
      session_middleware (P := ref_platform) env0
        (api_request (Some (cookie_name_eq ++ token0))) 1700000000000
      = Next sandbox user ->
      exists u, user = Some u /\ sandbox = userHash u
                /\ me (P := ref_platform) env0
                     (api_request (Some (cookie_name_eq ++ token0))) 1700000000000
                   = me_authenticated u)
  /\ (forall status uh k4 ms cookie,
        me (P := ref_platform) env0
          (api_request (Some (cookie_name_eq ++ token0))) 1700000000000
        = Json status (MeAuthenticated uh k4 ms) cookie ->
        exists u,
          session_middleware (P := ref_platform) env0
            (api_request (Some (cookie_name_eq ++ token0))) 1700000000000
          = Next uh (Some u)
          /\ uh = userHash u /\ k4 = keyLast4 u /\ ms = models u).
Proof.
  apply (gate_agrees_with_me (P := ref_platform) env0
           (api_request (Some (cookie_name_eq ++ token0))) 1700000000000).
  discriminate.
Defined.

Lemma login_then_gate_witness :
  (exists blob,
      sandbox_exec (snd (login (P := ref_platform) validate0 env0 login_request0
                           now0 iv0 state0))
      = (uh0, store_key_command blob) :: sandbox_exec state0)
  /\ exists token,
       cookie0 = buildSessionCookie token
       /\ forall req' now',
            header_Cookie req' = Some cookie0
            \/ header_Cookie req' = Some (cookie_name_eq ++ token) ->
            (now' - now0 <= SESSION_MAX_AGE_MS)%Z ->
            session_middleware (P := ref_platform) env0 req' now'
            = Next uh0 (Some (mkPoeSessionUser uh0 k40 (default [] ms0) now0)).
Proof.
  apply (login_then_gate (L := ref_laws) validate0 env0 login_request0 now0 iv0
           state0 uh0 k40 ms0 cookie0 login0_answer session0_json).
  discriminate.
Defined.

Lemma validate_refusal_says_why_witness :
  exists error,
    fst (validatePoeApiKey fetch0 (lit "not-a-poe-key"))
    = mkValidation false None (Some error)
    /\ error <> []
    /\ default (lit "Invalid API key")
         (or_else (v_error (fst (validatePoeApiKey fetch0 (lit "not-a-poe-key"))))
                  None)
       = error.
Proof.
  apply (validate_refusal_says_why fetch0 (lit "not-a-poe-key")).
  vm_compute. reflexivity.
Defined.

Lemma login_with_poe_accepts_witness :
  exists raw response data,
    body_apiKey login_request0 = Some raw
    /\ key_format_ok (trim raw) = true
    /\ fetch0 (mkFetchCall POE_MODELS_URL (lit "Bearer " ++ trim raw))
       = FetchReturns response
    /\ resp_ok response = true /\ resp_json response = JsonData data
    /\ uh0 = hashApiKey (P := ref_platform) (trim raw)
    /\ length k40 = 4%nat /\ trim raw = slice_drop_last 4 (trim raw) ++ k40
    /\ ms0 = Some (map (fun id => mkPoeModel id id) (default [] data)).
Proof.
  exact (login_with_poe_accepts (P := ref_platform) fetch0 env0 login_request0
           now0 iv0 state0 uh0 k40 ms0 (Some cookie0) login0_answer).
Defined.

Lemma proxy_recovers_stored_key_witness :
  exists raw blob,
    body_apiKey login_request0 = Some raw
    /\ sandbox_exec (snd (login (P := ref_platform) validate0 env0 login_request0
                            now0 iv0 state0))
       = (uh0, store_key_command blob) :: sandbox_exec state0
    /\ forall u exec pre post,
         userHash u = uh0 -> well_formed (trim raw) = true ->
         Forall (fun c => js_space c = true) pre ->
         Forall (fun c => js_space c = true) post ->
         exec read_key_command = ExecReturns (Some (pre ++ blob ++ post)) ->
         envOverrides (P := ref_platform) env0 (Some u) exec
         = (<[lit "POE_API_KEY" := trim raw]>
              (<[lit "OPENCLAW_DEV_MODE" := lit "true"]>
                 (<[lit "R2_USER_PREFIX" := uh0]> ∅)),
            [read_key_command]).
Proof.
  apply (proxy_recovers_stored_key (L := ref_laws) validate0 env0 login_request0
           now0 iv0 state0 uh0 k40 ms0 (Some cookie0) login0_answer).
  - reflexivity.
  - discriminate.
Defined.

Lemma session_cookie_attributes_witness :
  split_on semicolon (buildSessionCookie token0)
  = [cookie_name_eq ++ token0; lit " HttpOnly"; lit " Secure";
     lit " SameSite=Lax"; lit " Max-Age=86400"; lit " Path=/"]
  /\ (86400 * 1000 = SESSION_MAX_AGE_MS)%Z.
Proof.
  apply (CookieAttributeFacts.session_cookie_attributes token0).
  exact (proj2 (issued_token_cookie_safe (L := ref_laws) _ _ _ token0_issued)).
Defined.

End MoreWitnesses.
